(** * Tokenizer operators of [user_ie_extensions]: a shallow embedding

    The development follows
    [src/modules/custom_operations/user_ie_extensions/sentence_piece/sentence_piece.cpp].
    Every operator's [evaluate] is embedded as a function over the contents of
    its input tensors:

    - an [i32] tensor is a [list Z] of values in the [int32_t] range, a [u8]
      tensor a [list Z] of values in [0, 256);
    - [int32_t] arithmetic wraps ([Int32.wrap]); a conversion to [size_t] is
      [size_t_of_int];
    - evaluation is fallible: a failed check, a failed assertion or an access
      outside a tensor's buffer ends it with an [error];
    - the third-party encoders (SentencePiece, fast_tokenizer) are parameters
      of the sections that use them. *)

From stdpp Require Import base tactics option list numbers gmap strings.
From Stdlib Require Import ZArith Lia.

Local Open Scope Z_scope.

(** ** Machine integers *)

Module Int32.
Definition max_signed : Z := 2 ^ 31 - 1.
Definition min_signed : Z := - 2 ^ 31.

(** The value an [int32_t] holds after a result [z] is stored in it. *)
Definition wrap (z : Z) : Z := (z + 2 ^ 31) mod 2 ^ 32 - 2 ^ 31.

Definition in_range (z : Z) : Prop := min_signed <= z <= max_signed.

Definition add (a b : Z) : Z := wrap (a + b).
Definition sub (a b : Z) : Z := wrap (a - b).
Definition mul (a b : Z) : Z := wrap (a * b).
End Int32.

(** [size_t] is 64 bits wide; converting a negative [int] gives a huge value. *)
Definition size_t_of_int (z : Z) : Z := z mod 2 ^ 64.

Definition is_u8 (b : Z) : Prop := 0 <= b < 256.

(** ** Outcomes of an evaluation *)

Inductive error : Type :=
| MalformedPackedBuffer   (* FRONT_END_GENERAL_CHECK of parse_packed_strings *)
| UnknownSplitMode        (* OPENVINO_ASSERT of RegexSplit::validate_and_infer_types *)
| AssertionFailed         (* any other OPENVINO_ASSERT *)
| CheckFailed             (* CHECK_OK on a status that is not ok *)
| OutOfBounds             (* access outside the buffer of a tensor *)
| BadSize.                (* a negative count used as an unsigned size *)

Inductive result (A : Type) : Type :=
| Ok (a : A)
| Err (e : error).
Arguments Ok {A} a.
Arguments Err {A} e.

#[global] Instance result_ret : MRet result := @Ok.
#[global] Instance result_bind : MBind result :=
  fun A B f m => match m with Ok a => f a | Err e => Err e end.

Definition check (b : bool) (e : error) : result unit :=
  if b then Ok tt else Err e.

Definition get_size {A} (t : list A) : Z := Z.of_nat (length t).

(** [p[i]] for a tensor's data pointer [p]. *)
Definition read {A} (t : list A) (i : Z) : result A :=
  if bool_decide (0 <= i) then
    match t !! Z.to_nat i with
    | Some x => Ok x
    | None => Err OutOfBounds
    end
  else Err OutOfBounds.

(** The elements [p + off, p + off + n) of a buffer, as [std::copy] or a
    [std::string] constructor reads them; an empty range reads nothing. *)
Definition read_range {A} (t : list A) (off n : Z) : result (list A) :=
  if bool_decide (n = 0) then Ok []
  else if bool_decide (0 <= off /\ 0 <= n /\ off + n <= get_size t)
  then Ok (take (Z.to_nat n) (drop (Z.to_nat off) t))
  else Err OutOfBounds.

(** [p[i] = v] for an output tensor's data pointer [p]. *)
Definition write {A} (t : list A) (i : Z) (v : A) : result (list A) :=
  if bool_decide (0 <= i < get_size t)
  then Ok (<[Z.to_nat i := v]> t)
  else Err OutOfBounds.

(** [for (size_t i = lo; i < lo + n; ++i) body], threading the state. *)
Fixpoint for_from {St} (n : nat) (i : Z) (body : Z -> St -> result St) (s : St)
  : result St :=
  match n with
  | O => Ok s
  | S n' => s' ← body i s; for_from n' (i + 1) body s'
  end.

(** [for (const auto& x : l) body], threading the state. *)
Fixpoint for_each {A St} (l : list A) (body : A -> St -> result St) (s : St)
  : result St :=
  match l with
  | [] => Ok s
  | x :: l' => s' ← body x s; for_each l' body s'
  end.

(** [for (size_t i = lo; i < hi; ++i) body]. *)
Definition for_range {St} (lo hi : Z) (body : Z -> St -> result St) (s : St)
  : result St :=
  for_from (Z.to_nat (hi - lo)) lo body s.

(** The contents of a tensor of [n] elements whose memory was never written:
    [junk] stands for whatever the allocation holds. *)
Definition uninitialized {A} (junk : nat -> A) (n : nat) : list A :=
  map junk (seq 0 n).

(** ** Little-endian [int32_t] in a byte buffer *)

Definition decode_i32 (bs : list Z) : Z :=
  match bs with
  | [b0; b1; b2; b3] => Int32.wrap (b0 + 2 ^ 8 * b1 + 2 ^ 16 * b2 + 2 ^ 24 * b3)
  | _ => 0
  end.

Definition encode_i32 (z : Z) : list Z :=
  [z mod 2 ^ 8; (z / 2 ^ 8) mod 2 ^ 8; (z / 2 ^ 16) mod 2 ^ 8; (z / 2 ^ 24) mod 2 ^ 8].

(** [*reinterpret_cast<const int32_t*>(p + off)]. *)
Definition load_i32 (t : list Z) (off : Z) : result Z :=
  bs ← read_range t off 4; Ok (decode_i32 bs).

Fixpoint decode_i32s (n : nat) (bs : list Z) : list Z :=
  match n with
  | O => []
  | S n' => decode_i32 (take 4 bs) :: decode_i32s n' (drop 4 bs)
  end.

(** [n] consecutive [int32_t] starting at byte [off]. *)
Definition load_i32s (t : list Z) (off n : Z) : result (list Z) :=
  bs ← read_range t off (4 * n); Ok (decode_i32s (Z.to_nat n) bs).

(** ** The decomposed representations *)

(** A decomposed string tensor [(begins, ends, chars)]. *)
Record strings := Strings {
  begins : list Z;
  ends : list Z;
  chars : list Z
}.

(** A decomposed ragged string tensor
    [(ragged_begins, ragged_ends, begins, ends, chars)]. *)
Record ragged_strings := RaggedStrings {
  ragged_begins : list Z;
  ragged_ends : list Z;
  rs_begins : list Z;
  rs_ends : list Z;
  rs_chars : list Z
}.

(** A decomposed ragged tensor [(begins, ends, elems)]. *)
Record ragged (E : Type) := Ragged {
  r_begins : list Z;
  r_ends : list Z;
  r_elems : list E
}.
Arguments Ragged {E} _ _ _.
Arguments r_begins {E} _.
Arguments r_ends {E} _.
Arguments r_elems {E} _.

(** ** Packed string tensors: [parse_packed_strings], [StringTensorUnpack],
       [StringTensorPack] *)

Module Packed.

(** The parsed header: [batch_size] and the byte offsets, from the start of
    the tensor, of [begin_ids], [end_ids] and [symbols]. *)
Record header := Header {
  batch_size : Z;
  begin_ids : Z;
  end_ids : Z;
  symbols : Z
}.

Definition parse_packed_strings (packed : list Z) : result header :=
  let bitstream_size := get_size packed in
  _ ← check (bool_decide (bitstream_size >= 4)) MalformedPackedBuffer;
  batch_size ← load_i32 packed 0;
  _ ← check (bool_decide (bitstream_size >=
               size_t_of_int (Int32.add (4 + 4) (Int32.mul 4 batch_size))))
            MalformedPackedBuffer;
  Ok (Header batch_size 4 (4 + 4) (4 + 4 + Int32.mul 4 batch_size)).

(** [StringTensorUnpack::evaluate] on a [u8] tensor. *)
Definition StringTensorUnpack_evaluate (tensor : list Z) : result strings :=
  h ← parse_packed_strings tensor;
  num_chars ← load_i32 tensor (end_ids h + 4 * Int32.sub (batch_size h) 1);
  _ ← check (bool_decide (0 <= batch_size h /\ 0 <= num_chars)) BadSize;
  begins ← load_i32s tensor (begin_ids h) (batch_size h);
  ends ← load_i32s tensor (end_ids h) (batch_size h);
  chars ← read_range tensor (symbols h) num_chars;
  Ok (Strings begins ends chars).

(** [StringTensorPack::evaluate]: the [begins] are not read. *)
Definition StringTensorPack_evaluate (inputs : strings) : result (list Z) :=
  let num_elements := get_size (begins inputs) in
  let num_chars := get_size (chars inputs) in
  ends ← read_range (ends inputs) 0 num_elements;
  chars ← read_range (chars inputs) 0 num_chars;
  Ok (encode_i32 (Int32.wrap num_elements) ++ encode_i32 0
      ++ flat_map encode_i32 ends ++ chars).

End Packed.

(** ** [SentencepieceTokenizer::evaluate] *)

Module SentencepieceTokenizer.
Import Packed.

(** [sentencepiece::util::Status], as far as [CHECK_OK] looks at it. *)
Inductive Status : Type := StatusOk | StatusError.

(** [CHECK_OK(expr)] is the macro of sentencepiece's [common.h], which
    [sentence_piece.cpp] gets through [normalizer.h]: a [CHECK] that the
    status of [expr] is ok, which terminates the program when it is not.
    The constructor guards [LoadFromSerializedProto] with the same macro. *)
Definition CHECK_OK (status : Status) : result unit :=
  match status with
  | StatusOk => Ok tt
  | StatusError => Err CheckFailed
  end.

(** The sparse output [(indices, values, dense_shape)]. *)
Record sparse := Sparse {
  sparse_indices : list Z;
  sparse_values : list Z;
  sparse_dense_shape : list Z
}.

Section Evaluate.
Context {float : Type}.
(** [SentencePieceProcessor::SampleEncode(sentence, nbest_size, alpha, &ids)]:
    the status it returns and the ids it leaves in [ids]. *)
Variable SampleEncode : list Z -> Z -> float -> Status * list Z.
Variables (m_nbest_size : Z) (m_alpha : float).

(** The state of the loop over the batch. *)
Record acc := Acc {
  acc_indices : list Z;
  acc_values : list Z;
  max_token_id : Z
}.

(** The [absl::string_view] over sentence [batch_ind], as it is read. *)
Definition sentence (packed : list Z) (h : header) (batch_ind : Z)
    : result (list Z) :=
  begin_ind ← load_i32 packed (begin_ids h + 4 * batch_ind);
  end_ind ← load_i32 packed (end_ids h + 4 * batch_ind);
  read_range packed (symbols h + begin_ind)
    (size_t_of_int (Int32.sub end_ind begin_ind)).

Definition encode_sentence (packed : list Z) (h : header)
    (batch_ind : Z) (a : acc) : result acc :=
  sentence ← sentence packed h batch_ind;
  let '(status, ids) := SampleEncode sentence m_nbest_size m_alpha in
  _ ← CHECK_OK status;
  Ok (Acc (acc_indices a
             ++ flat_map (fun token_id => [batch_ind; token_id])
                         (seqZ 0 (get_size ids)))
          (acc_values a ++ map Int32.wrap ids)
          (if bool_decide (max_token_id a < get_size ids)
           then get_size ids else max_token_id a)).

Definition evaluate (packed : list Z) : result sparse :=
  h ← parse_packed_strings packed;
  a ← for_range 0 (size_t_of_int (batch_size h))
        (encode_sentence packed h) (Acc [] [] 0);
  Ok (Sparse (acc_indices a) (acc_values a)
             [batch_size h; max_token_id a]).
End Evaluate.
End SentencepieceTokenizer.

(** ** The normalizers: [evaluate_normalization_helper] and its callers *)

Module Normalization.

(** The state of the loop: the two offset outputs and the [std::deque]
    buffer. *)
Record state := State {
  new_begins : list Z;
  new_ends : list Z;
  buffer : list Z
}.

Section Helper.
Variable junk : nat -> nat -> Z.
Variable normalizer : list Z -> list Z.

Definition normalize_one (inputs : strings) (i : Z) (s : state)
    : result state :=
  nb ← write (new_begins s) i (Int32.wrap (get_size (buffer s)));
  b ← read (begins inputs) i;
  e ← read (ends inputs) i;
  str ← read_range (chars inputs) b (e - b);
  let buffer' := buffer s ++ normalizer str in
  ne ← write (new_ends s) i (Int32.wrap (get_size buffer'));
  Ok (State nb ne buffer').

Definition evaluate_normalization_helper (inputs : strings)
    : result strings :=
  let num_elements := get_size (begins inputs) in
  s ← for_range 0 num_elements (normalize_one inputs)
        (State (uninitialized (junk 0) (length (begins inputs)))
               (uninitialized (junk 1) (length (ends inputs)))
               []);
  Ok (Strings (new_begins s) (new_ends s) (buffer s)).
End Helper.

Section Callers.
Variable junk : nat -> nat -> Z.
(** [NormalizedString(str).Lowercase().GetStr()]. *)
Variable Lowercase : list Z -> list Z.
(** [NormalizedString(str).NFD().GetStr()] and the like. *)
Variables NFD NFC NFKD NFKC : list Z -> list Z.
(** [NormalizedString(str).Replace(search, replace).GetStr()]. *)
Variable Replace : list Z -> list Z -> list Z -> list Z.

Definition CaseFold_evaluate (inputs : strings) : result strings :=
  evaluate_normalization_helper junk Lowercase inputs.

Definition normalizers : gmap string (list Z -> list Z) :=
  list_to_map [
    ("NFD"%string, NFD);
    ("NFC"%string, NFC);
    ("NFKD"%string, NFKD);
    ("NFKC"%string, NFKC)
  ].

(** [normalizers.at(m_normalization_form)] throws on a form that is not
    a key. *)
Definition NormalizeUnicode_evaluate (m_normalization_form : string)
    (inputs : strings) : result strings :=
  match normalizers !! m_normalization_form with
  | Some normalizer => evaluate_normalization_helper junk normalizer inputs
  | None => Err OutOfBounds
  end.

Definition RegexNormalization_evaluate (inputs : strings)
    (input3 input4 : list Z) : result strings :=
  search_pattern ← read_range input3 0 (size_t_of_int (get_size input3 - 1));
  replace_pattern ← read_range input4 0 (size_t_of_int (get_size input4 - 1));
  evaluate_normalization_helper junk (Replace search_pattern replace_pattern)
    inputs.
End Callers.
End Normalization.

(** ** [RegexSplit] *)

Module RegexSplit.

Inductive SplitMode : Type :=
| REMOVED | ISOLATED | MERGED_WITH_PREVIOUS | MERGED_WITH_NEXT.

Definition split_modes : gmap string SplitMode :=
  list_to_map [
    ("remove"%string, REMOVED);
    ("isolate"%string, ISOLATED);
    ("merge_with_previous"%string, MERGED_WITH_PREVIOUS);
    ("merge_with_next"%string, MERGED_WITH_NEXT)
  ].

(** [RegexSplit::validate_and_infer_types]: the check on [m_behaviour]; the
    output types it then declares do not depend on the attribute. *)
Definition validate_and_infer_types (m_behaviour : string) : result unit :=
  check (bool_decide (is_Some (split_modes !! m_behaviour))) UnknownSplitMode.

(** The tensors [evaluate] receives: fewer than five (a string triple and the
    pattern) or a ragged string quintuple and the pattern. *)
Inductive inputs : Type :=
| FlatInputs (s : strings) (split_pattern : list Z)
| RaggedInputs (r : ragged_strings) (split_pattern : list Z).

Record state := State {
  new_ragged_begins : list Z;
  new_ragged_ends : list Z;
  new_begins : list Z;
  new_ends : list Z;
  ragged_offset : Z
}.

Section Evaluate.
Variable junk : nat -> nat -> Z.
(** [pretokenizers::SplitPreTokenizer(pattern, mode, invert)] applied to a
    string: the original offsets [(first, second)] of the splits. *)
Variable SplitPreTokenizer :
  list Z -> SplitMode -> bool -> list Z -> list (Z * Z).
Variables (m_behaviour : string) (m_invert : bool).

Definition store_split (b : Z) (offset : Z * Z) (s : state) : result state :=
  nb ← write (new_begins s) (ragged_offset s) (Int32.wrap (b + offset.1));
  ne ← write (new_ends s) (ragged_offset s) (Int32.wrap (b + offset.2));
  Ok (State (new_ragged_begins s) (new_ragged_ends s) nb ne
            (Int32.add (ragged_offset s) 1)).

Definition split_word (pretokenizer : list Z -> list (Z * Z))
    (begins ends chars : list Z) (seq word : Z) (s : state) : result state :=
  b ← read begins word;
  e ← read ends word;
  str ← read_range chars b (e - b);
  let splits := pretokenizer str in
  nrb ← write (new_ragged_begins s) seq (ragged_offset s);
  for_each splits (store_split b)
    (State nrb (new_ragged_ends s) (new_begins s) (new_ends s)
           (ragged_offset s)).

Definition split_row (pretokenizer : list Z -> list (Z * Z))
    (r : ragged_strings) (seq : Z) (s : state) : result state :=
  rb ← read (ragged_begins r) seq;
  re ← read (ragged_ends r) seq;
  s' ← for_range (size_t_of_int rb) (size_t_of_int re)
         (split_word pretokenizer (rs_begins r) (rs_ends r) (rs_chars r) seq) s;
  nre ← write (new_ragged_ends s') seq (ragged_offset s');
  Ok (State (new_ragged_begins s') nre (new_begins s') (new_ends s')
            (ragged_offset s')).

(** The part both branches of [evaluate] share: [num_elements] rows are
    processed; [outputs[0]] and [outputs[1]] have [n0] and [n1] elements.
    [split_modes.at(m_behaviour)] throws on a behaviour that is not a
    key. *)
Definition split_rows (split_pattern : list Z) (r : ragged_strings)
    (num_elements : Z) (n0 n1 : nat) : result ragged_strings :=
  let num_chars := length (rs_chars r) in
  mode ← match split_modes !! m_behaviour with
         | Some mode => Ok mode
         | None => Err OutOfBounds
         end;
  let pretokenizer := SplitPreTokenizer split_pattern mode m_invert in
  s ← for_range 0 num_elements (split_row pretokenizer r)
        (State (uninitialized (junk 0) n0) (uninitialized (junk 1) n1)
               (uninitialized (junk 2) num_chars)
               (uninitialized (junk 3) num_chars) 0);
  _ ← check (bool_decide (0 <= ragged_offset s)) BadSize;
  Ok (RaggedStrings (new_ragged_begins s) (new_ragged_ends s)
        (take (Z.to_nat (ragged_offset s)) (new_begins s))
        (take (Z.to_nat (ragged_offset s)) (new_ends s))
        (rs_chars r)).

Definition evaluate (i : inputs) : result ragged_strings :=
  match i with
  | FlatInputs s split_pattern =>
      let n := length (begins s) in
      let ragged_begins := map (fun i => Int32.wrap (Z.of_nat i)) (seq 0 n) in
      let ragged_ends := map (fun i => Int32.wrap (Z.of_nat i + 1)) (seq 0 n) in
      let num_elements := get_size (begins s) in
      split_rows split_pattern
        (RaggedStrings ragged_begins ragged_ends (begins s) (ends s) (chars s))
        num_elements (length (begins s)) (length (ends s))
  | RaggedInputs r split_pattern =>
      let num_elements := get_size (rs_begins r) in
      split_rows split_pattern r num_elements
        (length (ragged_begins r)) (length (ragged_ends r))
  end.
End Evaluate.
End RegexSplit.

(** ** [BytesToChars] *)

Module BytesToChars.

Definition create_bytes_to_chars_map : gmap Z (list Z) :=
  list_to_map [
  (33, [33]); (34, [34]); (35, [35]); (36, [36]); (37, [37]); (38, [38]);
  (39, [39]); (40, [40]); (41, [41]); (42, [42]); (43, [43]); (44, [44]);
  (45, [45]); (46, [46]); (47, [47]); (48, [48]); (49, [49]); (50, [50]);
  (51, [51]); (52, [52]); (53, [53]); (54, [54]); (55, [55]); (56, [56]);
  (57, [57]); (58, [58]); (59, [59]); (60, [60]); (61, [61]); (62, [62]);
  (63, [63]); (64, [64]); (65, [65]); (66, [66]); (67, [67]); (68, [68]);
  (69, [69]); (70, [70]); (71, [71]); (72, [72]); (73, [73]); (74, [74]);
  (75, [75]); (76, [76]); (77, [77]); (78, [78]); (79, [79]); (80, [80]);
  (81, [81]); (82, [82]); (83, [83]); (84, [84]); (85, [85]); (86, [86]);
  (87, [87]); (88, [88]); (89, [89]); (90, [90]); (91, [91]); (92, [92]);
  (93, [93]); (94, [94]); (95, [95]); (96, [96]); (97, [97]); (98, [98]);
  (99, [99]); (100, [100]); (101, [101]); (102, [102]); (103, [103]);
  (104, [104]); (105, [105]); (106, [106]); (107, [107]); (108, [108]);
  (109, [109]); (110, [110]); (111, [111]); (112, [112]); (113, [113]);
  (114, [114]); (115, [115]); (116, [116]); (117, [117]); (118, [118]);
  (119, [119]); (120, [120]); (121, [121]); (122, [122]); (123, [123]);
  (124, [124]); (125, [125]); (126, [126]); (161, [194; 161]);
  (162, [194; 162]); (163, [194; 163]); (164, [194; 164]);
  (165, [194; 165]); (166, [194; 166]); (167, [194; 167]);
  (168, [194; 168]); (169, [194; 169]); (170, [194; 170]);
  (171, [194; 171]); (172, [194; 172]); (174, [194; 174]);
  (175, [194; 175]); (176, [194; 176]); (177, [194; 177]);
  (178, [194; 178]); (179, [194; 179]); (180, [194; 180]);
  (181, [194; 181]); (182, [194; 182]); (183, [194; 183]);
  (184, [194; 184]); (185, [194; 185]); (186, [194; 186]);
  (187, [194; 187]); (188, [194; 188]); (189, [194; 189]);
  (190, [194; 190]); (191, [194; 191]); (192, [195; 128]);
  (193, [195; 129]); (194, [195; 130]); (195, [195; 131]);
  (196, [195; 132]); (197, [195; 133]); (198, [195; 134]);
  (199, [195; 135]); (200, [195; 136]); (201, [195; 137]);
  (202, [195; 138]); (203, [195; 139]); (204, [195; 140]);
  (205, [195; 141]); (206, [195; 142]); (207, [195; 143]);
  (208, [195; 144]); (209, [195; 145]); (210, [195; 146]);
  (211, [195; 147]); (212, [195; 148]); (213, [195; 149]);
  (214, [195; 150]); (215, [195; 151]); (216, [195; 152]);
  (217, [195; 153]); (218, [195; 154]); (219, [195; 155]);
  (220, [195; 156]); (221, [195; 157]); (222, [195; 158]);
  (223, [195; 159]); (224, [195; 160]); (225, [195; 161]);
  (226, [195; 162]); (227, [195; 163]); (228, [195; 164]);
  (229, [195; 165]); (230, [195; 166]); (231, [195; 167]);
  (232, [195; 168]); (233, [195; 169]); (234, [195; 170]);
  (235, [195; 171]); (236, [195; 172]); (237, [195; 173]);
  (238, [195; 174]); (239, [195; 175]); (240, [195; 176]);
  (241, [195; 177]); (242, [195; 178]); (243, [195; 179]);
  (244, [195; 180]); (245, [195; 181]); (246, [195; 182]);
  (247, [195; 183]); (248, [195; 184]); (249, [195; 185]);
  (250, [195; 186]); (251, [195; 187]); (252, [195; 188]);
  (253, [195; 189]); (254, [195; 190]); (255, [195; 191]); (0, [196; 128]);
  (1, [196; 129]); (2, [196; 130]); (3, [196; 131]); (4, [196; 132]);
  (5, [196; 133]); (6, [196; 134]); (7, [196; 135]); (8, [196; 136]);
  (9, [196; 137]); (10, [196; 138]); (11, [196; 139]); (12, [196; 140]);
  (13, [196; 141]); (14, [196; 142]); (15, [196; 143]); (16, [196; 144]);
  (17, [196; 145]); (18, [196; 146]); (19, [196; 147]); (20, [196; 148]);
  (21, [196; 149]); (22, [196; 150]); (23, [196; 151]); (24, [196; 152]);
  (25, [196; 153]); (26, [196; 154]); (27, [196; 155]); (28, [196; 156]);
  (29, [196; 157]); (30, [196; 158]); (31, [196; 159]); (32, [196; 160]);
  (127, [196; 161]); (128, [196; 162]); (129, [196; 163]);
  (130, [196; 164]); (131, [196; 165]); (132, [196; 166]);
  (133, [196; 167]); (134, [196; 168]); (135, [196; 169]);
  (136, [196; 170]); (137, [196; 171]); (138, [196; 172]);
  (139, [196; 173]); (140, [196; 174]); (141, [196; 175]);
  (142, [196; 176]); (143, [196; 177]); (144, [196; 178]);
  (145, [196; 179]); (146, [196; 180]); (147, [196; 181]);
  (148, [196; 182]); (149, [196; 183]); (150, [196; 184]);
  (151, [196; 185]); (152, [196; 186]); (153, [196; 187]);
  (154, [196; 188]); (155, [196; 189]); (156, [196; 190]);
  (157, [196; 191]); (158, [197; 128]); (159, [197; 129]);
  (160, [197; 130]); (173, [197; 131])
  ].

(** [m.at(key)]. *)
Definition at_ (m : gmap Z (list Z)) (key : Z) : result (list Z) :=
  match m !! key with
  | Some v => Ok v
  | None => Err OutOfBounds
  end.

Definition m_bytes_to_chars : gmap Z (list Z) := create_bytes_to_chars_map.

(** The output bytes for a string: the entries of its bytes, in order. *)
Fixpoint remap (bytes : list Z) : result (list Z) :=
  match bytes with
  | [] => Ok []
  | c :: rest =>
      v ← at_ m_bytes_to_chars c; out ← remap rest; Ok (v ++ out)
  end.

Record state := State {
  new_begins : list Z;
  new_ends : list Z;
  new_chars : list Z;
  char_pointer : Z        (* uint32_t *)
}.

Definition put_byte (byte : Z) (s : state) : result state :=
  nc ← write (new_chars s) (char_pointer s) byte;
  Ok (State (new_begins s) (new_ends s) nc ((char_pointer s + 1) mod 2 ^ 32)).

Definition remap_byte (chars : list Z) (b k : Z) (s : state) : result state :=
  c ← read chars ((size_t_of_int b + k) mod 2 ^ 64);
  bytes ← at_ m_bytes_to_chars c;
  for_each bytes put_byte s.

Definition remap_word (r : ragged_strings) (i : Z) (s : state) : result state :=
  e ← read (rs_ends r) i;
  b ← read (rs_begins r) i;
  let word_len := Int32.sub e b in
  for_range 0 (size_t_of_int word_len) (remap_byte (rs_chars r) b) s.

Definition remap_row (r : ragged_strings) (j : Z) (s : state) : result state :=
  nb ← write (new_begins s) j (Int32.wrap (char_pointer s));
  rb ← read (ragged_begins r) j;
  re ← read (ragged_ends r) j;
  s' ← for_range (size_t_of_int rb) (size_t_of_int re) (remap_word r)
         (State nb (new_ends s) (new_chars s) (char_pointer s));
  ne ← write (new_ends s') j (Int32.wrap (char_pointer s'));
  Ok (State (new_begins s') ne (new_chars s') (char_pointer s')).

(** [BytesToChars::evaluate]: [outputs[0]] and [outputs[1]] are the input
    tensors; [junk] gives the memory of the three freshly shaped ones. *)
Definition evaluate (junk : nat -> nat -> Z) (r : ragged_strings)
    : result ragged_strings :=
  let num_elems := get_size (ragged_begins r) in
  s ← for_range 0 num_elems (remap_row r)
        (State (uninitialized (junk 2%nat) (length (rs_begins r)))
               (uninitialized (junk 3%nat) (length (rs_ends r)))
               (uninitialized (junk 4%nat) (length (rs_chars r) * 2)%nat)
               0);
  Ok (RaggedStrings (ragged_begins r) (ragged_ends r)
                    (new_begins s) (new_ends s) (new_chars s)).
End BytesToChars.

(** ** [WordpieceTokenizer] and [BPETokenizer] *)

(** The loop over rows and words that [WordpieceTokenizer::evaluate] and
    [BPETokenizer::evaluate] both run, each with its own [Tokenize]. *)
Module Tokens.

Record state := State {
  new_begins : list Z;
  new_ends : list Z;
  new_elems : list Z;
  offset : Z               (* int32_t *)
}.

Section Loop.
(** [tokenizer.Tokenize(str)]: the [id_] of every token. *)
Variable Tokenize : list Z -> list Z.

Definition put_token (id : Z) (s : state) : result state :=
  _ ← check (bool_decide (size_t_of_int (offset s) < get_size (new_elems s)))
            AssertionFailed;
  ne ← write (new_elems s) (offset s) (Int32.wrap id);
  Ok (State (new_begins s) (new_ends s) ne (Int32.add (offset s) 1)).

Definition tokenize_word (r : ragged_strings) (i : Z) (s : state)
    : result state :=
  b ← read (rs_begins r) i;
  e ← read (rs_ends r) i;
  str ← read_range (rs_chars r) b (e - b);
  for_each (Tokenize str) put_token s.

Definition tokenize_row (r : ragged_strings) (j : Z) (s : state)
    : result state :=
  nb ← write (new_begins s) j (offset s);
  rb ← read (ragged_begins r) j;
  re ← read (ragged_ends r) j;
  s' ← for_range (size_t_of_int rb) (size_t_of_int re) (tokenize_word r)
         (State nb (new_ends s) (new_elems s) (offset s));
  ne ← write (new_ends s') j (offset s');
  Ok (State (new_begins s') ne (new_elems s') (offset s')).

Definition tokenize_rows (junk : nat -> nat -> Z) (r : ragged_strings)
    : result (ragged Z) :=
  let num_elems := get_size (ragged_begins r) in
  s ← for_range 0 num_elems (tokenize_row r)
        (State (uninitialized (junk 0%nat) (length (ragged_begins r)))
               (uninitialized (junk 1%nat) (length (ragged_ends r)))
               (uninitialized (junk 2%nat) (length (rs_chars r)))
               0);
  _ ← check (bool_decide (0 <= offset s)) BadSize;
  Ok (Ragged (new_begins s) (new_ends s)
             (take (Z.to_nat (offset s)) (new_elems s))).
End Loop.
End Tokens.

Module WordpieceTokenizer.

(** [core::Vocab]: token to id. *)
Abbreviation Vocab := (gmap (list Z) Z).

Section Evaluate.
Variable junk : nat -> nat -> Z.
(** [models::FastWordPiece(vocab, unk_token, max_bytes_per_word,
    suffix_indicator, true).Tokenize]. *)
Variable FastWordPiece :
  Vocab -> list Z -> Z -> list Z -> bool -> list Z -> list Z.
Variables (m_suffix_indicator : list Z) (m_max_bytes_per_word : Z).

Definition read_vocab (vocab : strings) (unk_token_id : Z) (id : Z)
    (acc : Vocab * list Z) : result (Vocab * list Z) :=
  b ← read (begins vocab) id;
  e ← read (ends vocab) id;
  token ← read_range (chars vocab) b (e - b);
  Ok (<[token := Int32.wrap id]> acc.1,
      if bool_decide (id = size_t_of_int unk_token_id) then token else acc.2).

Definition evaluate (r : ragged_strings) (vocab : strings)
    (input8 : list Z) : result (ragged Z) :=
  let vocab_size := get_size (begins vocab) in
  unk_token_id ← read input8 0;
  let unk_token_id :=
    if bool_decide (unk_token_id < 0)
    then Int32.wrap (size_t_of_int unk_token_id + vocab_size)
    else unk_token_id in
  '(vocab, unk_token) ← for_range 0 vocab_size
                          (read_vocab vocab unk_token_id) (∅, []);
  let tokenizer :=
    FastWordPiece vocab unk_token m_max_bytes_per_word m_suffix_indicator true in
  Tokens.tokenize_rows tokenizer junk r.
End Evaluate.
End WordpieceTokenizer.

Module BPETokenizer.

Abbreviation Vocab := (gmap (list Z) Z).
Abbreviation Merges := (list (list Z * list Z)).

Section Evaluate.
Variable junk : nat -> nat -> Z.
(** [models::BPE(vocab, merges, cache, dropout, unk_token,
    suffix_indicator, end_suffix, fuse_unk).Tokenize]. *)
Variable BPE :
  Vocab -> Merges -> Z -> list (list Z) -> list (list Z) -> list (list Z)
  -> bool -> list Z -> list Z.
Variables (m_unk_token m_suffix_indicator m_end_suffix : list Z).
Variables (m_fuse_unk : bool).

Definition read_vocab (vocab : strings) (id : Z) (acc : Vocab)
    : result Vocab :=
  b ← read (begins vocab) id;
  e ← read (ends vocab) id;
  token ← read_range (chars vocab) b (e - b);
  Ok (<[token := Int32.wrap id]> acc).

(** [merge.find(delim)] stored in an [int], then the two [substr]. *)
Definition split_merge (merge : list Z) : list Z * list Z :=
  match list_find (fun c => c = 32) merge with
  | Some (delim_pos, _) => (take delim_pos merge, drop (delim_pos + 1) merge)
  | None => (merge, merge)
  end.

Definition read_merge (merges : strings) (id : Z) (acc : Merges)
    : result Merges :=
  b ← read (begins merges) id;
  e ← read (ends merges) id;
  merge ← read_range (chars merges) b (e - b);
  Ok (acc ++ [split_merge merge]).

Definition optional (s : list Z) : list (list Z) :=
  if bool_decide (get_size s > 0) then [s] else [].

Definition evaluate (r : ragged_strings) (vocab merges : strings)
    : result (ragged Z) :=
  let vocab_size := get_size (begins vocab) in
  let merges_size := get_size (begins merges) in
  vocab ← for_range 0 vocab_size (read_vocab vocab) ∅;
  merges ← for_range 0 merges_size (read_merge merges) [];
  let tokenizer :=
    BPE vocab merges 10000 (optional m_unk_token)
        (optional m_suffix_indicator) (optional m_end_suffix) m_fuse_unk in
  Tokens.tokenize_rows tokenizer junk r.
End Evaluate.
End BPETokenizer.

(** ** [RaggedToDense] *)

Module RaggedToDense.

Section Evaluate.
Context {E : Type}.

Record state := State {
  out_elems : list E;
  out_mask : list Z
}.

Definition fill_row (r : ragged E) (default_value : E) (target_dim : Z)
    (i : Z) (s : state) : result state :=
  b ← read (r_begins r) i;
  e ← read (r_ends r) i;
  let len := Z.min (size_t_of_int (Int32.sub e b)) target_dim in
  row ← read_range (r_elems r) b len;
  Ok (State
        (out_elems s ++ row
           ++ replicate (Z.to_nat (target_dim - len)) default_value)
        (out_mask s ++ replicate (Z.to_nat len) 1
           ++ replicate (Z.to_nat (target_dim - len)) 0)).

(** [RaggedToDense::evaluate]; [target_dim] is the last dimension of the
    shape [validate_and_infer_types] gave the outputs, whose other
    dimensions are those of [inputs[0]]. *)
Definition evaluate (r : ragged E) (default_value : E) (target_dim : nat)
    : result (list E * list Z) :=
  let nelems := get_size (r_begins r) in
  s ← for_range 0 nelems (fill_row r default_value (Z.of_nat target_dim))
        (State [] []);
  _ ← check (bool_decide (get_size (out_elems s) = nelems * Z.of_nat target_dim))
            AssertionFailed;
  _ ← check (bool_decide (get_size (out_mask s) = nelems * Z.of_nat target_dim))
            AssertionFailed;
  Ok (out_elems s, out_mask s).
End Evaluate.

(** Row [i] of a dense tensor whose last dimension is [target_dim]. *)
Definition row {A} (target_dim : nat) (dense : list A) (i : nat) : list A :=
  take target_dim (drop (i * target_dim) dense).
End RaggedToDense.

(** ** [CombineSegments] *)

Module CombineSegments.

Section Evaluate.
Context {E I : Type}.

(** One ragged input: the rank [validate_and_infer_types] saw for its
    [begins], and its three tensors. *)
Record input := Input {
  rank : Z;
  tensors : ragged E
}.

Definition nelems (x : input) : Z := get_size (r_begins (tensors x)).

Record outputs := Outputs {
  out_elem_begins : list Z;
  out_elem_ends : list Z;
  out_elems : list E;
  out_id_begins : list Z;
  out_id_ends : list Z;
  out_ids : list I
}.

Record state := State {
  out : outputs;
  out_offset : Z           (* size_t *)
}.

(** [shape_size(ps)] and [max_nelems] after the first loop. *)
Definition shapes (inputs : list input) : Z * Z :=
  fold_left
    (fun '(ps_size, max_nelems) x =>
       (if bool_decide (rank x > 0) then nelems x else ps_size,
        Z.max max_nelems (nelems x)))
    inputs (1, 0).

Definition estimate (inputs : list input) (max_nelems : Z) : Z :=
  fold_left
    (fun flat_out_size x =>
       if bool_decide (nelems x = 1)
       then flat_out_size + max_nelems * get_size (r_elems (tensors x))
       else flat_out_size + get_size (r_elems (tensors x)))
    inputs 0.

Definition copy_segment (inputs : list input) (ids : list I)
    (flat_out_size : Z) (i j : Z) (s : state) : result state :=
  x ← read inputs j;
  let k := if bool_decide (nelems x = 1) then 0 else i in
  b ← read (r_begins (tensors x)) k;
  e ← read (r_ends (tensors x)) k;
  let len := size_t_of_int (Int32.sub e b) in
  segment ← read_range (r_elems (tensors x)) b len;
  _ ← check (bool_decide (out_offset s + len <= flat_out_size)) OutOfBounds;
  id ← read ids j;
  let o := out s in
  Ok (State
        (Outputs (out_elem_begins o) (out_elem_ends o)
                 (out_elems o ++ segment)
                 (out_id_begins o) (out_id_ends o)
                 (out_ids o ++ replicate (Z.to_nat len) id))
        (out_offset s + len)).

Definition combine_row (inputs : list input) (ids : list I)
    (flat_out_size : Z) (i : Z) (s : state) : result state :=
  let o := out s in
  elem_begins ← write (out_elem_begins o) i (Int32.wrap (out_offset s));
  id_begins ← write (out_id_begins o) i (Int32.wrap (out_offset s));
  s' ← for_range 0 (get_size inputs) (copy_segment inputs ids flat_out_size i)
         (State (Outputs elem_begins (out_elem_ends o) (out_elems o)
                         id_begins (out_id_ends o) (out_ids o))
                (out_offset s));
  let o' := out s' in
  elem_ends ← write (out_elem_ends o') i (Int32.wrap (out_offset s'));
  id_ends ← write (out_id_ends o') i (Int32.wrap (out_offset s'));
  Ok (State (Outputs (out_elem_begins o') elem_ends (out_elems o')
                     (out_id_begins o') id_ends (out_ids o'))
            (out_offset s')).

(** [CombineSegments::evaluate] on the ragged inputs and the segment ids
    ([inputs.back()]). *)
Definition evaluate (junk : nat -> nat -> Z) (inputs : list input)
    (ids : list I) : result outputs :=
  let num_of_ragged := get_size inputs in
  _ ← check (bool_decide (num_of_ragged = get_size ids)) AssertionFailed;
  let '(ps_size, max_nelems) := shapes inputs in
  let flat_out_size := estimate inputs max_nelems in
  _ ← check (bool_decide (max_nelems = ps_size)) AssertionFailed;
  s ← for_range 0 max_nelems (combine_row inputs ids flat_out_size)
        (State (Outputs (uninitialized (junk 0%nat) (Z.to_nat ps_size))
                        (uninitialized (junk 1%nat) (Z.to_nat ps_size))
                        []
                        (uninitialized (junk 3%nat) (Z.to_nat ps_size))
                        (uninitialized (junk 4%nat) (Z.to_nat ps_size))
                        [])
               0);
  _ ← check (bool_decide (out_offset s <= flat_out_size)) AssertionFailed;
  Ok (out s).
End Evaluate.
Arguments input : clear implicits.
Arguments outputs : clear implicits.
End CombineSegments.

(** ** Predicates of the statements *)

Module Spec.

(** The keys of [split_modes]. *)
Definition behaviours : list string :=
  ["remove"; "isolate"; "merge_with_previous"; "merge_with_next"]%string.

(** A canonical packed string buffer: bytes, a batch size [N >= 0], first
    offset [0], and a payload of exactly [offsets[N]] bytes after the
    [N + 1] offsets. *)
Definition canonical_packed (packed : list Z) : Prop :=
  Forall is_u8 packed /\
  exists N last,
    load_i32 packed 0 = Ok N /\ 0 <= N /\
    load_i32 packed 4 = Ok 0 /\
    load_i32 packed (4 + 4 * N) = Ok last /\
    get_size packed = 4 + 4 * (N + 1) + last.

(** A ragged tensor of the data model: as many ends as begins, and every
    row a range [0 <= begin <= end <= len(elems)] of [i32] offsets. *)
Definition well_formed_ragged {E} (r : ragged E) : Prop :=
  length (r_begins r) = length (r_ends r)
  /\ forall i b e,
       r_begins r !! i = Some b -> r_ends r !! i = Some e ->
       0 <= b <= e /\ e <= get_size (r_elems r) /\ e <= Int32.max_signed.

(** Row [i] of the dense output as the specification words it: the elements
    [elems[b .. b + min(e - b, target_dim)]], then [default_value] up to
    [target_dim]. *)
Definition dense_row {E} (r : ragged E) (default_value : E)
    (target_dim : nat) (b e : Z) : list E :=
  let len := Z.to_nat (Z.min (e - b) (Z.of_nat target_dim)) in
  take len (drop (Z.to_nat b) (r_elems r))
  ++ replicate (target_dim - len) default_value.

(** The mask of that row: [1] on the copied elements, [0] on the padding. *)
Definition mask_row (target_dim : nat) (b e : Z) : list Z :=
  let len := Z.to_nat (Z.min (e - b) (Z.of_nat target_dim)) in
  replicate len 1 ++ replicate (target_dim - len) 0.

(** Row [i] of the two outputs, by the offsets of row [i]. *)
Definition expected_row {E} (r : ragged E) (default_value : E)
    (target_dim : nat) (i : nat) : list E :=
  match r_begins r !! i, r_ends r !! i with
  | Some b, Some e => dense_row r default_value target_dim b e
  | _, _ => []
  end.

Definition expected_mask {E} (r : ragged E) (target_dim : nat) (i : nat)
    : list Z :=
  match r_begins r !! i, r_ends r !! i with
  | Some b, Some e => mask_row target_dim b e
  | _, _ => []
  end.

(** The offsets [(begins, ends)] cut a flat buffer of [len] elements into
    consecutive pieces without gaps: the first begin is [0], each begin is
    the end before it, and the last end is [len]. *)
Definition gap_free (begins ends : list Z) (len : Z) : Prop :=
  length begins = length ends
  /\ (forall b, begins !! 0%nat = Some b -> b = 0)
  /\ (forall i b e, begins !! S i = Some b -> ends !! i = Some e -> b = e)
  /\ (forall e, last ends = Some e -> e = len)
  /\ (ends = [] -> len = 0).

End Spec.

Module Utf8.
(** The two bytes of the UTF-8 encoding of a code point in
    [0x80, 0x800). *)
Definition two_bytes (cp : Z) : list Z := [192 + cp / 64; 128 + cp mod 64].

(** The GPT-2 byte-to-unicode assignment: the code point of the character
    that stands for byte [b]. *)
Definition gpt2_code_point (b : Z) : Z :=
  if bool_decide (33 <= b <= 126) then b
  else if bool_decide (161 <= b <= 172 \/ 174 <= b <= 255) then b
  else if bool_decide (b <= 32) then 256 + b
  else if bool_decide (127 <= b <= 160) then 256 + 33 + (b - 127)
  else 256 + 67.

(** UTF-8 of a code point below [0x800]. *)
Definition encode (cp : Z) : list Z :=
  if bool_decide (cp < 128) then [cp] else two_bytes cp.
End Utf8.

(** ** Invariants of the loops *)

Module Invariants.

(** Two offset arrays of one length that hold the same values below
    index [i]. *)
Definition agree_below (i : Z) (a b : list Z) : Prop :=
  length a = length b
  /\ forall k : nat, Z.of_nat k < i -> a !! k = b !! k.

(** [CombineSegments]: the offset arrays of the two outputs have [n]
    elements and agree below [i]. *)
Definition offsets_agree {E I} (n : nat) (i : Z)
    (s : @CombineSegments.state E I) : Prop :=
  let o := CombineSegments.out s in
  length (CombineSegments.out_elem_begins o) = n
  /\ length (CombineSegments.out_elem_ends o) = n
  /\ agree_below i (CombineSegments.out_elem_begins o)
                   (CombineSegments.out_id_begins o)
  /\ agree_below i (CombineSegments.out_elem_ends o)
                   (CombineSegments.out_id_ends o).

Section Chain.
Context {St : Type}.
(** The two offset arrays of a state and the position that a loop stores
    in them. *)
Variables (nb ne : St -> list Z) (pos : St -> Z).

(** After [i] iterations from position [p0]: the first begin is [p0],
    every later begin is the end before it, and the last end written is
    the current position. *)
Definition chained (p0 : Z) (i : Z) (s : St) : Prop :=
  (i = 0 /\ pos s = p0)
  \/ (0 < i
      /\ nb s !! 0%nat = Some p0
      /\ (forall k : nat, Z.of_nat (S k) < i ->
            exists v, nb s !! S k = Some v /\ ne s !! k = Some v)
      /\ ne s !! Z.to_nat (i - 1) = Some (pos s)).
End Chain.

(** [Tokens]: [offset] is an [int32_t] that either has wrapped around or
    counts the elements written so far. *)
Definition offset_ok (s : Tokens.state) : Prop :=
  Int32.in_range (Tokens.offset s)
  /\ (Tokens.offset s < 0
      \/ 0 <= Tokens.offset s <= get_size (Tokens.new_elems s)).

(** [BytesToChars]: the entry of byte [b] is the UTF-8 encoding of its
    GPT-2 code point. *)
Definition entry_ok (b : Z) : bool :=
  bool_decide
    (BytesToChars.m_bytes_to_chars !! b
     = Some (Utf8.encode (Utf8.gpt2_code_point b))).

End Invariants.

(** ** Inputs of the examples *)

Module Examples.

(** Output tensors that were zeroed when allocated. *)
Definition no_junk (output index : nat) : Z := 0.

(** The strings "ab" and "c", packed. *)
Definition packed_ab_c : list Z :=
  [2; 0; 0; 0;  0; 0; 0; 0;  2; 0; 0; 0;  3; 0; 0; 0;  97; 98; 99].

(** Four bytes that declare the batch size [2^30 - 2]. *)
Definition packed_huge_batch : list Z := [254; 255; 255; 63].

(** One string, offsets [0, 5], and no payload: the header is complete, so
    both checks of the reader pass, and the copy of [offsets[1] = 5] bytes
    reads past the end of the 12-byte buffer. *)
Definition packed_no_payload : list Z :=
  [1; 0; 0; 0;  0; 0; 0; 0;  5; 0; 0; 0].

(** An encoder that gives every byte as an id and fails on "ab". *)
Definition fails_on_ab (s : list Z) (nbest_size : Z) (alpha : unit)
    : SentencepieceTokenizer.Status * list Z :=
  if bool_decide (s = [97; 98])
  then (SentencepieceTokenizer.StatusError, [])
  else (SentencepieceTokenizer.StatusOk, s).

Definition encodes_bytes (s : list Z) (nbest_size : Z) (alpha : unit)
    : SentencepieceTokenizer.Status * list Z :=
  (SentencepieceTokenizer.StatusOk, s).

(** The strings "ab" and "c", decomposed. *)
Definition strings_ab_c : strings := Strings [0; 2] [2; 3] [97; 98; 99].

(** A normalizer that doubles its string. *)
Definition twice (s : list Z) : list Z := s ++ s.

(** One row of two strings, "A" and "B". *)
Definition row_A_B : ragged_strings :=
  RaggedStrings [0] [2] [0; 1] [1; 2] [65; 66].

(** Two rows: ["a", "b"] and an empty one. *)
Definition rows_ab_empty : ragged_strings :=
  RaggedStrings [0; 2] [2; 2] [0; 1] [1; 2] [97; 98].

(** A splitter that finds no delimiter: each string is one split. *)
Definition no_delimiter (pattern : list Z) (mode : RegexSplit.SplitMode)
    (invert : bool) (str : list Z) : list (Z * Z) := [(0, get_size str)].

(** A WordPiece stand-in: one token per word, its length. *)
Definition word_length (vocab : gmap (list Z) Z) (unk_token : list Z)
    (max_bytes_per_word : Z) (suffix_indicator : list Z) (flag : bool)
    (str : list Z) : list Z := [get_size str].

(** A BPE stand-in: one token per byte. *)
Definition bpe_bytes (vocab : gmap (list Z) Z)
    (merges : list (list Z * list Z)) (cache : Z)
    (unk_token suffix_indicator end_suffix : list (list Z)) (fuse_unk : bool)
    (str : list Z) : list Z := str.

(** The vocabulary ["a"] and the merges ["a b"]. *)
Definition vocab_a : strings := Strings [0] [1] [97].
Definition merges_a_b : strings := Strings [0] [3] [97; 32; 98].

(** Scenario 5 of the specification: rows [7, 8, 9] and [10, 11]. *)
Definition rows_789_1011 : ragged Z := Ragged [0; 3] [3; 5] [7; 8; 9; 10; 11].

(** Scenario 6 of the specification: the rows [101, 5] and [6, 102] of two
    ragged inputs, with segment ids [0, 1]. *)
Definition segments : list (CombineSegments.input Z) :=
  [CombineSegments.Input 1 (Ragged [0] [2] [101; 5]);
   CombineSegments.Input 1 (Ragged [0] [2] [6; 102])].

End Examples.

(** ** The canonical layout of a list of pieces *)

Module Layout.

(** The begin offsets of pieces laid out one after the other from
    [start]. *)
Fixpoint begins_from {A} (start : Z) (pieces : list (list A)) : list Z :=
  match pieces with
  | [] => []
  | p :: ps => start :: begins_from (start + get_size p) ps
  end.

Fixpoint ends_from {A} (start : Z) (pieces : list (list A)) : list Z :=
  match pieces with
  | [] => []
  | p :: ps => (start + get_size p) :: ends_from (start + get_size p) ps
  end.

(** The decomposed tensor that holds [pieces] without gaps. *)
Definition layout {A} (pieces : list (list A)) : ragged A :=
  Ragged (begins_from 0 pieces) (ends_from 0 pieces) (concat pieces).

(** [f] on every element, until one fails. *)
Fixpoint collect {A B} (f : A -> result B) (l : list A) : result (list B) :=
  match l with
  | [] => Ok []
  | x :: l' => y ← f x; ys ← collect f l'; Ok (y :: ys)
  end.

(** Element [i] of a decomposed tensor, as every operator reads it:
    [std::string(chars + begins[i], chars + ends[i])]. *)
Definition piece {A} (begins ends : list Z) (elems : list A) (i : Z)
    : result (list A) :=
  b ← read begins i;
  e ← read ends i;
  read_range elems b (e - b).

(** All the elements of a decomposed tensor. *)
Definition pieces {A} (r : ragged A) : result (list (list A)) :=
  collect (piece (r_begins r) (r_ends r) (r_elems r))
          (seqZ 0 (get_size (r_begins r))).

(** A decomposed string tensor seen as a ragged tensor of bytes. *)
Definition of_strings (s : strings) : ragged Z :=
  Ragged (begins s) (ends s) (chars s).

(** The words of row [j] of a ragged string tensor, as the loops
    [for (size_t i = ragged_begins[j]; i < ragged_ends[j]; ++i)] read
    them. *)
Definition row (r : ragged_strings) (j : Z) : result (list (list Z)) :=
  rb ← read (ragged_begins r) j;
  re ← read (ragged_ends r) j;
  collect (piece (rs_begins r) (rs_ends r) (rs_chars r))
          (seqZ (size_t_of_int rb) (size_t_of_int re - size_t_of_int rb)).

(** All the rows, for the [get_size (ragged_begins r)] rows the operators
    loop over. *)
Definition rows (r : ragged_strings) : result (list (list (list Z))) :=
  collect (row r) (seqZ 0 (get_size (ragged_begins r))).

End Layout.

(** ** Invariants of the loops that lay pieces out *)

Module LoopInvariants.

Section LaidOut.
Context {St X A : Type}.
Variables (inv : St -> Prop) (nb ne : St -> list Z) (buf : St -> list A).
Variables (src : Z -> result X) (h : X -> list A).

(** After [i] iterations over arrays of [n] offsets: the buffer holds
    the pieces [h x] of what [src] gave, and the offsets below [i] are
    the [int32_t] sizes of the buffer before and after each piece. *)
Definition laid_out (n : nat) (i : Z) (s : St) : Prop :=
  0 <= i /\ inv s /\ length (nb s) = n /\ length (ne s) = n
  /\ exists xs,
       Forall2 (fun k x => src k = Ok x) (seqZ 0 i) xs
       /\ buf s = concat (h <$> xs)
       /\ forall k : nat, Z.of_nat k < i ->
            nb s !! k
            = Some (Int32.wrap (get_size (concat (take k (h <$> xs)))))
            /\ ne s !! k
               = Some (Int32.wrap
                         (get_size (concat (take (S k) (h <$> xs))))).
End LaidOut.

End LoopInvariants.

(** ** [unpack_strings] *)

Module UnpackStrings.

Record state := State {
  pbegins : list Z;
  pends : list Z;
  output_symbols : list Z;
  offset : Z               (* size_t *)
}.

Definition unpack_one (input_strings : list (list Z)) (i : Z) (s : state)
    : result state :=
  nb ← write (pbegins s) i (Int32.wrap (offset s));
  str ← read input_strings i;
  let offset' := offset s + get_size str in
  ne ← write (pends s) i (Int32.wrap offset');
  Ok (State nb ne (output_symbols s ++ str) offset').

(** [unpack_strings(strings, shape, begins, ends, chars)] for an array of
    [shape_size(shape)] strings; [chars] is shaped to the total length and
    filled by the copies. *)
Definition unpack_strings (junk : nat -> nat -> Z)
    (input_strings : list (list Z)) : result strings :=
  let nelements := get_size input_strings in
  s ← for_range 0 nelements (unpack_one input_strings)
        (State (uninitialized (junk 0%nat) (length input_strings))
               (uninitialized (junk 1%nat) (length input_strings))
               [] 0);
  Ok (Strings (pbegins s) (pends s) (output_symbols s)).

End UnpackStrings.

(** ** [string_attribute_to_constant] *)

Module Translate.

(** The [u8] constant [string_attribute_to_constant] makes of an attribute
    value: the value padded with a space. *)
Definition string_attribute_to_constant (value : list Z) : list Z :=
  value ++ [32].

End Translate.

(** ** Reading the inputs of [CombineSegments] *)

Module Segments.
Import CombineSegments.

Section Read.
Context {E I : Type}.

(** The segment that input [j] gives to row [i], with the id of the
    input: the one row of an input that is broadcast, row [i]
    otherwise. *)
Definition segment (inputs : list (input E)) (ids : list I) (i j : Z)
    : result (list E * I) :=
  x ← read inputs j;
  let k := if bool_decide (nelems x = 1) then 0 else i in
  b ← read (r_begins (tensors x)) k;
  e ← read (r_ends (tensors x)) k;
  seg ← read_range (r_elems (tensors x)) b (size_t_of_int (Int32.sub e b));
  id ← read ids j;
  Ok (seg, id).

(** The segments of row [i], one for each input. *)
Definition row (inputs : list (input E)) (ids : list I) (i : Z)
    : result (list (list E * I)) :=
  Layout.collect (segment inputs ids i) (seqZ 0 (get_size inputs)).

(** The first [n] rows. *)
Definition rows (inputs : list (input E)) (ids : list I) (n : Z)
    : result (list (list (list E * I))) :=
  Layout.collect (row inputs ids) (seqZ 0 n).

(** The elements of a row and the ids of its elements. *)
Definition row_elems (r : list (list E * I)) : list E :=
  flat_map fst r.
Definition row_ids (r : list (list E * I)) : list I :=
  flat_map (fun x => replicate (length x.1) x.2) r.
End Read.
End Segments.

(** ** Reading the strings [RegexSplit] splits *)

Module Splits.

(** The splits of string [word], as [RegexSplit] stores them: the offsets
    the pretokenizer gives, moved by the begin of the string. *)
Definition splits (pretokenizer : list Z -> list (Z * Z))
    (begins ends chars : list Z) (word : Z) : result (list (Z * Z)) :=
  b ← read begins word;
  e ← read ends word;
  str ← read_range chars b (e - b);
  Ok ((fun offset : Z * Z =>
         (Int32.wrap (b + offset.1), Int32.wrap (b + offset.2)))
        <$> pretokenizer str).

End Splits.

(** ** Reading the bytes [BytesToChars] remaps *)

Module Remapped.
Import BytesToChars.

(** The entry of byte [k] of the word that begins at [b]. *)
Definition byte (chars : list Z) (b k : Z) : result (list Z) :=
  c ← read chars ((size_t_of_int b + k) mod 2 ^ 64);
  at_ m_bytes_to_chars c.

(** The entries of the bytes of word [i]. *)
Definition word (r : ragged_strings) (i : Z) : result (list (list Z)) :=
  e ← read (rs_ends r) i;
  b ← read (rs_begins r) i;
  Layout.collect (byte (rs_chars r) b)
    (seqZ 0 (size_t_of_int (Int32.sub e b))).

(** The words of row [j]. *)
Definition row (r : ragged_strings) (j : Z)
    : result (list (list (list Z))) :=
  rb ← read (ragged_begins r) j;
  re ← read (ragged_ends r) j;
  Layout.collect (word r)
    (seqZ (size_t_of_int rb) (size_t_of_int re - size_t_of_int rb)).

Definition rows (r : ragged_strings)
    : result (list (list (list (list Z)))) :=
  Layout.collect (row r) (seqZ 0 (get_size (ragged_begins r))).

(** The chars of a row: the entries of the bytes of its words, one after
    the other. *)
Definition row_chars (row : list (list (list Z))) : list Z :=
  flat_map (fun w => concat w) row.
End Remapped.

(** * Properties *)

(** ** Machine integers and the result monad *)

Section Base.

Lemma wrap_in_range z : Int32.in_range z -> Int32.wrap z = z.
Proof.
  unfold Int32.in_range, Int32.min_signed, Int32.max_signed, Int32.wrap.
  intros H. rewrite Z.mod_small; lia.
Qed.

Lemma wrap_range z : Int32.in_range (Int32.wrap z).
Proof.
  unfold Int32.in_range, Int32.min_signed, Int32.max_signed, Int32.wrap.
  pose proof (Z.mod_pos_bound (z + 2 ^ 31) (2 ^ 32)). lia.
Qed.

Lemma wrap_mod z : Int32.wrap z mod 2 ^ 32 = z mod 2 ^ 32.
Proof.
  unfold Int32.wrap. rewrite (Z.mod_eq (z + 2 ^ 31)) by lia.
  replace (z + 2 ^ 31 - 2 ^ 32 * ((z + 2 ^ 31) / 2 ^ 32) - 2 ^ 31)
    with (z + (- ((z + 2 ^ 31) / 2 ^ 32)) * 2 ^ 32) by lia.
  apply Z_mod_plus_full.
Qed.

Lemma size_t_of_int_nonneg z : 0 <= z < 2 ^ 64 -> size_t_of_int z = z.
Proof. intros H. unfold size_t_of_int. apply Z.mod_small. lia. Qed.

Lemma bind_Ok {A B} (m : result A) (f : A -> result B) (b : B) :
  (m ≫= f) = Ok b -> exists a, m = Ok a /\ f a = Ok b.
Proof. destruct m as [a|e]; simpl; [eauto | discriminate]. Qed.

Lemma check_Ok b e : check b e = Ok tt <-> b = true.
Proof. unfold check. destruct b; split; congruence. Qed.

Lemma check_Ok_inv b e u : check b e = Ok u -> b = true.
Proof. unfold check. destruct b; congruence. Qed.

Lemma get_size_nonneg {A} (t : list A) : 0 <= get_size t.
Proof. unfold get_size. lia. Qed.

Lemma get_size_app {A} (t u : list A) : get_size (t ++ u) = get_size t + get_size u.
Proof. unfold get_size. rewrite length_app. lia. Qed.

Lemma read_Ok {A} (t : list A) i x :
  read t i = Ok x <-> 0 <= i /\ t !! Z.to_nat i = Some x.
Proof.
  unfold read. case_bool_decide.
  - destruct (t !! Z.to_nat i); split; intros; destruct_and?; simplify_eq; auto.
  - split; [discriminate | lia].
Qed.

Lemma read_lookup {A} (t : list A) (i : nat) x :
  t !! i = Some x -> read t (Z.of_nat i) = Ok x.
Proof. intros H. apply read_Ok. rewrite Nat2Z.id. split; [lia | done]. Qed.

Lemma read_range_Ok {A} (t : list A) off n :
  0 <= off -> 0 <= n -> off + n <= get_size t ->
  read_range t off n = Ok (take (Z.to_nat n) (drop (Z.to_nat off) t)).
Proof.
  intros Hoff Hn Hle. unfold read_range.
  case_bool_decide as H0; [subst n; done |].
  rewrite bool_decide_eq_true_2; done.
Qed.

Lemma read_range_all {A} (t : list A) : read_range t 0 (get_size t) = Ok t.
Proof.
  rewrite read_range_Ok; unfold get_size; try lia.
  simpl. rewrite Nat2Z.id, firstn_all. done.
Qed.

Lemma write_Ok {A} (t t' : list A) i v :
  write t i v = Ok t' ->
  0 <= i < get_size t /\ t' = <[Z.to_nat i := v]> t.
Proof. unfold write. case_bool_decide; intros; simplify_eq; auto. Qed.

Lemma write_in_range {A} (t : list A) i v :
  0 <= i < get_size t -> write t i v = Ok (<[Z.to_nat i := v]> t).
Proof. intros H. unfold write. rewrite bool_decide_eq_true_2; done. Qed.

Lemma length_uninitialized {A} (junk : nat -> A) n :
  length (uninitialized junk n) = n.
Proof. unfold uninitialized. rewrite length_map, length_seq. done. Qed.

Lemma lookup_uninitialized {A} (junk : nat -> A) n i :
  (i < n)%nat -> uninitialized junk n !! i = Some (junk i).
Proof.
  intros H. unfold uninitialized. rewrite list_lookup_fmap.
  rewrite lookup_seq_lt; done.
Qed.

(** A loop that preserves an invariant in every iteration it completes
    establishes it for the indices it ran over. *)
Lemma for_from_invariant {St} (P : Z -> St -> Prop) body n i (s s' : St) :
  (forall k t t', i <= k < i + Z.of_nat n ->
      P k t -> body k t = Ok t' -> P (k + 1) t') ->
  P i s -> for_from n i body s = Ok s' -> P (i + Z.of_nat n) s'.
Proof.
  revert i s. induction n as [|n IH]; intros i s Hstep Hi Hrun; simpl in Hrun.
  - simplify_eq. by rewrite Z.add_0_r.
  - apply bind_Ok in Hrun as (t & Hbody & Hrest).
    replace (i + Z.of_nat (S n)) with ((i + 1) + Z.of_nat n) by lia.
    eapply IH; [| | exact Hrest].
    + intros k u u' Hk. apply Hstep. lia.
    + eapply Hstep; [| exact Hi | exact Hbody]. lia.
Qed.

Lemma for_range_invariant {St} (P : Z -> St -> Prop) body lo hi (s s' : St) :
  lo <= hi ->
  (forall k t t', lo <= k < hi -> P k t -> body k t = Ok t' -> P (k + 1) t') ->
  P lo s -> for_range lo hi body s = Ok s' -> P hi s'.
Proof.
  intros Hle Hstep Hlo Hrun. unfold for_range in Hrun.
  replace hi with (lo + Z.of_nat (Z.to_nat (hi - lo))) by lia.
  eapply for_from_invariant; [| exact Hlo | exact Hrun].
  intros k t t' Hk. apply Hstep. lia.
Qed.

(** The same for a property that does not depend on the index. *)
Lemma for_from_preserves {St} (P : St -> Prop) body n i (s s' : St) :
  (forall k t t', P t -> body k t = Ok t' -> P t') ->
  P s -> for_from n i body s = Ok s' -> P s'.
Proof.
  intros Hstep Hs Hrun.
  apply (for_from_invariant (fun _ => P) body n i s s'); auto.
  intros k t t' _. apply Hstep.
Qed.

Lemma for_range_preserves {St} (P : St -> Prop) body lo hi (s s' : St) :
  (forall k t t', P t -> body k t = Ok t' -> P t') ->
  P s -> for_range lo hi body s = Ok s' -> P s'.
Proof. unfold for_range. apply for_from_preserves. Qed.

Lemma for_each_preserves {A St} (P : St -> Prop) (body : A -> St -> result St) l
    (s s' : St) :
  (forall x t t', P t -> body x t = Ok t' -> P t') ->
  P s -> for_each l body s = Ok s' -> P s'.
Proof.
  intros Hstep. revert s. induction l as [|x l IH]; intros s Hs Hrun;
    simpl in Hrun.
  - by simplify_eq.
  - apply bind_Ok in Hrun as (t & Hbody & Hrest). eauto.
Qed.

(** A loop whose iterations all complete, on states that satisfy [P],
    completes. *)
Lemma for_from_completes {St} (P : St -> Prop) body n i (s : St) :
  (forall k t, i <= k < i + Z.of_nat n -> P t ->
      exists t', body k t = Ok t' /\ P t') ->
  P s -> exists s', for_from n i body s = Ok s' /\ P s'.
Proof.
  revert i s. induction n as [|n IH]; intros i s Hstep Hs; simpl.
  - eauto.
  - destruct (Hstep i s) as (t & -> & Ht); [lia | done |].
    cbn [mbind result_bind]. apply IH; [| done].
    intros k u Hk. apply Hstep. lia.
Qed.

Lemma for_range_empty {St} lo hi body (s : St) :
  hi <= lo -> for_range lo hi body s = Ok s.
Proof.
  intros H. unfold for_range. replace (Z.to_nat (hi - lo)) with O by lia. done.
Qed.

End Base.

(** ** Little-endian integers *)

Section Codec.

Lemma le32_bounds b0 b1 b2 b3 :
  is_u8 b0 -> is_u8 b1 -> is_u8 b2 -> is_u8 b3 ->
  0 <= b0 + 2 ^ 8 * b1 + 2 ^ 16 * b2 + 2 ^ 24 * b3 < 2 ^ 32.
Proof. unfold is_u8. lia. Qed.

Lemma wrap_cases z :
  0 <= z < 2 ^ 32 -> Int32.wrap z = z \/ Int32.wrap z = z - 2 ^ 32.
Proof.
  intros H. unfold Int32.wrap.
  destruct (Z_lt_le_dec z (2 ^ 31)).
  - left. rewrite Z.mod_small; lia.
  - right. replace (z + 2 ^ 31) with ((z - 2 ^ 31) + 1 * 2 ^ 32) by lia.
    rewrite Z_mod_plus_full, Z.mod_small; lia.
Qed.

Lemma encode_i32_congr z k : encode_i32 (z + k * 2 ^ 32) = encode_i32 z.
Proof.
  unfold encode_i32.
  assert (H8 : (z + k * 2 ^ 32) mod 2 ^ 8 = z mod 2 ^ 8).
  { replace (z + k * 2 ^ 32) with (z + (k * 2 ^ 24) * 2 ^ 8) by lia.
    apply Z_mod_plus_full. }
  assert (D8 : (z + k * 2 ^ 32) / 2 ^ 8 = z / 2 ^ 8 + k * 2 ^ 24).
  { replace (z + k * 2 ^ 32) with (z + (k * 2 ^ 24) * 2 ^ 8) by lia.
    apply Z_div_plus_full. lia. }
  assert (D16 : (z + k * 2 ^ 32) / 2 ^ 16 = z / 2 ^ 16 + k * 2 ^ 16).
  { replace (z + k * 2 ^ 32) with (z + (k * 2 ^ 16) * 2 ^ 16) by lia.
    apply Z_div_plus_full. lia. }
  assert (D24 : (z + k * 2 ^ 32) / 2 ^ 24 = z / 2 ^ 24 + k * 2 ^ 8).
  { replace (z + k * 2 ^ 32) with (z + (k * 2 ^ 8) * 2 ^ 24) by lia.
    apply Z_div_plus_full. lia. }
  rewrite H8, D8, D16, D24.
  replace (z / 2 ^ 8 + k * 2 ^ 24) with (z / 2 ^ 8 + (k * 2 ^ 16) * 2 ^ 8) by lia.
  replace (z / 2 ^ 16 + k * 2 ^ 16) with (z / 2 ^ 16 + (k * 2 ^ 8) * 2 ^ 8) by lia.
  rewrite !Z_mod_plus_full. done.
Qed.

Lemma low_digit k a b : 0 <= a < 2 ^ k -> (a + 2 ^ k * b) mod 2 ^ k = a.
Proof.
  intros H. rewrite (Z.mul_comm (2 ^ k) b), Z_mod_plus_full.
  apply Z.mod_small. lia.
Qed.

Lemma high_digits k a b : 0 <= a < 2 ^ k -> (a + 2 ^ k * b) / 2 ^ k = b.
Proof.
  intros H. rewrite (Z.mul_comm (2 ^ k) b), Z_div_plus_full by lia.
  rewrite Z.div_small; lia.
Qed.

Lemma encode_le32 b0 b1 b2 b3 :
  is_u8 b0 -> is_u8 b1 -> is_u8 b2 -> is_u8 b3 ->
  encode_i32 (b0 + 2 ^ 8 * b1 + 2 ^ 16 * b2 + 2 ^ 24 * b3) = [b0; b1; b2; b3].
Proof.
  unfold is_u8, encode_i32. intros H0 H1 H2 H3.
  repeat f_equal.
  - replace (b0 + 2 ^ 8 * b1 + 2 ^ 16 * b2 + 2 ^ 24 * b3)
      with (b0 + 2 ^ 8 * (b1 + 2 ^ 8 * b2 + 2 ^ 16 * b3)) by lia.
    apply low_digit. lia.
  - replace (b0 + 2 ^ 8 * b1 + 2 ^ 16 * b2 + 2 ^ 24 * b3)
      with (b0 + 2 ^ 8 * (b1 + 2 ^ 8 * (b2 + 2 ^ 8 * b3))) by lia.
    rewrite high_digits by lia. apply low_digit. lia.
  - replace (b0 + 2 ^ 8 * b1 + 2 ^ 16 * b2 + 2 ^ 24 * b3)
      with ((b0 + 2 ^ 8 * b1) + 2 ^ 16 * (b2 + 2 ^ 8 * b3)) by lia.
    rewrite high_digits by lia. apply low_digit. lia.
  - replace (b0 + 2 ^ 8 * b1 + 2 ^ 16 * b2 + 2 ^ 24 * b3)
      with ((b0 + 2 ^ 8 * b1 + 2 ^ 16 * b2) + 2 ^ 24 * b3) by lia.
    rewrite high_digits by lia. apply Z.mod_small. lia.
Qed.

Lemma encode_decode_i32 bs :
  Forall is_u8 bs -> length bs = 4%nat -> encode_i32 (decode_i32 bs) = bs.
Proof.
  intros Hb Hlen.
  destruct bs as [|b0 [|b1 [|b2 [|b3 [|? ?]]]]]; simplify_eq/=.
  apply Forall_cons in Hb as [H0 Hb]. apply Forall_cons in Hb as [H1 Hb].
  apply Forall_cons in Hb as [H2 Hb]. apply Forall_cons in Hb as [H3 _].
  destruct (wrap_cases _ (le32_bounds _ _ _ _ H0 H1 H2 H3)) as [-> | ->].
  - by apply encode_le32.
  - replace (b0 + 2 ^ 8 * b1 + 2 ^ 16 * b2 + 2 ^ 24 * b3 - 2 ^ 32)
      with (b0 + 2 ^ 8 * b1 + 2 ^ 16 * b2 + 2 ^ 24 * b3 + (-1) * 2 ^ 32) by lia.
    rewrite encode_i32_congr. by apply encode_le32.
Qed.

Lemma length_encode_i32 z : length (encode_i32 z) = 4%nat.
Proof. done. Qed.

Lemma length_decode_i32s n bs : length (decode_i32s n bs) = n.
Proof. revert bs. induction n; intros; simpl; auto. Qed.

Lemma encode_decode_i32s n bs :
  Forall is_u8 bs -> length bs = (4 * n)%nat ->
  flat_map encode_i32 (decode_i32s n bs) = bs.
Proof.
  revert bs. induction n as [|n IH]; intros bs Hb Hlen.
  - destruct bs; [done | simpl in Hlen; lia].
  - cbn [decode_i32s flat_map].
    rewrite encode_decode_i32, IH.
    + apply take_drop.
    + by apply Forall_drop.
    + rewrite length_drop. lia.
    + by apply Forall_take.
    + rewrite length_take. lia.
Qed.

Lemma decode_i32_range bs : Int32.in_range (decode_i32 bs).
Proof.
  destruct bs as [|b0 [|b1 [|b2 [|b3 [|? ?]]]]]; simpl;
    try apply wrap_range; unfold Int32.in_range, Int32.min_signed,
    Int32.max_signed; lia.
Qed.

Lemma load_i32_Ok t off :
  0 <= off -> off + 4 <= get_size t ->
  load_i32 t off = Ok (decode_i32 (take 4 (drop (Z.to_nat off) t))).
Proof.
  intros H1 H2. unfold load_i32. rewrite read_range_Ok by lia. done.
Qed.

Lemma load_i32_inv t off z :
  load_i32 t off = Ok z ->
  0 <= off /\ off + 4 <= get_size t
  /\ z = decode_i32 (take 4 (drop (Z.to_nat off) t)).
Proof.
  unfold load_i32, read_range. intros H.
  case_bool_decide; [lia |].
  case_bool_decide; simplify_eq/=. split_and!; try lia. done.
Qed.

Lemma load_i32s_Ok t off n :
  0 <= off -> 0 <= n -> off + 4 * n <= get_size t ->
  load_i32s t off n
  = Ok (decode_i32s (Z.to_nat n)
          (take (Z.to_nat (4 * n)) (drop (Z.to_nat off) t))).
Proof.
  intros H1 H2 H3. unfold load_i32s. rewrite read_range_Ok by lia. done.
Qed.

End Codec.

(** ** Packed string tensors *)

Section PackedProofs.
Import Packed Spec.

Lemma parse_packed_strings_Ok packed N :
  load_i32 packed 0 = Ok N -> 0 <= N ->
  4 + 4 * (N + 1) <= get_size packed -> 4 + 4 * (N + 1) <= Int32.max_signed ->
  parse_packed_strings packed = Ok (Header N 4 8 (8 + 4 * N)).
Proof.
  intros HN H0 Hlen Hmax. unfold parse_packed_strings.
  unfold Int32.max_signed in Hmax.
  rewrite HN. cbn [mbind result_bind].
  unfold Int32.add, Int32.mul.
  rewrite (wrap_in_range (4 * N)), (wrap_in_range (4 + 4 + 4 * N))
    by (unfold Int32.in_range, Int32.min_signed, Int32.max_signed; lia).
  rewrite size_t_of_int_nonneg by lia.
  rewrite !bool_decide_eq_true_2 by lia. simpl. done.
Qed.

(** What the reader returns on a buffer that passes both bounds. *)
Lemma unpack_in_bounds packed N last :
  load_i32 packed 0 = Ok N -> 0 <= N ->
  4 + 4 * (N + 1) <= Int32.max_signed ->
  load_i32 packed (4 + 4 * N) = Ok last ->
  0 <= last <= get_size packed - 4 * (N + 2) ->
  StringTensorUnpack_evaluate packed
  = Ok (Strings
          (decode_i32s (Z.to_nat N)
             (take (Z.to_nat (4 * N)) (drop 4%nat packed)))
          (decode_i32s (Z.to_nat N)
             (take (Z.to_nat (4 * N)) (drop 8%nat packed)))
          (take (Z.to_nat last) (drop (Z.to_nat (8 + 4 * N)) packed))).
Proof.
  intros HN H0 Hmax Hlast Hb. unfold StringTensorUnpack_evaluate.
  rewrite (parse_packed_strings_Ok packed N) by (auto; lia).
  cbn [mbind result_bind batch_size begin_ids end_ids symbols].
  unfold Int32.sub, Int32.max_signed in *.
  rewrite (wrap_in_range (N - 1))
    by (unfold Int32.in_range, Int32.min_signed, Int32.max_signed; lia).
  match goal with
  | |- context [load_i32 packed ?off] =>
      replace off with (4 + 4 * N) by lia
  end.
  rewrite Hlast. cbn [mbind result_bind].
  rewrite bool_decide_eq_true_2 by lia. cbn [check mbind result_bind].
  rewrite !load_i32s_Ok by lia. cbn [mbind result_bind].
  rewrite read_range_Ok by lia. done.
Qed.

(** C2: packing what the reader unpacked from a canonical packed buffer
    gives the buffer back, byte for byte. The buffer is one whose size an
    [int] holds, as the reader computes the header size in [int]. *)
Theorem pack_unpack_identity packed :
  canonical_packed packed ->
  get_size packed <= Int32.max_signed ->
  (StringTensorUnpack_evaluate packed ≫= StringTensorPack_evaluate)
  = Ok packed.
Proof.
  intros (Hbytes & N & last & HN & H0 & Hfirst & Hlast & Hsize) Hmax.
  pose proof (load_i32_inv _ _ _ Hlast) as (_ & Hhdr & _).
  rewrite (unpack_in_bounds packed N last) by (auto; lia).
  cbn [mbind result_bind]. unfold StringTensorPack_evaluate.
  cbn [begins ends chars].
  set (es := decode_i32s (Z.to_nat N) (take (Z.to_nat (4 * N)) (drop 8%nat packed))).
  set (cs := take (Z.to_nat last) (drop (Z.to_nat (8 + 4 * N)) packed)).
  assert (Hbl : get_size (decode_i32s (Z.to_nat N)
                  (take (Z.to_nat (4 * N)) (drop 4%nat packed))) = N).
  { unfold get_size. rewrite length_decode_i32s. lia. }
  assert (Hel : get_size es = N).
  { unfold get_size, es. rewrite length_decode_i32s. lia. }
  rewrite Hbl. rewrite <- Hel at 1. rewrite !read_range_all.
  cbn [mbind result_bind]. f_equal.
  assert (Hlast0 : 0 <= last) by lia.
  assert (Hlen : length packed = Z.to_nat (4 + 4 * (N + 1) + last))
    by (unfold get_size in Hsize; lia).
  assert (E0 : encode_i32 (Int32.wrap N) = take 4 packed).
  { apply load_i32_inv in HN as (_ & _ & HN).
    rewrite wrap_in_range
      by (unfold Int32.in_range, Int32.min_signed, Int32.max_signed in *; lia).
    rewrite HN. change (Z.to_nat 0) with 0%nat. rewrite drop_0.
    apply encode_decode_i32; [by apply Forall_take |].
    rewrite length_take. lia. }
  assert (E1 : encode_i32 0 = take 4 (drop 4 packed)).
  { apply load_i32_inv in Hfirst as (_ & _ & Hfirst).
    change (Z.to_nat 4) with 4%nat in Hfirst.
    transitivity (encode_i32 (decode_i32 (take 4 (drop 4 packed))));
      [by f_equal |].
    apply encode_decode_i32; [by apply Forall_take, Forall_drop |].
    rewrite length_take, length_drop. lia. }
  assert (E2 : flat_map encode_i32 es
               = take (Z.to_nat (4 * N)) (drop 8 packed)).
  { unfold es. apply encode_decode_i32s; [by apply Forall_take, Forall_drop |].
    rewrite length_take, length_drop. lia. }
  assert (E3 : cs = drop (Z.to_nat (8 + 4 * N)) packed).
  { unfold cs. apply take_ge. rewrite length_drop. lia. }
  rewrite E0, E1, E2, E3.
  replace (Z.to_nat (8 + 4 * N)) with (4 + 4 + Z.to_nat (4 * N))%nat by lia.
  change 8%nat with (4 + 4)%nat.
  rewrite <- !drop_drop. rewrite !take_drop. done.
Qed.

End PackedProofs.

Section ReaderChecks.
Import Packed Spec.

Lemma unpack_too_short packed :
  get_size packed < 4 ->
  StringTensorUnpack_evaluate packed = Err MalformedPackedBuffer.
Proof.
  intros H. unfold StringTensorUnpack_evaluate, parse_packed_strings.
  rewrite bool_decide_eq_false_2 by lia. done.
Qed.

Lemma unpack_header_truncated packed N :
  load_i32 packed 0 = Ok N -> 0 <= N ->
  4 + 4 * (N + 1) <= Int32.max_signed ->
  get_size packed < 4 + 4 * (N + 1) ->
  StringTensorUnpack_evaluate packed = Err MalformedPackedBuffer.
Proof.
  intros HN H0 Hmax Hlen.
  unfold StringTensorUnpack_evaluate, parse_packed_strings.
  pose proof (load_i32_inv _ _ _ HN) as (_ & H4 & _).
  rewrite bool_decide_eq_true_2 by lia. cbn [check mbind result_bind].
  rewrite HN. cbn [mbind result_bind].
  unfold Int32.add, Int32.mul, Int32.max_signed in *.
  rewrite (wrap_in_range (4 * N)), (wrap_in_range (4 + 4 + 4 * N))
    by (unfold Int32.in_range, Int32.min_signed, Int32.max_signed; lia).
  rewrite size_t_of_int_nonneg by lia.
  rewrite bool_decide_eq_false_2 by lia. done.
Qed.

Lemma read_range_Err {A} (t : list A) off n e :
  read_range t off n = Err e -> e = OutOfBounds.
Proof.
  unfold read_range. intros H. repeat case_bool_decide; congruence.
Qed.

(** The errors of the reader after its two checks are not
    [MalformedPackedBuffer]. *)
Lemma unpack_malformed_inv packed :
  StringTensorUnpack_evaluate packed = Err MalformedPackedBuffer ->
  get_size packed < 4
  \/ exists N,
       load_i32 packed 0 = Ok N
       /\ get_size packed
          < size_t_of_int (Int32.add (4 + 4) (Int32.mul 4 N)).
Proof.
  unfold StringTensorUnpack_evaluate, parse_packed_strings. intros H.
  destruct (decide (get_size packed < 4)) as [Hlt | Hge]; [by left |].
  right. rewrite bool_decide_eq_true_2 in H by lia.
  cbn [check mbind result_bind] in H.
  rewrite (load_i32_Ok packed 0) in H by lia.
  cbn [mbind result_bind] in H.
  set (N := decode_i32 (take 4 (drop (Z.to_nat 0) packed))) in *.
  exists N. split; [by apply load_i32_Ok; lia |].
  destruct (decide (get_size packed
                    < size_t_of_int (Int32.add (4 + 4) (Int32.mul 4 N))))
    as [Hlt | Hge']; [done | exfalso].
  rewrite bool_decide_eq_true_2 in H by lia.
  cbn [check mbind result_bind batch_size begin_ids end_ids symbols] in H.
  destruct (load_i32 packed (4 + 4 + 4 * Int32.sub N 1))
    as [num_chars | e] eqn:Hnum.
  2: { unfold load_i32 in Hnum.
       destruct (read_range packed (4 + 4 + 4 * Int32.sub N 1) 4)
         as [bs | e'] eqn:Hr; [done |].
       apply read_range_Err in Hr. cbn in Hnum, H. congruence. }
  cbn [mbind result_bind] in H.
  destruct (bool_decide (0 <= N /\ 0 <= num_chars)); [| done].
  cbn [check mbind result_bind] in H.
  unfold load_i32s in H.
  destruct (read_range packed 4 (4 * N)) as [bs | e] eqn:Hb.
  2: { apply read_range_Err in Hb. cbn in H. congruence. }
  cbn [mbind result_bind] in H.
  destruct (read_range packed (4 + 4) (4 * N)) as [es | e] eqn:He.
  2: { apply read_range_Err in He. cbn in H. congruence. }
  cbn [mbind result_bind] in H.
  destruct (read_range packed (4 + 4 + Int32.mul 4 N) num_chars)
    as [cs | e] eqn:Hc.
  - done.
  - apply read_range_Err in Hc. cbn in H. congruence.
Qed.

(** A last offset beyond the payload passes both checks, and the copy of
    the chars reads past the end of the buffer. *)
Lemma unpack_past_payload packed N last :
  load_i32 packed 0 = Ok N -> 0 <= N ->
  4 + 4 * (N + 1) <= Int32.max_signed ->
  load_i32 packed (4 + 4 * N) = Ok last ->
  4 + 4 * (N + 1) <= get_size packed ->
  get_size packed - 4 * (N + 2) < last ->
  StringTensorUnpack_evaluate packed = Err OutOfBounds.
Proof.
  intros HN H0 Hmax Hlast Hhdr Hb. unfold StringTensorUnpack_evaluate.
  rewrite (parse_packed_strings_Ok packed N) by (auto; lia).
  cbn [mbind result_bind batch_size begin_ids end_ids symbols].
  unfold Int32.sub, Int32.max_signed in *.
  rewrite (wrap_in_range (N - 1))
    by (unfold Int32.in_range, Int32.min_signed, Int32.max_signed; lia).
  match goal with
  | |- context [load_i32 packed ?off] =>
      replace off with (4 + 4 * N) by lia
  end.
  rewrite Hlast. cbn [mbind result_bind].
  rewrite bool_decide_eq_true_2 by lia. cbn [check mbind result_bind].
  rewrite !load_i32s_Ok by lia. cbn [mbind result_bind].
  unfold read_range.
  rewrite bool_decide_eq_false_2 by lia.
  rewrite bool_decide_eq_false_2 by lia. done.
Qed.

(** C3, as the code has it: the reader fails with [MalformedPackedBuffer]
    when the buffer is shorter than [4] bytes or than [4 + 4 * (N + 1)]
    bytes, for a batch size [N] whose header size an [int] holds; these are
    its only checks: it fails with [MalformedPackedBuffer] on no other
    buffer. On a buffer that passes them and whose last offset satisfies
    [0 <= offsets[N] <= total_bytes - 4 * (N + 2)], every read is inside
    the buffer and the reader returns the decomposed triple. The last
    offset is not compared with the size of the payload: a buffer that
    passes the two checks and whose last offset is larger than
    [total_bytes - 4 * (N + 2)] is not rejected, and the copy of the chars
    leaves the buffer. *)
Theorem reader_checks packed :
  (get_size packed < 4 ->
   StringTensorUnpack_evaluate packed = Err MalformedPackedBuffer)
  /\ (forall N,
        load_i32 packed 0 = Ok N -> 0 <= N ->
        4 + 4 * (N + 1) <= Int32.max_signed ->
        (get_size packed < 4 + 4 * (N + 1) ->
         StringTensorUnpack_evaluate packed = Err MalformedPackedBuffer)
        /\ (forall last,
              load_i32 packed (4 + 4 * N) = Ok last ->
              0 <= last <= get_size packed - 4 * (N + 2) ->
              StringTensorUnpack_evaluate packed
              = Ok (Strings
                      (decode_i32s (Z.to_nat N)
                         (take (Z.to_nat (4 * N)) (drop 4%nat packed)))
                      (decode_i32s (Z.to_nat N)
                         (take (Z.to_nat (4 * N)) (drop 8%nat packed)))
                      (take (Z.to_nat last)
                         (drop (Z.to_nat (8 + 4 * N)) packed))))
        /\ (StringTensorUnpack_evaluate packed = Err MalformedPackedBuffer ->
            get_size packed < 4 + 4 * (N + 1))
        /\ (forall last,
              load_i32 packed (4 + 4 * N) = Ok last ->
              4 + 4 * (N + 1) <= get_size packed ->
              get_size packed - 4 * (N + 2) < last ->
              StringTensorUnpack_evaluate packed <> Err MalformedPackedBuffer
              /\ StringTensorUnpack_evaluate packed = Err OutOfBounds))
  /\ (StringTensorUnpack_evaluate packed = Err MalformedPackedBuffer ->
      get_size packed < 4
      \/ exists N,
           load_i32 packed 0 = Ok N
           /\ get_size packed
              < size_t_of_int (Int32.add (4 + 4) (Int32.mul 4 N))).
Proof.
  split; [apply unpack_too_short |]. split; [| apply unpack_malformed_inv].
  intros N HN H0 Hmax. split; [| split; [| split]].
  - by apply unpack_header_truncated.
  - intros last Hlast Hb. by apply unpack_in_bounds.
  - intros H. apply unpack_malformed_inv in H as [H | (N' & HN' & H)];
      [lia |].
    assert (N' = N) as -> by congruence.
    unfold Int32.add, Int32.mul, Int32.max_signed in *.
    rewrite (wrap_in_range (4 * N)), (wrap_in_range (4 + 4 + 4 * N)) in H
      by (unfold Int32.in_range, Int32.min_signed, Int32.max_signed; lia).
    rewrite size_t_of_int_nonneg in H by lia. lia.
  - intros last Hlast Hhdr Hb.
    rewrite (unpack_past_payload packed N last) by done. done.
Qed.

End ReaderChecks.

Section PackedExamples.
Import Packed Spec Examples.

Lemma packed_ab_c_canonical : canonical_packed packed_ab_c.
Proof.
  split.
  - unfold packed_ab_c, is_u8. repeat constructor; lia.
  - exists 2, 3. split_and!; try reflexivity. lia.
Defined.

(** The round trip on the packed strings "ab" and "c". *)
Lemma pack_unpack_identity_witness :
  canonical_packed packed_ab_c
  /\ (StringTensorUnpack_evaluate packed_ab_c ≫= StringTensorPack_evaluate)
     = Ok packed_ab_c.
Proof.
  split; [exact packed_ab_c_canonical |].
  apply (pack_unpack_identity packed_ab_c packed_ab_c_canonical).
  unfold get_size, Int32.max_signed. simpl. lia.
Defined.

Example unpack_ab_c :
  StringTensorUnpack_evaluate packed_ab_c = Ok (Strings [0; 2] [2; 3] [97; 98; 99]).
Proof. reflexivity. Qed.

(** The packed strings "ab" and "c", cut inside the offsets and whole, and
    the buffer with no payload. *)
Lemma reader_checks_witness :
  StringTensorUnpack_evaluate (take 10 packed_ab_c) = Err MalformedPackedBuffer
  /\ StringTensorUnpack_evaluate packed_ab_c
     = Ok (Strings [0; 2] [2; 3] [97; 98; 99])
  /\ (StringTensorUnpack_evaluate packed_no_payload
        <> Err MalformedPackedBuffer
      /\ StringTensorUnpack_evaluate packed_no_payload = Err OutOfBounds)
  /\ get_size (take 10 packed_ab_c) < 4 + 4 * (2 + 1).
Proof.
  split; [| split; [| split]].
  - apply (proj1 (proj2 (reader_checks (take 10 packed_ab_c))) 2);
      [reflexivity | lia | unfold Int32.max_signed; lia
      | unfold get_size; simpl; lia].
  - apply (proj1 (proj2 (proj1 (proj2 (reader_checks packed_ab_c)) 2 eq_refl
                           ltac:(lia) ltac:(unfold Int32.max_signed; lia)))
             3);
      [reflexivity | unfold get_size; simpl; lia].
  - apply (proj2 (proj2 (proj2
             (proj1 (proj2 (reader_checks packed_no_payload)) 1 eq_refl
                ltac:(lia) ltac:(unfold Int32.max_signed; lia)))) 5);
      [reflexivity | unfold get_size; simpl; lia
      | unfold get_size; simpl; lia].
  - apply (proj1 (proj2 (proj2
             (proj1 (proj2 (reader_checks (take 10 packed_ab_c))) 2 eq_refl
                ltac:(lia) ltac:(unfold Int32.max_signed; lia))))).
    reflexivity.
Defined.

(** The header size [4 + 4 + 4 * batch_size] of [packed_huge_batch] is
    [2^32], which an [int] holds as [0]: the second check passes on a
    buffer of four bytes. *)
Example header_size_wraps :
  load_i32 packed_huge_batch 0 = Ok (2 ^ 30 - 2)
  /\ parse_packed_strings packed_huge_batch
     = Ok (Header (2 ^ 30 - 2) 4 8 0).
Proof. split; reflexivity. Qed.

(** On [packed_no_payload] the last offset, [5], exceeds
    [total_bytes - 4 * (N + 2) = 0]; the reader does not fail with
    [MalformedPackedBuffer], and its copy of the chars leaves the buffer. *)
Lemma unchecked_last_offset :
  load_i32 packed_no_payload 0 = Ok 1
  /\ load_i32 packed_no_payload (4 + 4 * 1) = Ok 5
  /\ 5 > get_size packed_no_payload - 4 * (1 + 2)
  /\ parse_packed_strings packed_no_payload = Ok (Header 1 4 8 12)
  /\ StringTensorUnpack_evaluate packed_no_payload <> Err MalformedPackedBuffer
  /\ StringTensorUnpack_evaluate packed_no_payload = Err OutOfBounds.
Proof.
  split_and!; try reflexivity.
  intros H. vm_compute in H. discriminate.
Qed.

End PackedExamples.

(** ** [SentencepieceTokenizer] *)

Section LoopFailure.
Context {St : Type}.

(** A loop whose iteration [k] fails, after iterations that all complete,
    fails with the error of iteration [k]. *)
Lemma for_from_fails (body : Z -> St -> result St) e n i k (s : St) :
  i <= k < i + Z.of_nat n ->
  (forall j t, i <= j < k -> exists t', body j t = Ok t') ->
  (forall t, body k t = Err e) ->
  for_from n i body s = Err e.
Proof.
  revert i s. induction n as [|n IH]; intros i s Hk Hbefore Hfail; [lia |].
  simpl. destruct (decide (i = k)) as [-> | Hne].
  - by rewrite Hfail.
  - destruct (Hbefore i s) as [t' ->]; [lia |]. cbn [mbind result_bind].
    apply IH; [lia | | done]. intros j t Hj. apply Hbefore. lia.
Qed.

Lemma for_range_fails (body : Z -> St -> result St) e lo hi k (s : St) :
  lo <= k < hi ->
  (forall j t, lo <= j < k -> exists t', body j t = Ok t') ->
  (forall t, body k t = Err e) ->
  for_range lo hi body s = Err e.
Proof.
  intros Hk. unfold for_range. apply for_from_fails. lia.
Qed.
End LoopFailure.

Section SentencepieceProofs.
Import Packed SentencepieceTokenizer.
Context {float : Type}.
Variable SampleEncode : list Z -> Z -> float -> Status * list Z.
Variables (m_nbest_size : Z) (m_alpha : float).

Lemma encode_sentence_Ok packed h k a a' :
  encode_sentence SampleEncode m_nbest_size m_alpha packed h k a = Ok a' ->
  exists s ids,
    sentence packed h k = Ok s
    /\ SampleEncode s m_nbest_size m_alpha = (StatusOk, ids).
Proof.
  unfold encode_sentence. intros H.
  apply bind_Ok in H as (s & Hs & H).
  destruct (SampleEncode s m_nbest_size m_alpha) as [status ids] eqn:Henc.
  destruct status; [eauto | discriminate].
Qed.

Lemma encode_sentence_status_ok packed h k a s ids :
  sentence packed h k = Ok s ->
  SampleEncode s m_nbest_size m_alpha = (StatusOk, ids) ->
  exists a',
    encode_sentence SampleEncode m_nbest_size m_alpha packed h k a = Ok a'.
Proof.
  intros Hs Henc. unfold encode_sentence. rewrite Hs.
  cbn [mbind result_bind]. rewrite Henc. cbn. eauto.
Qed.

Lemma encode_sentence_status_error packed h k a s ids :
  sentence packed h k = Ok s ->
  SampleEncode s m_nbest_size m_alpha = (StatusError, ids) ->
  encode_sentence SampleEncode m_nbest_size m_alpha packed h k a
  = Err CheckFailed.
Proof.
  intros Hs Henc. unfold encode_sentence. rewrite Hs.
  cbn [mbind result_bind]. rewrite Henc. done.
Qed.

(** C4, as the code has it: [evaluate] completes only when the encoding of
    every sentence of the batch returns an ok status; when the encoding of
    a sentence fails, after sentences that were all encoded, the [CHECK_OK]
    on its status ends the whole call and nothing is output for any
    sentence. *)
Theorem encode_failure_aborts_batch packed h :
  parse_packed_strings packed = Ok h ->
  (forall out,
      evaluate SampleEncode m_nbest_size m_alpha packed = Ok out ->
      forall k, 0 <= k < size_t_of_int (batch_size h) ->
        exists s ids,
          sentence packed h k = Ok s
          /\ SampleEncode s m_nbest_size m_alpha = (StatusOk, ids))
  /\ (forall k s ids,
        0 <= k < size_t_of_int (batch_size h) ->
        (forall j, 0 <= j < k ->
           exists s' ids',
             sentence packed h j = Ok s'
             /\ SampleEncode s' m_nbest_size m_alpha = (StatusOk, ids')) ->
        sentence packed h k = Ok s ->
        SampleEncode s m_nbest_size m_alpha = (StatusError, ids) ->
        evaluate SampleEncode m_nbest_size m_alpha packed = Err CheckFailed).
Proof.
  intros Hparse. split.
  - intros out Hev. unfold evaluate in Hev. rewrite Hparse in Hev.
    cbn [mbind result_bind] in Hev.
    apply bind_Ok in Hev as (a & Hloop & _).
    assert (Hnn : 0 <= size_t_of_int (batch_size h)).
    { unfold size_t_of_int. apply Z.mod_pos_bound. lia. }
    revert Hloop.
    apply (for_range_invariant
             (fun i _ => forall k, 0 <= k < i ->
                exists s ids,
                  sentence packed h k = Ok s
                  /\ SampleEncode s m_nbest_size m_alpha = (StatusOk, ids)));
      [done | | intros; lia].
    intros k t t' Hk IH Hbody j Hj.
    destruct (decide (j = k)) as [-> | Hne].
    + eapply encode_sentence_Ok, Hbody.
    + apply IH. lia.
  - intros k s ids Hk Hbefore Hs Henc. unfold evaluate. rewrite Hparse.
    cbn [mbind result_bind].
    rewrite (for_range_fails _ CheckFailed 0 _ k); [done | done | |].
    + intros j t Hj. destruct (Hbefore j Hj) as (s' & ids' & Hs' & Henc').
      eapply encode_sentence_status_ok; eauto.
    + intros t. eapply encode_sentence_status_error; eauto.
Qed.

End SentencepieceProofs.

Section SentencepieceExamples.
Import Packed SentencepieceTokenizer Examples Invariants Spec.

Example evaluate_ab_c :
  evaluate encodes_bytes 0 tt packed_ab_c
  = Ok (Sparse [0; 0; 0; 1; 1; 0] [97; 98; 99] [2; 2]).
Proof. reflexivity. Qed.

(** The encoding of the first sentence of the batch ["ab", "c"] fails: the
    call does not return the tokens of "c" with an empty row for "ab". *)
Lemma one_bad_sentence_aborts :
  sentence packed_ab_c (Header 2 4 8 16) 0 = Ok [97; 98]
  /\ fst (fails_on_ab [97; 98] 0 tt) = StatusError
  /\ sentence packed_ab_c (Header 2 4 8 16) 1 = Ok [99]
  /\ fails_on_ab [99] 0 tt = (StatusOk, [99])
  /\ evaluate fails_on_ab 0 tt packed_ab_c = Err CheckFailed
  /\ evaluate fails_on_ab 0 tt packed_ab_c
     <> Ok (Sparse [1; 0] [99] [2; 1]).
Proof. split_and!; try reflexivity. intros H. vm_compute in H. discriminate. Qed.

(** The batch ["ab", "c"] with an encoder that fails on "ab". *)
Lemma encode_failure_aborts_batch_witness :
  evaluate fails_on_ab 0 tt packed_ab_c = Err CheckFailed.
Proof.
  apply (proj2 (encode_failure_aborts_batch fails_on_ab 0 tt packed_ab_c
                  (Header 2 4 8 16) eq_refl) 0 [97; 98] []).
  - vm_compute. split; [discriminate | reflexivity].
  - intros j Hj. lia.
  - reflexivity.
  - reflexivity.
Defined.

End SentencepieceExamples.

(** ** [RegexSplit] *)

Section SplitModes.
Import RegexSplit Examples Invariants Spec.

Lemma split_modes_lookup m_behaviour :
  is_Some (split_modes !! m_behaviour) <-> m_behaviour ∈ behaviours.
Proof.
  unfold split_modes, behaviours. cbn [list_to_map foldr uncurry fst snd].
  rewrite !elem_of_cons, elem_of_nil.
  split.
  - intros [mode H].
    repeat (apply lookup_insert_Some in H as [[<- _] | [? H]]; [tauto |]).
    by rewrite lookup_empty in H.
  - intros [-> | [-> | [-> | [-> | []]]]]; vm_compute; eauto.
Qed.

(** C7, as the code has it: the keys of [split_modes] are [remove],
    [isolate], [merge_with_previous] and [merge_with_next]; validation
    succeeds for exactly these four behaviours and fails with
    [UnknownSplitMode] for every other string. *)
Theorem accepted_behaviours m_behaviour :
  (m_behaviour ∈ behaviours -> validate_and_infer_types m_behaviour = Ok tt)
  /\ (m_behaviour ∉ behaviours ->
      validate_and_infer_types m_behaviour = Err UnknownSplitMode).
Proof.
  unfold validate_and_infer_types. split; intros H.
  - rewrite bool_decide_eq_true_2; [done | by apply split_modes_lookup].
  - rewrite bool_decide_eq_false_2; [done |].
    by rewrite split_modes_lookup.
Qed.

(** A key of [split_modes] and a string that is not one. *)
Lemma accepted_behaviours_witness :
  validate_and_infer_types "merge_with_next" = Ok tt
  /\ validate_and_infer_types "split" = Err UnknownSplitMode.
Proof.
  split.
  - apply (proj1 (accepted_behaviours "merge_with_next")).
    unfold behaviours. set_solver.
  - apply (proj2 (accepted_behaviours "split")).
    unfold behaviours. rewrite !not_elem_of_cons. split_and!; try done.
    apply not_elem_of_nil.
Defined.

(** The four values of the claim are not keys of [split_modes]. *)
Lemma past_participles_rejected :
  validate_and_infer_types "removed" = Err UnknownSplitMode
  /\ validate_and_infer_types "isolated" = Err UnknownSplitMode
  /\ validate_and_infer_types "merged_with_previous" = Err UnknownSplitMode
  /\ validate_and_infer_types "merged_with_next" = Err UnknownSplitMode.
Proof. split_and!; reflexivity. Qed.

End SplitModes.

Section SplitRows.
Import RegexSplit Examples Invariants Spec.

(** C8 on [rows_ab_empty]: [new_ragged_begins[seq]] is assigned inside the
    loop over the words of the row, so the begin of the empty row is never
    written and holds what the allocation held, and the begin of the first
    row is the offset of its last word. *)
Theorem empty_row_begin_not_written junk :
  evaluate junk no_delimiter "remove" false (RaggedInputs rows_ab_empty [44])
  = Ok (RaggedStrings [1; junk 0%nat 1%nat] [2; 2] [0; 1] [1; 2] [97; 98]).
Proof. reflexivity. Qed.

End SplitRows.

(** ** [BytesToChars] *)

Section TableProofs.
Import BytesToChars Examples Invariants Spec.

Lemma table_checked : forallb entry_ok (seqZ 0 256) = true.
Proof. vm_compute. reflexivity. Qed.

(** Every byte has an entry: the UTF-8 encoding of its GPT-2 code point. *)
Lemma table_entry b :
  0 <= b < 256 ->
  m_bytes_to_chars !! b = Some (Utf8.encode (Utf8.gpt2_code_point b)).
Proof.
  intros Hb.
  pose proof (proj1 (List.forallb_forall entry_ok (seqZ 0 256))
                table_checked b) as H.
  assert (Hin : In b (seqZ 0 256))
    by (apply list_elem_of_In, elem_of_seqZ; lia).
  apply H in Hin. unfold entry_ok in Hin.
  by apply bool_decide_eq_true in Hin.
Qed.

Lemma encode_length cp :
  length (Utf8.encode cp) = 1%nat \/ length (Utf8.encode cp) = 2%nat.
Proof. unfold Utf8.encode. case_bool_decide; auto. Qed.

Lemma remap_total_length bs :
  Forall is_u8 bs ->
  exists out, remap bs = Ok out /\ (length out <= 2 * length bs)%nat.
Proof.
  induction 1 as [|b bs Hb _ (out & Hout & Hlen)].
  - exists []. split; [done | simpl; lia].
  - exists (Utf8.encode (Utf8.gpt2_code_point b) ++ out). split.
    + cbn [remap]. unfold at_. rewrite table_entry by done.
      cbn [mbind result_bind]. rewrite Hout. done.
    + rewrite length_app. cbn [length].
      destruct (encode_length (Utf8.gpt2_code_point b)) as [-> | ->]; lia.
Qed.

(** C6, as the code has it: the table has an entry of one or two bytes for
    each of the 256 byte values, so the output for a byte string is at most
    twice as long; bytes 33..126 map to themselves as single bytes; bytes
    161..172 and 174..255 map to the two-byte UTF-8 encoding of the code
    point of the same value (not to a single byte); bytes 0..32, 127..160
    and 173 map to the two-byte UTF-8 encodings of code points in
    0x100..0x143; 0x41 maps to 0x41 and 0x20 to 0xC4 0xA0. *)
Theorem bytes_to_chars_table :
  (forall b, 0 <= b < 256 ->
     exists v, m_bytes_to_chars !! b = Some v
       /\ (length v = 1%nat \/ length v = 2%nat)
       /\ (33 <= b <= 126 -> v = [b])
       /\ (161 <= b <= 172 \/ 174 <= b <= 255 -> v = Utf8.two_bytes b)
       /\ (0 <= b <= 32 \/ 127 <= b <= 160 \/ b = 173 ->
           exists cp, 256 <= cp <= 323 /\ v = Utf8.two_bytes cp))
  /\ (forall bs, Forall is_u8 bs ->
        exists out, remap bs = Ok out
                    /\ (length out <= 2 * length bs)%nat)
  /\ m_bytes_to_chars !! 65 = Some [65]
  /\ m_bytes_to_chars !! 32 = Some [196; 160].
Proof.
  split_and!; [| apply remap_total_length | reflexivity | reflexivity].
  intros b Hb. eexists. split; [by apply table_entry |].
  split; [apply encode_length |].
  unfold Utf8.encode, Utf8.gpt2_code_point. split_and!.
  - intros H. rewrite (bool_decide_eq_true_2 (33 <= b <= 126)) by lia.
    rewrite bool_decide_eq_true_2 by lia. done.
  - intros H. rewrite (bool_decide_eq_false_2 (33 <= b <= 126)) by lia.
    rewrite (bool_decide_eq_true_2 (_ \/ _)) by lia.
    rewrite bool_decide_eq_false_2 by lia. done.
  - intros H. rewrite (bool_decide_eq_false_2 (33 <= b <= 126)) by lia.
    rewrite (bool_decide_eq_false_2 (_ \/ _)) by lia.
    destruct (bool_decide (b <= 32)) eqn:H32;
      [| destruct (bool_decide (127 <= b <= 160)) eqn:H127];
      rewrite bool_decide_eq_false_2 by lia;
      eexists; (split; [| done]);
      try apply bool_decide_eq_true in H32;
      try apply bool_decide_eq_true in H127; lia.
Qed.

(** Byte 200 and the string "Hi ". *)
Lemma bytes_to_chars_table_witness :
  m_bytes_to_chars !! 200 = Some (Utf8.two_bytes 200)
  /\ exists out, remap [72; 105; 32] = Ok out
                  /\ (length out <= 2 * 3)%nat.
Proof.
  split.
  - destruct (proj1 bytes_to_chars_table 200 ltac:(lia))
      as (v & Hv & _ & _ & H & _).
    rewrite Hv. f_equal. apply H. lia.
  - apply (proj1 (proj2 bytes_to_chars_table) [72; 105; 32]).
    unfold is_u8. repeat constructor; lia.
Defined.

(** Byte 161 does not map to itself as a single byte, nor does any of
    161..172 and 174..255. *)
Lemma high_bytes_take_two_bytes :
  m_bytes_to_chars !! 161 = Some [194; 161]
  /\ m_bytes_to_chars !! 161 <> Some [161]
  /\ m_bytes_to_chars !! 255 = Some [195; 191]
  /\ forallb (fun b => bool_decide (m_bytes_to_chars !! b <> Some [b]))
             (seqZ 161 12 ++ seqZ 174 82) = true.
Proof. split_and!; try reflexivity. intros H. vm_compute in H. discriminate. Qed.

End TableProofs.

Section EvaluateProofs.
Import BytesToChars Examples Invariants Spec.

(** The ragged indices are passed through. *)
Lemma evaluate_ragged_unchanged junk r out :
  evaluate junk r = Ok out ->
  ragged_begins out = ragged_begins r /\ ragged_ends out = ragged_ends r.
Proof.
  unfold evaluate. intros H. apply bind_Ok in H as (s & _ & H).
  by simplify_eq.
Qed.

(** C5 on [row_A_B]: the loop writes one begin and end pair for the row,
    spanning both strings; the pair of the second string is never written
    and holds what the allocation held. *)
Theorem one_pair_per_row junk :
  evaluate junk row_A_B
  = Ok (RaggedStrings [0] [2]
          [0; junk 2%nat 1%nat] [2; junk 3%nat 1%nat]
          [65; 66; junk 4%nat 2%nat; junk 4%nat 3%nat]).
Proof. reflexivity. Qed.

End EvaluateProofs.

(** ** [RaggedToDense] *)

Section RaggedToDenseProofs.
Import RaggedToDense Spec.
Context {E : Type}.
Variables (r : ragged E) (default_value : E) (target_dim : nat).
Hypothesis Hwf : well_formed_ragged r.

Local Abbreviation expected_row := (Spec.expected_row r default_value target_dim).
Local Abbreviation expected_mask := (Spec.expected_mask r target_dim).

Lemma length_dense_row b e :
  0 <= b <= e -> e <= get_size (r_elems r) ->
  length (dense_row r default_value target_dim b e) = target_dim.
Proof.
  intros Hbe He. unfold dense_row, get_size in *.
  rewrite length_app, length_take, length_drop, length_replicate. lia.
Qed.

Lemma length_mask_row b e : length (mask_row target_dim b e) = target_dim.
Proof.
  unfold mask_row. rewrite length_app, !length_replicate. lia.
Qed.

Lemma fill_row_Ok (i : nat) b e s :
  r_begins r !! i = Some b -> r_ends r !! i = Some e ->
  fill_row r default_value (Z.of_nat target_dim) (Z.of_nat i) s
  = Ok (State (out_elems s ++ dense_row r default_value target_dim b e)
              (out_mask s ++ mask_row target_dim b e)).
Proof.
  intros Hb He. destruct Hwf as [_ Hrows].
  destruct (Hrows i b e Hb He) as (Hbe & Hlen & Hmax).
  unfold fill_row. rewrite (read_lookup _ _ _ Hb), (read_lookup _ _ _ He).
  cbn [mbind result_bind].
  unfold Int32.sub, Int32.max_signed in *.
  rewrite wrap_in_range
    by (unfold Int32.in_range, Int32.min_signed, Int32.max_signed; lia).
  rewrite size_t_of_int_nonneg by lia.
  rewrite read_range_Ok by lia. cbn [mbind result_bind].
  unfold dense_row, mask_row. repeat f_equal; lia.
Qed.

Lemma fill_rows n : forall (i : nat) s,
  (i + n <= length (r_begins r))%nat ->
  for_from n (Z.of_nat i) (fill_row r default_value (Z.of_nat target_dim)) s
  = Ok (State (out_elems s ++ flat_map expected_row (seq i n))
              (out_mask s ++ flat_map expected_mask (seq i n))).
Proof.
  induction n as [|n IH]; intros i s Hi.
  - simpl. rewrite !app_nil_r. by destruct s.
  - destruct (lookup_lt_is_Some_2 (r_begins r) i) as [b Hb]; [lia |].
    destruct (lookup_lt_is_Some_2 (r_ends r) i) as [e He].
    { destruct Hwf as [<- _]. lia. }
    cbn [for_from]. rewrite (fill_row_Ok i b e s Hb He).
    cbn [mbind result_bind].
    replace (Z.of_nat i + 1) with (Z.of_nat (S i)) by lia.
    rewrite IH by lia. cbn [out_elems out_mask seq flat_map].
    unfold Spec.expected_row at 2, Spec.expected_mask at 2. rewrite Hb, He.
    by rewrite <- !app_assoc.
Qed.

Lemma length_rows {A} (f : nat -> list A) i n :
  (forall k, (i <= k < i + n)%nat -> length (f k) = target_dim) ->
  length (flat_map f (seq i n)) = (n * target_dim)%nat.
Proof.
  revert i. induction n as [|n IH]; intros i H; [done |].
  cbn [seq flat_map]. rewrite length_app, H, IH by (try intros; try apply H; lia).
  lia.
Qed.

Lemma row_of_rows {A} (f : nat -> list A) n : forall i k,
  (forall j, (i <= j < i + n)%nat -> length (f j) = target_dim) ->
  (k < n)%nat ->
  row target_dim (flat_map f (seq i n)) k = f (i + k)%nat.
Proof.
  unfold row.
  induction n as [|n IH]; intros i k Hlen Hk; [lia |].
  cbn [seq flat_map]. destruct k as [|k].
  - rewrite Nat.add_0_r. simpl. apply take_app_length'.
    symmetry. apply Hlen. lia.
  - replace (S k * target_dim)%nat with (target_dim + k * target_dim)%nat by lia.
    rewrite <- drop_drop, drop_app_length' by (symmetry; apply Hlen; lia).
    rewrite IH by (try intros; try apply Hlen; lia). f_equal. lia.
Qed.

Lemma expected_row_length k :
  (k < length (r_begins r))%nat -> length (expected_row k) = target_dim.
Proof.
  intros Hk. destruct Hwf as [Hl Hrows]. unfold Spec.expected_row.
  destruct (lookup_lt_is_Some_2 (r_begins r) k) as [b Hb]; [lia |].
  destruct (lookup_lt_is_Some_2 (r_ends r) k) as [e He]; [lia |].
  rewrite Hb, He. destruct (Hrows k b e Hb He) as (? & ? & ?).
  by apply length_dense_row.
Qed.

Lemma expected_mask_length k :
  (k < length (r_begins r))%nat -> length (expected_mask k) = target_dim.
Proof.
  intros Hk. destruct Hwf as [Hl Hrows]. unfold Spec.expected_mask.
  destruct (lookup_lt_is_Some_2 (r_begins r) k) as [b Hb]; [lia |].
  destruct (lookup_lt_is_Some_2 (r_ends r) k) as [e He]; [lia |].
  rewrite Hb, He. apply length_mask_row.
Qed.

Lemma evaluate_rows :
  exists dense mask,
    evaluate r default_value target_dim = Ok (dense, mask)
    /\ length dense = (length (r_begins r) * target_dim)%nat
    /\ length mask = (length (r_begins r) * target_dim)%nat
    /\ forall i b e,
         r_begins r !! i = Some b -> r_ends r !! i = Some e ->
         row target_dim dense i = dense_row r default_value target_dim b e
         /\ row target_dim mask i = mask_row target_dim b e.
Proof.
  set (n := length (r_begins r)).
  exists (flat_map expected_row (seq 0 n)), (flat_map expected_mask (seq 0 n)).
  assert (Hd : length (flat_map expected_row (seq 0 n)) = (n * target_dim)%nat).
  { apply length_rows. intros k Hk. apply expected_row_length. lia. }
  assert (Hm : length (flat_map expected_mask (seq 0 n)) = (n * target_dim)%nat).
  { apply length_rows. intros k Hk. apply expected_mask_length. lia. }
  split_and!; [| done | done |].
  - unfold evaluate, for_range.
    replace (Z.to_nat (get_size (r_begins r) - 0)) with n
      by (unfold get_size, n; lia).
    rewrite (fill_rows n 0%nat) by (unfold n; lia).
    cbn [mbind result_bind out_elems out_mask app].
    unfold get_size. rewrite Hd, Hm.
    rewrite !bool_decide_eq_true_2 by (unfold n; lia). done.
  - intros i b e Hb He.
    assert (Hi : (i < n)%nat) by (eapply lookup_lt_Some, Hb).
    rewrite !row_of_rows; try done.
    + unfold Spec.expected_row, Spec.expected_mask. cbn [Nat.add].
      by rewrite Hb, He.
    + intros k Hk. apply expected_mask_length. lia.
    + intros k Hk. apply expected_row_length. lia.
Qed.

End RaggedToDenseProofs.

(** C1: on a ragged tensor, [RaggedToDense::evaluate] returns, without an
    error whatever the row lengths, a dense tensor and a mask of
    [target_dim] columns per row; row [i] of the dense tensor holds the first
    [min(ends[i] - begins[i], target_dim)] elements of the row, then
    [default_value]; row [i] of the mask holds [1] on the former and [0] on
    the latter. *)
Theorem ragged_to_dense_rows {E} (r : ragged E) (default_value : E)
    (target_dim : nat) :
  Spec.well_formed_ragged r ->
  exists dense mask,
    RaggedToDense.evaluate r default_value target_dim = Ok (dense, mask)
    /\ length dense = (length (r_begins r) * target_dim)%nat
    /\ length mask = (length (r_begins r) * target_dim)%nat
    /\ forall i b e,
         r_begins r !! i = Some b -> r_ends r !! i = Some e ->
         RaggedToDense.row target_dim dense i
         = Spec.dense_row r default_value target_dim b e
         /\ RaggedToDense.row target_dim mask i = Spec.mask_row target_dim b e.
Proof. apply evaluate_rows. Qed.

Section RaggedToDenseExamples.
Import Spec Examples.

(** Scenario 5 of the specification. *)
Example dense_789_1011 :
  RaggedToDense.evaluate rows_789_1011 0 4
  = Ok ([7; 8; 9; 0; 10; 11; 0; 0], [1; 1; 1; 0; 1; 1; 0; 0]).
Proof. reflexivity. Qed.

(** Rows longer than [target_dim] are cut, without an error. *)
Example dense_truncated :
  RaggedToDense.evaluate rows_789_1011 0 2
  = Ok ([7; 8; 10; 11], [1; 1; 1; 1]).
Proof. reflexivity. Qed.

Lemma rows_789_1011_well_formed : well_formed_ragged rows_789_1011.
Proof.
  split; [reflexivity |].
  intros [|[|i]] b e Hb He; simplify_eq/=;
    unfold get_size, Int32.max_signed; simpl; lia.
Defined.

(** Scenario 5, by the general statement. *)
Lemma ragged_to_dense_rows_witness :
  exists dense mask,
    RaggedToDense.evaluate rows_789_1011 0 4 = Ok (dense, mask)
    /\ length dense = (2 * 4)%nat
    /\ length mask = (2 * 4)%nat
    /\ forall i b e,
         r_begins rows_789_1011 !! i = Some b ->
         r_ends rows_789_1011 !! i = Some e ->
         RaggedToDense.row 4 dense i = dense_row rows_789_1011 0 4 b e
         /\ RaggedToDense.row 4 mask i = mask_row 4 b e.
Proof.
  exact (ragged_to_dense_rows rows_789_1011 0 4 rows_789_1011_well_formed).
Defined.

End RaggedToDenseExamples.

(** ** [CombineSegments] *)

Section Agreement.
Import Invariants.

Lemma agree_below_write i a b a' b' v :
  agree_below i a b ->
  write a i v = Ok a' -> write b i v = Ok b' ->
  agree_below (i + 1) a' b'.
Proof.
  intros [Hlen Hk] Ha Hb.
  apply write_Ok in Ha as [Hi ->]. apply write_Ok in Hb as [_ ->].
  split; [by rewrite !length_insert |].
  intros k Hlt. destruct (decide (k = Z.to_nat i)) as [-> | Hne].
  - rewrite !list_lookup_insert_eq; unfold get_size in *; [done | lia | lia].
  - rewrite !list_lookup_insert_ne by done. apply Hk. lia.
Qed.

Lemma agree_below_all i a b :
  agree_below i a b -> Z.of_nat (length a) <= i -> a = b.
Proof.
  intros [Hlen Hk] Hi. apply list_eq. intros k.
  destruct (decide (k < length a)%nat) as [Hlt | Hge].
  - apply Hk. lia.
  - rewrite !lookup_ge_None_2; [done | lia | lia].
Qed.

End Agreement.

Section CombineSegmentsProofs.
Import CombineSegments Invariants.
Context {E I : Type}.
Variables (inputs : list (input E)) (ids : list I) (flat_out_size : Z).

Lemma copy_segment_offsets i j (s s' : @state E I) :
  copy_segment inputs ids flat_out_size i j s = Ok s' ->
  out_elem_begins (out s') = out_elem_begins (out s)
  /\ out_elem_ends (out s') = out_elem_ends (out s)
  /\ out_id_begins (out s') = out_id_begins (out s)
  /\ out_id_ends (out s') = out_id_ends (out s).
Proof.
  unfold copy_segment. intros H.
  repeat (apply bind_Ok in H as (? & _ & H)).
  by simplify_eq.
Qed.

Lemma copy_segments_offsets i lo hi (s s' : @state E I) :
  for_range lo hi (copy_segment inputs ids flat_out_size i) s = Ok s' ->
  out_elem_begins (out s') = out_elem_begins (out s)
  /\ out_elem_ends (out s') = out_elem_ends (out s)
  /\ out_id_begins (out s') = out_id_begins (out s)
  /\ out_id_ends (out s') = out_id_ends (out s).
Proof.
  apply (for_range_preserves
           (fun t => out_elem_begins (out t) = out_elem_begins (out s)
                     /\ out_elem_ends (out t) = out_elem_ends (out s)
                     /\ out_id_begins (out t) = out_id_begins (out s)
                     /\ out_id_ends (out t) = out_id_ends (out s)));
    [| done].
  intros k t t' (H1 & H2 & H3 & H4) Hstep.
  apply copy_segment_offsets in Hstep as (-> & -> & -> & ->). done.
Qed.

Lemma combine_row_agree n i (s s' : @state E I) :
  offsets_agree n i s ->
  combine_row inputs ids flat_out_size i s = Ok s' ->
  offsets_agree n (i + 1) s'.
Proof.
  intros (Hlb & Hle & Hb & He). unfold combine_row. intros H.
  apply bind_Ok in H as (eb & Heb & H).
  apply bind_Ok in H as (ib & Hib & H).
  apply bind_Ok in H as (t & Hloop & H).
  apply bind_Ok in H as (ee & Hee & H).
  apply bind_Ok in H as (ie & Hie & H).
  simplify_eq. cbn [out out_elem_begins out_elem_ends out_id_begins out_id_ends].
  apply copy_segments_offsets in Hloop as (Ht1 & Ht2 & Ht3 & Ht4).
  cbn [out out_elem_begins out_elem_ends out_id_begins out_id_ends] in *.
  rewrite Ht1, Ht3. rewrite Ht2 in Hee. rewrite Ht4 in Hie.
  unfold offsets_agree.
  cbn [out out_elem_begins out_elem_ends out_id_begins out_id_ends].
  split_and!.
  - apply write_Ok in Heb as [_ ->]. by rewrite length_insert.
  - apply write_Ok in Hee as [_ ->]. by rewrite length_insert.
  - exact (agree_below_write _ _ _ _ _ _ Hb Heb Hib).
  - exact (agree_below_write _ _ _ _ _ _ He Hee Hie).
Qed.

End CombineSegmentsProofs.

(** C9: whenever [CombineSegments::evaluate] returns, the ragged begins of
    its two outputs are the same array, element for element, and so are
    their ragged ends. *)
Theorem outputs_share_ragged_offsets {E I} junk
    (inputs : list (CombineSegments.input E)) (ids : list I)
    (o : CombineSegments.outputs E I) :
  CombineSegments.evaluate junk inputs ids = Ok o ->
  CombineSegments.out_elem_begins o = CombineSegments.out_id_begins o
  /\ CombineSegments.out_elem_ends o = CombineSegments.out_id_ends o.
Proof.
  unfold CombineSegments.evaluate. intros H.
  apply bind_Ok in H as (? & _ & H).
  destruct (CombineSegments.shapes inputs) as [ps_size max_nelems].
  apply bind_Ok in H as (? & Hps & H). apply check_Ok_inv in Hps.
  apply bool_decide_eq_true in Hps. subst ps_size.
  apply bind_Ok in H as (s & Hloop & H).
  apply bind_Ok in H as (? & _ & H). simplify_eq.
  destruct (Z_le_gt_dec 0 max_nelems) as [Hn | Hn].
  - assert (Hfinal : Invariants.offsets_agree (Z.to_nat max_nelems) max_nelems s).
    { revert Hloop.
      apply (for_range_invariant
               (Invariants.offsets_agree (Z.to_nat max_nelems)));
        [done | |].
      - intros k t t' _. apply combine_row_agree.
      - unfold Invariants.offsets_agree, Invariants.agree_below. cbn.
        rewrite !length_uninitialized. split_and!; try done; intros; lia. }
    destruct Hfinal as (Hlb & Hle & Hb & He).
    split; eapply agree_below_all; eauto; lia.
  - rewrite for_range_empty in Hloop by lia. simplify_eq. cbn.
    replace (Z.to_nat max_nelems) with 0%nat by lia. done.
Qed.

Section CombineSegmentsExamples.
Import Examples.

(** Scenario 6 of the specification. *)
Example combine_segments :
  CombineSegments.evaluate no_junk segments [0; 1]
  = Ok (CombineSegments.Outputs [0] [4] [101; 5; 6; 102]
                                [0] [4] [0; 0; 1; 1]).
Proof. reflexivity. Qed.

(** The offsets of the two outputs of scenario 6. *)
Lemma outputs_share_ragged_offsets_witness :
  @eq (list Z) [0] [0] /\ @eq (list Z) [4] [4].
Proof.
  exact (outputs_share_ragged_offsets no_junk segments [0; 1]
           (CombineSegments.Outputs [0] [4] [101; 5; 6; 102]
                                    [0] [4] [0; 0; 1; 1])
           eq_refl).
Defined.

End CombineSegmentsExamples.

(** ** Gap-free outputs of the normalizers and of the subword tokenizers *)

Section Chain.
Context {St : Type}.
(** The two offset arrays of the state and the position that the loop
    stores in them. *)
Variables (nb ne : St -> list Z) (pos : St -> Z).
Variable body : Z -> St -> result St.
(** A property of the states the loop goes through. *)
Variable inv : St -> Prop.

(** Iteration [i] stores the position it starts from in [nb[i]] and the
    position it ends at in [ne[i]]. *)
Hypothesis body_step : forall i s s',
  inv s -> body i s = Ok s' ->
  (0 <= i < get_size (nb s) /\ i < get_size (ne s)
   /\ nb s' = <[Z.to_nat i := pos s]> (nb s)
   /\ ne s' = <[Z.to_nat i := pos s']> (ne s))
  /\ inv s'.

Local Abbreviation chained := (Invariants.chained nb ne pos).

Lemma chained_step p0 i s s' :
  0 <= i -> inv s -> chained p0 i s -> body i s = Ok s' ->
  chained p0 (i + 1) s'.
Proof.
  intros Hi Hinv Hc Hbody.
  apply body_step in Hbody as ((Hib & Hie & Hnb & Hne) & _); [| done].
  unfold Invariants.chained in *.
  unfold get_size in *. right. rewrite Hnb, Hne.
  replace (Z.to_nat (i + 1 - 1)) with (Z.to_nat i) by lia.
  destruct Hc as [[-> Hp] | (Hpos & H0 & Hk & Hlast)].
  - split_and!; [lia | | intros; lia |].
    + rewrite list_lookup_insert_eq by lia. by rewrite Hp.
    + rewrite list_lookup_insert_eq by lia. done.
  - split_and!; [lia | | |].
    + rewrite list_lookup_insert_ne by lia. done.
    + intros k Hlt. destruct (decide (S k = Z.to_nat i)) as [Heq | Hne'].
      * exists (pos s). rewrite Heq, list_lookup_insert_eq by lia.
        rewrite list_lookup_insert_ne by lia.
        replace k with (Z.to_nat (i - 1)) by lia. done.
      * rewrite list_lookup_insert_ne by lia.
        rewrite list_lookup_insert_ne by lia. apply Hk. lia.
    + rewrite list_lookup_insert_eq by lia. done.
Qed.

Lemma lengths_step i s s' :
  inv s -> body i s = Ok s' ->
  length (nb s') = length (nb s) /\ length (ne s') = length (ne s).
Proof.
  intros Hinv Hbody.
  apply body_step in Hbody as ((_ & _ & -> & ->) & _); [| done].
  by rewrite !length_insert.
Qed.

Lemma for_range_chained p0 n s s' :
  0 <= n -> pos s = p0 -> inv s ->
  for_range 0 n body s = Ok s' ->
  chained p0 n s' /\ inv s'
  /\ length (nb s') = length (nb s) /\ length (ne s') = length (ne s).
Proof.
  intros Hn Hp Hinv H.
  cut (0 <= n /\ inv s' /\ chained p0 n s'
       /\ length (nb s') = length (nb s) /\ length (ne s') = length (ne s));
    [tauto |].
  revert H.
  apply (for_range_invariant
           (fun i t => 0 <= i /\ inv t /\ chained p0 i t
                       /\ length (nb t) = length (nb s)
                       /\ length (ne t) = length (ne s))
           body 0 n s s' Hn);
    [| by (split_and!; [lia | | left | |])].
  intros k t t' Hk (Hk0 & Hit & Hc & Hl1 & Hl2) Hbody.
  destruct (lengths_step _ _ _ Hit Hbody) as [-> ->].
  split_and!; [lia | | by eapply chained_step | done | done].
  by apply body_step in Hbody as [_ ?].
Qed.

(** When the loop has run over all [n] elements of both arrays, they cut
    [[0, pos)] without gaps. *)
Lemma chained_gap_free s :
  length (nb s) = length (ne s) ->
  chained 0 (get_size (nb s)) s ->
  Spec.gap_free (nb s) (ne s) (pos s).
Proof.
  unfold Invariants.chained, get_size. intros Hlen Hc.
  unfold Spec.gap_free.
  destruct Hc as [[Hn Hp] | (Hpos & H0 & Hk & Hlast)].
  - assert (Hnb : nb s = []) by (apply length_zero_iff_nil; lia).
    assert (Hne : ne s = []) by (apply length_zero_iff_nil; lia).
    rewrite Hnb, Hne. split_and!; try done.
  - split_and!; [done | | | |].
    + intros b Hb. rewrite H0 in Hb. by simplify_eq.
    + intros i b e Hb He.
      destruct (Hk i) as (v & Hv1 & Hv2).
      { apply lookup_lt_Some in Hb. lia. }
      by simplify_eq.
    + intros e He. rewrite last_lookup in He.
      replace (Z.to_nat (Z.of_nat (length (nb s)) - 1))
        with (Nat.pred (length (ne s))) in Hlast by lia.
      by simplify_eq.
    + intros Hne. rewrite Hne in Hlen. simpl in Hlen. lia.
Qed.

End Chain.

Section NormalizationProofs.
Import Normalization.
Variable junk : nat -> nat -> Z.
Variable normalizer : list Z -> list Z.

Lemma normalize_one_step inputs i s s' :
  normalize_one normalizer inputs i s = Ok s' ->
  (0 <= i < get_size (new_begins s) /\ i < get_size (new_ends s)
   /\ new_begins s'
      = <[Z.to_nat i := Int32.wrap (get_size (buffer s))]> (new_begins s)
   /\ new_ends s'
      = <[Z.to_nat i := Int32.wrap (get_size (buffer s'))]> (new_ends s))
  /\ True.
Proof.
  unfold normalize_one. intros H.
  apply bind_Ok in H as (nb & Hnb & H).
  apply bind_Ok in H as (b & _ & H).
  apply bind_Ok in H as (e & _ & H).
  apply bind_Ok in H as (str & _ & H).
  apply bind_Ok in H as (ne & Hne & H).
  apply write_Ok in Hnb as [Hi ->]. apply write_Ok in Hne as [Hi' ->].
  simplify_eq. cbn [new_begins new_ends buffer]. split_and!; (done || lia).
Qed.

Lemma normalization_gap_free inputs out :
  length (begins inputs) = length (ends inputs) ->
  evaluate_normalization_helper junk normalizer inputs = Ok out ->
  get_size (chars out) <= Int32.max_signed ->
  Spec.gap_free (begins out) (ends out) (get_size (chars out)).
Proof.
  intros Hlen Hev Hmax. unfold evaluate_normalization_helper in Hev.
  apply bind_Ok in Hev as (s & Hloop & Hev). simplify_eq.
  cbn [begins ends chars] in *.
  apply (for_range_chained new_begins new_ends
           (fun t => Int32.wrap (get_size (buffer t))) _ (fun _ => True)
           (fun i t t' _ => normalize_one_step inputs i t t') 0) in Hloop
    as (Hc & _ & Hl1 & Hl2); [| apply get_size_nonneg | done | done].
  cbn [new_begins new_ends] in Hl1, Hl2.
  rewrite length_uninitialized in Hl1, Hl2.
  rewrite <- (wrap_in_range (get_size (buffer s))).
  - apply (chained_gap_free new_begins new_ends
             (fun t => Int32.wrap (get_size (buffer t))) s); [lia |].
    replace (get_size (new_begins s)) with (get_size (begins inputs))
      by (unfold get_size; lia).
    exact Hc.
  - pose proof (get_size_nonneg (buffer s)).
    unfold Int32.in_range, Int32.min_signed, Int32.max_signed in *. lia.
Qed.

(** On a string triple whose strings lie inside [chars], the helper
    returns a triple. *)
Lemma normalization_helper_returns inputs :
  length (begins inputs) = length (ends inputs) ->
  (forall i b e,
      begins inputs !! i = Some b -> ends inputs !! i = Some e ->
      0 <= b <= e /\ e <= get_size (chars inputs)) ->
  exists out, evaluate_normalization_helper junk normalizer inputs = Ok out.
Proof.
  intros Hlen Hwf. unfold evaluate_normalization_helper, for_range.
  set (n := length (begins inputs)).
  destruct (for_from_completes
              (fun t => length (new_begins t) = n /\ length (new_ends t) = n)
              (normalize_one normalizer inputs)
              (Z.to_nat (get_size (begins inputs) - 0)) 0
              (State (uninitialized (junk 0%nat) n)
                     (uninitialized (junk 1%nat) (length (ends inputs))) []))
    as (s & -> & _); [| | by eauto].
  - intros k t Hk [Hnb Hne]. unfold get_size in Hk. fold n in Hk.
    destruct (lookup_lt_is_Some_2 (begins inputs) (Z.to_nat k)) as [b Hb];
      [lia |].
    destruct (lookup_lt_is_Some_2 (ends inputs) (Z.to_nat k)) as [e He];
      [lia |].
    destruct (Hwf _ _ _ Hb He) as [Hbe Hle].
    unfold normalize_one.
    rewrite write_in_range by (unfold get_size; lia).
    cbn [mbind result_bind].
    rewrite (proj2 (read_Ok _ _ _) (conj (proj1 Hk) Hb)).
    rewrite (proj2 (read_Ok _ _ _) (conj (proj1 Hk) He)).
    cbn [mbind result_bind]. rewrite read_range_Ok by lia.
    cbn [mbind result_bind]. rewrite write_in_range by (unfold get_size; lia).
    cbn [mbind result_bind]. eexists. split; [done |].
    cbn [new_begins new_ends]. by rewrite !length_insert.
  - cbn [new_begins new_ends]. rewrite !length_uninitialized. lia.
Qed.

End NormalizationProofs.

Section TokensProofs.
Import Tokens Invariants.
Variable Tokenize : list Z -> list Z.

Lemma put_token_inv id s s' :
  put_token id s = Ok s' ->
  offset_ok s ->
  new_begins s' = new_begins s /\ new_ends s' = new_ends s /\ offset_ok s'.
Proof.
  unfold put_token. intros H [Hr Hq].
  apply bind_Ok in H as (? & _ & H).
  apply bind_Ok in H as (ne & Hne & H).
  apply write_Ok in Hne as [Hi ->]. simplify_eq.
  cbn [new_begins new_ends]. split_and!; try done.
  unfold offset_ok. cbn [offset new_elems]. unfold Int32.add.
  split; [apply wrap_range |].
  unfold get_size in *. rewrite length_insert.
  unfold Int32.in_range, Int32.min_signed, Int32.max_signed in Hr.
  destruct (decide (offset s + 1 <= Int32.max_signed)) as [Hle | Hgt];
    unfold Int32.max_signed in *.
  - right. rewrite wrap_in_range
      by (unfold Int32.in_range, Int32.min_signed, Int32.max_signed; lia).
    lia.
  - left. replace (offset s) with (2 ^ 31 - 1) by lia. by vm_compute.
Qed.

Lemma tokenize_word_inv r i s s' :
  tokenize_word Tokenize r i s = Ok s' ->
  offset_ok s ->
  new_begins s' = new_begins s /\ new_ends s' = new_ends s /\ offset_ok s'.
Proof.
  unfold tokenize_word. intros H Hq.
  apply bind_Ok in H as (b & _ & H).
  apply bind_Ok in H as (e & _ & H).
  apply bind_Ok in H as (str & _ & H).
  revert H.
  apply (for_each_preserves
           (fun t => new_begins t = new_begins s /\ new_ends t = new_ends s
                     /\ offset_ok t)); [| done].
  intros id t t' (Hb & He & Hq') Hput.
  apply put_token_inv in Hput as (-> & -> & ?); done.
Qed.

Lemma tokenize_row_step r j s s' :
  offset_ok s ->
  tokenize_row Tokenize r j s = Ok s' ->
  (0 <= j < get_size (new_begins s) /\ j < get_size (new_ends s)
   /\ new_begins s' = <[Z.to_nat j := offset s]> (new_begins s)
   /\ new_ends s' = <[Z.to_nat j := offset s']> (new_ends s))
  /\ offset_ok s'.
Proof.
  unfold tokenize_row. intros Hq H.
  apply bind_Ok in H as (nb & Hnb & H).
  apply bind_Ok in H as (rb & _ & H).
  apply bind_Ok in H as (re & _ & H).
  apply bind_Ok in H as (t & Hloop & H).
  apply bind_Ok in H as (ne & Hne & H).
  apply write_Ok in Hnb as [Hj ->]. simplify_eq.
  assert (Ht : new_begins t = <[Z.to_nat j := offset s]> (new_begins s)
               /\ new_ends t = new_ends s /\ offset_ok t).
  { revert Hloop.
    apply (for_range_preserves
             (fun u => new_begins u = <[Z.to_nat j := offset s]> (new_begins s)
                       /\ new_ends u = new_ends s /\ offset_ok u));
      [| by split_and!].
    intros k u u' (Hb & He & Hq') Hw.
    apply tokenize_word_inv in Hw as (-> & -> & ?); done. }
  destruct Ht as (Hb & He & Hq').
  apply write_Ok in Hne as [Hj' ->].
  cbn [new_begins new_ends offset new_elems].
  rewrite He in Hj'. split_and!; try done; try lia.
  - by rewrite He.
Qed.

(** The rows loop with its invariant on [offset] carried in the state
    predicate of the chain. *)
Lemma tokenize_rows_gap_free junk r out :
  length (ragged_begins r) = length (ragged_ends r) ->
  tokenize_rows Tokenize junk r = Ok out ->
  Spec.gap_free (r_begins out) (r_ends out) (get_size (r_elems out)).
Proof.
  intros Hlen Hev. unfold tokenize_rows in Hev.
  apply bind_Ok in Hev as (s & Hloop & Hev).
  apply bind_Ok in Hev as (? & Hnn & Hev).
  apply check_Ok_inv, bool_decide_eq_true in Hnn. simplify_eq.
  cbn [r_begins r_ends r_elems].
  set (s0 := State (uninitialized (junk 0%nat) (length (ragged_begins r)))
                   (uninitialized (junk 1%nat) (length (ragged_ends r)))
                   (uninitialized (junk 2%nat) (length (rs_chars r))) 0) in *.
  assert (Hq0 : offset_ok s0).
  { split; [by vm_compute |]. right. cbn. unfold get_size. lia. }
  apply (for_range_chained new_begins new_ends offset _ offset_ok
           (fun i t t' Hq H => tokenize_row_step r i t t' Hq H) 0) in Hloop
    as (Hc & Hq & Hl1 & Hl2); [| apply get_size_nonneg | done | done].
  cbn [s0 new_begins new_ends] in Hl1, Hl2.
  rewrite length_uninitialized in Hl1, Hl2.
  replace (get_size (take (Z.to_nat (offset s)) (new_elems s)))
    with (offset s).
  - apply (chained_gap_free new_begins new_ends offset s); [lia |].
    replace (get_size (new_begins s)) with (get_size (ragged_begins r))
      by (unfold get_size; lia).
    exact Hc.
  - destruct Hq as [_ [? | ?]]; [lia |].
    unfold get_size in *. rewrite length_take. lia.
Qed.

End TokensProofs.

Section GapFree.
Import Spec.

Lemma wordpiece_runs_tokens junk FastWordPiece suffix max_bytes r vocab
    input8 out :
  WordpieceTokenizer.evaluate junk FastWordPiece suffix max_bytes r vocab input8
    = Ok out ->
  exists Tokenize, Tokens.tokenize_rows Tokenize junk r = Ok out.
Proof.
  unfold WordpieceTokenizer.evaluate. intros H.
  apply bind_Ok in H as (unk & _ & H).
  apply bind_Ok in H as ([v u] & _ & H). eauto.
Qed.

Lemma bpe_runs_tokens junk BPE unk suffix end_suffix fuse r vocab merges out :
  BPETokenizer.evaluate junk BPE unk suffix end_suffix fuse r vocab merges
    = Ok out ->
  exists Tokenize, Tokens.tokenize_rows Tokenize junk r = Ok out.
Proof.
  unfold BPETokenizer.evaluate. intros H.
  apply bind_Ok in H as (v & _ & H).
  apply bind_Ok in H as (m & _ & H). eauto.
Qed.

(** C10: what the normalization helper returns on a string triple, hence
    what [CaseFold], [NormalizeUnicode] and [RegexNormalization] return,
    and what [WordpieceTokenizer] and [BPETokenizer] return on a ragged
    string tensor, is cut without gaps by its offsets: the first begin is
    [0], each begin is the end before it, the last end is the length of
    the flat buffer. The normalizers store a buffer size in an [int32_t],
    so their output is one of at most [INT32_MAX] bytes. *)
Theorem outputs_are_gap_free :
  (forall junk normalizer inputs out,
      length (begins inputs) = length (ends inputs) ->
      Normalization.evaluate_normalization_helper junk normalizer inputs
        = Ok out ->
      get_size (chars out) <= Int32.max_signed ->
      gap_free (begins out) (ends out) (get_size (chars out)))
  /\ (forall junk Lowercase inputs out,
        length (begins inputs) = length (ends inputs) ->
        Normalization.CaseFold_evaluate junk Lowercase inputs = Ok out ->
        get_size (chars out) <= Int32.max_signed ->
        gap_free (begins out) (ends out) (get_size (chars out)))
  /\ (forall junk NFD NFC NFKD NFKC form inputs out,
        length (begins inputs) = length (ends inputs) ->
        Normalization.NormalizeUnicode_evaluate junk NFD NFC NFKD NFKC
          form inputs = Ok out ->
        get_size (chars out) <= Int32.max_signed ->
        gap_free (begins out) (ends out) (get_size (chars out)))
  /\ (forall junk Replace inputs input3 input4 out,
        length (begins inputs) = length (ends inputs) ->
        Normalization.RegexNormalization_evaluate junk Replace inputs
          input3 input4 = Ok out ->
        get_size (chars out) <= Int32.max_signed ->
        gap_free (begins out) (ends out) (get_size (chars out)))
  /\ (forall junk FastWordPiece suffix max_bytes r vocab input8 out,
        length (ragged_begins r) = length (ragged_ends r) ->
        WordpieceTokenizer.evaluate junk FastWordPiece suffix max_bytes
          r vocab input8 = Ok out ->
        gap_free (r_begins out) (r_ends out) (get_size (r_elems out)))
  /\ (forall junk BPE unk suffix end_suffix fuse r vocab merges out,
        length (ragged_begins r) = length (ragged_ends r) ->
        BPETokenizer.evaluate junk BPE unk suffix end_suffix fuse
          r vocab merges = Ok out ->
        gap_free (r_begins out) (r_ends out) (get_size (r_elems out))).
Proof.
  split_and!.
  - intros. by eapply normalization_gap_free.
  - unfold Normalization.CaseFold_evaluate. intros.
    by eapply normalization_gap_free.
  - unfold Normalization.NormalizeUnicode_evaluate.
    intros junk NFD NFC NFKD NFKC form inputs out Hlen H Hmax.
    destruct (Normalization.normalizers NFD NFC NFKD NFKC !! form);
      [| done].
    by eapply normalization_gap_free.
  - unfold Normalization.RegexNormalization_evaluate.
    intros junk Replace inputs input3 input4 out Hlen H Hmax.
    apply bind_Ok in H as (? & _ & H). apply bind_Ok in H as (? & _ & H).
    by eapply normalization_gap_free.
  - intros junk FastWordPiece suffix max_bytes r vocab input8 out Hlen H.
    apply wordpiece_runs_tokens in H as [Tokenize H].
    by eapply tokenize_rows_gap_free.
  - intros junk BPE unk suffix end_suffix fuse r vocab merges out Hlen H.
    apply bpe_runs_tokens in H as [Tokenize H].
    by eapply tokenize_rows_gap_free.
Qed.

End GapFree.

Section GapFreeExamples.
Import Spec Examples.

Example normalize_ab_c :
  Normalization.evaluate_normalization_helper no_junk twice strings_ab_c
  = Ok (Strings [0; 4] [4; 6] [97; 98; 97; 98; 99; 99]).
Proof. reflexivity. Qed.

Example wordpiece_rows_ab_empty :
  WordpieceTokenizer.evaluate no_junk word_length [35; 35] 100
    rows_ab_empty vocab_a [0]
  = Ok (Ragged [0; 2] [2; 2] [1; 1]).
Proof. reflexivity. Qed.

Example bpe_rows_ab_empty :
  BPETokenizer.evaluate no_junk bpe_bytes [] [] [] false
    rows_ab_empty vocab_a merges_a_b
  = Ok (Ragged [0; 2] [2; 2] [97; 98]).
Proof. reflexivity. Qed.

(** The offsets of the first two examples. *)
Lemma outputs_are_gap_free_witness :
  gap_free [0; 4] [4; 6] 6
  /\ gap_free [0; 2] [2; 2] 2.
Proof.
  split.
  - apply (proj1 outputs_are_gap_free no_junk twice strings_ab_c
             (Strings [0; 4] [4; 6] [97; 98; 97; 98; 99; 99]));
      [reflexivity | reflexivity |].
    unfold get_size, Int32.max_signed. simpl. lia.
  - apply (proj1 (proj2 (proj2 (proj2 (proj2 outputs_are_gap_free))))
             no_junk word_length [35; 35] 100 rows_ab_empty vocab_a [0]
             (Ragged [0; 2] [2; 2] [1; 1]));
      reflexivity.
Defined.

End GapFreeExamples.

(** * Further properties *)

(** ** The canonical layout *)

Section LayoutFacts.
Import Layout.
Context {A : Type}.
Implicit Types (ps : list (list A)).

Lemma length_begins_from start ps : length (begins_from start ps) = length ps.
Proof. revert start. induction ps; intros; simpl; auto. Qed.

Lemma length_ends_from start ps : length (ends_from start ps) = length ps.
Proof. revert start. induction ps; intros; simpl; auto. Qed.

Lemma get_size_concat_take_le ps k :
  0 <= get_size (concat (take k ps)) <= get_size (concat ps).
Proof.
  split; [apply get_size_nonneg |].
  rewrite <- (take_drop k ps) at 2. rewrite concat_app, get_size_app.
  pose proof (get_size_nonneg (concat (drop k ps))). lia.
Qed.

Lemma lookup_begins_from start ps k :
  (k < length ps)%nat ->
  begins_from start ps !! k = Some (start + get_size (concat (take k ps))).
Proof.
  revert start k. induction ps as [|p ps IH]; intros start k Hk;
    simpl in Hk; [lia |].
  destruct k as [|k]; simpl.
  - f_equal. unfold get_size. simpl. lia.
  - rewrite IH by lia. f_equal. rewrite get_size_app. lia.
Qed.

Lemma lookup_ends_from start ps k :
  (k < length ps)%nat ->
  ends_from start ps !! k = Some (start + get_size (concat (take (S k) ps))).
Proof.
  revert start k. induction ps as [|p ps IH]; intros start k Hk;
    simpl in Hk; [lia |].
  destruct k as [|k].
  - simpl. rewrite app_nil_r. done.
  - cbn [ends_from lookup list_lookup]. rewrite IH by lia.
    f_equal. cbn [take concat]. rewrite !get_size_app. lia.
Qed.

Lemma concat_take_S ps k p :
  ps !! k = Some p -> concat (take (S k) ps) = concat (take k ps) ++ p.
Proof.
  intros H. rewrite (take_S_r _ _ _ H), concat_app. simpl.
  by rewrite app_nil_r.
Qed.

(** The layout has no gaps. *)
Lemma layout_gap_free ps :
  Spec.gap_free (begins_from 0 ps) (ends_from 0 ps) (get_size (concat ps)).
Proof.
  unfold Spec.gap_free. split_and!.
  - by rewrite length_begins_from, length_ends_from.
  - intros b Hb. destruct ps as [|p ps]; simpl in Hb; by simplify_eq.
  - intros i b e Hb He.
    assert (Hi : (S i < length ps)%nat).
    { apply lookup_lt_Some in Hb. by rewrite length_begins_from in Hb. }
    rewrite lookup_begins_from in Hb by lia.
    rewrite lookup_ends_from in He by lia. by simplify_eq.
  - intros e He. rewrite last_lookup, length_ends_from in He.
    assert (Hlen : (0 < length ps)%nat).
    { destruct ps; [done | simpl; lia]. }
    rewrite lookup_ends_from in He by lia. simplify_eq.
    replace (S (Nat.pred (length ps))) with (length ps) by lia.
    by rewrite firstn_all.
  - intros He. destruct ps; [done | discriminate].
Qed.

Lemma collect_Forall2 {X B} (f : X -> result B) l ys :
  collect f l = Ok ys <-> Forall2 (fun x y => f x = Ok y) l ys.
Proof.
  revert ys. induction l as [|x l IH]; intros ys; simpl.
  - split; [intros; simplify_eq; constructor | by inversion 1].
  - split.
    + intros H. apply bind_Ok in H as (y & Hy & H).
      apply bind_Ok in H as (ys' & Hys & H). simplify_eq.
      constructor; [done | by apply IH].
    + inversion 1 as [|? y ? ys' Hy Hys]; subst.
      rewrite Hy. cbn [mbind result_bind].
      apply IH in Hys. rewrite Hys. done.
Qed.

Lemma piece_layout ps (k : nat) p :
  ps !! k = Some p ->
  piece (begins_from 0 ps) (ends_from 0 ps) (concat ps) (Z.of_nat k) = Ok p.
Proof.
  intros Hp. assert (Hk : (k < length ps)%nat) by (by eapply lookup_lt_Some).
  unfold piece.
  rewrite (read_lookup _ _ _ (lookup_begins_from 0 ps k Hk)).
  rewrite (read_lookup _ _ _ (lookup_ends_from 0 ps k Hk)).
  cbn [mbind result_bind]. rewrite (concat_take_S _ _ _ Hp), get_size_app.
  pose proof (get_size_nonneg (concat (take k ps))).
  pose proof (get_size_nonneg p).
  assert (Hcat : concat ps = concat (take k ps) ++ p ++ concat (drop (S k) ps)).
  { rewrite <- (take_drop (S k) ps) at 1.
    rewrite concat_app, (concat_take_S _ _ _ Hp), <- app_assoc. done. }
  rewrite read_range_Ok; [| lia | lia |].
  - f_equal. rewrite Hcat. simpl.
    replace (Z.to_nat (0 + get_size (concat (take k ps))))
      with (length (concat (take k ps))) by (unfold get_size; lia).
    rewrite drop_app_length.
    apply take_app_length'. unfold get_size. lia.
  - rewrite Hcat, !get_size_app.
    pose proof (get_size_nonneg (concat (drop (S k) ps))). lia.
Qed.

(** Reading the pieces of a layout gives the pieces back. *)
Lemma pieces_layout ps : pieces (layout ps) = Ok ps.
Proof.
  unfold pieces, layout. cbn [r_begins r_ends r_elems].
  apply collect_Forall2. unfold get_size. rewrite length_begins_from.
  apply Forall2_same_length_lookup. split.
  - rewrite length_seqZ. lia.
  - intros i x p Hx Hp. apply lookup_seqZ in Hx as [-> _]. simpl.
    by apply piece_layout.
Qed.

End LayoutFacts.

(** ** Loops that lay pieces out *)

Section Appends.
Context {St B : Type}.
Variables (inv : St -> Prop) (proj : St -> list B).

(** A loop over a range whose iterations append to a projection of the
    state appends what the iterations append, in order. *)
Lemma for_from_appends {X} (src : Z -> result X) (h : X -> list B)
    (body : Z -> St -> result St) n i s s' :
  (forall k t t', inv t -> body k t = Ok t' ->
      inv t' /\ exists x, src k = Ok x /\ proj t' = proj t ++ h x) ->
  inv s -> for_from n i body s = Ok s' ->
  inv s' /\ exists xs,
    Layout.collect src (seqZ i (Z.of_nat n)) = Ok xs
    /\ proj s' = proj s ++ flat_map h xs.
Proof.
  intros Hstep. revert i s. induction n as [|n IH]; intros i s Hs Hrun.
  - simpl in Hrun. simplify_eq. split; [done |]. exists []. split; [done |].
    simpl. by rewrite app_nil_r.
  - cbn [for_from] in Hrun. apply bind_Ok in Hrun as (t & Hbody & Hrest).
    destruct (Hstep _ _ _ Hs Hbody) as (Ht & x & Hx & Hp).
    destruct (IH _ _ Ht Hrest) as (Hs' & xs & Hxs & Hp').
    split; [done |]. exists (x :: xs). split.
    + rewrite seqZ_cons by lia. cbn [Layout.collect]. rewrite Hx.
      cbn [mbind result_bind].
      replace (Z.succ i) with (i + 1) by lia.
      replace (Z.pred (Z.of_nat (S n))) with (Z.of_nat n) by lia.
      rewrite Hxs. done.
    + rewrite Hp', Hp. cbn [flat_map]. by rewrite <- app_assoc.
Qed.

Lemma for_range_appends {X} (src : Z -> result X) (h : X -> list B)
    (body : Z -> St -> result St) lo hi s s' :
  (forall k t t', inv t -> body k t = Ok t' ->
      inv t' /\ exists x, src k = Ok x /\ proj t' = proj t ++ h x) ->
  inv s -> for_range lo hi body s = Ok s' ->
  inv s' /\ exists xs,
    Layout.collect src (seqZ lo (hi - lo)) = Ok xs
    /\ proj s' = proj s ++ flat_map h xs.
Proof.
  intros Hstep Hs Hrun. unfold for_range in Hrun.
  destruct (for_from_appends src h body _ _ _ _ Hstep Hs Hrun)
    as (Hs' & xs & Hxs & Hp).
  split; [done |]. exists xs. split; [| done].
  destruct (Z_le_gt_dec 0 (hi - lo)).
  - by rewrite Z2Nat.id in Hxs by lia.
  - replace (Z.to_nat (hi - lo)) with 0%nat in Hxs by lia.
    rewrite seqZ_nil in * by lia. done.
Qed.

(** The same for a loop over the elements of a list. *)
Lemma for_each_appends {X} (h : X -> list B)
    (body : X -> St -> result St) l s s' :
  (forall x t t', inv t -> body x t = Ok t' ->
      inv t' /\ proj t' = proj t ++ h x) ->
  inv s -> for_each l body s = Ok s' ->
  inv s' /\ proj s' = proj s ++ flat_map h l.
Proof.
  intros Hstep. revert s. induction l as [|x l IH]; intros s Hs Hrun.
  - simpl in Hrun. simplify_eq. split; [done |]. simpl. by rewrite app_nil_r.
  - cbn [for_each] in Hrun. apply bind_Ok in Hrun as (t & Hbody & Hrest).
    destruct (Hstep _ _ _ Hs Hbody) as (Ht & Hp).
    destruct (IH _ Ht Hrest) as (Hs' & Hp').
    split; [done |]. rewrite Hp', Hp. cbn [flat_map]. by rewrite <- app_assoc.
Qed.

End Appends.

Section LayoutLoop.
Import Layout.
Context {St X A : Type}.
Variables (inv : St -> Prop) (nb ne : St -> list Z) (buf : St -> list A).
Variables (src : Z -> result X) (h : X -> list A).
Variable body : Z -> St -> result St.

(** Iteration [i] reads [x] from [src i], appends [h x] to the buffer, and
    stores the sizes of the buffer before and after, as [int32_t], in
    [nb[i]] and [ne[i]]. *)
Hypothesis step : forall i s s',
  inv s -> body i s = Ok s' ->
  inv s' /\ 0 <= i < get_size (nb s) /\ i < get_size (ne s)
  /\ nb s' = <[Z.to_nat i := Int32.wrap (get_size (buf s))]> (nb s)
  /\ ne s' = <[Z.to_nat i := Int32.wrap (get_size (buf s'))]> (ne s)
  /\ exists x, src i = Ok x /\ buf s' = buf s ++ h x.

Local Abbreviation laid_out :=
  (LoopInvariants.laid_out inv nb ne buf src h).

Lemma laid_out_step n i s s' :
  laid_out n i s -> body i s = Ok s' -> laid_out n (i + 1) s'.
Proof.
  unfold LoopInvariants.laid_out.
  intros (Hi & Hinv & Hlb & Hle & xs & Hxs & Hbuf & Hk) Hbody.
  destruct (step _ _ _ Hinv Hbody)
    as (Hinv' & Hib & Hie & Hnb & Hne & x & Hx & Hbuf').
  unfold get_size in Hib, Hie.
  assert (Hlen : length xs = Z.to_nat i).
  { apply Forall2_length in Hxs. rewrite length_seqZ in Hxs. lia. }
  split_and!; [lia | done | by rewrite Hnb, length_insert
               | by rewrite Hne, length_insert |].
  exists (xs ++ [x]). split_and!.
  - replace (i + 1) with (Z.of_nat (S (Z.to_nat i))) by lia.
    rewrite seqZ_S. apply Forall2_app.
    + by rewrite Z2Nat.id by lia.
    + constructor; [| constructor]. by rewrite Z2Nat.id by lia.
  - rewrite Hbuf', Hbuf, fmap_app, concat_app. simpl. by rewrite app_nil_r.
  - intros k Hlt. rewrite Hnb, Hne, fmap_app.
    destruct (decide (k = Z.to_nat i)) as [-> | Hne'].
    + rewrite !list_lookup_insert_eq by lia. split; f_equal; f_equal.
      * rewrite take_app_length' by (rewrite length_fmap; lia).
        by rewrite Hbuf.
      * rewrite take_ge by (rewrite length_app, length_fmap; simpl; lia).
        rewrite Hbuf', Hbuf, concat_app. simpl. by rewrite app_nil_r.
    + rewrite !list_lookup_insert_ne by lia.
      rewrite !take_app_le by (rewrite length_fmap; lia).
      apply Hk. lia.
Qed.

Lemma layout_loop (n : nat) s s' :
  for_range 0 (Z.of_nat n) body s = Ok s' ->
  inv s -> buf s = [] -> length (nb s) = n -> length (ne s) = n ->
  get_size (buf s') <= Int32.max_signed ->
  inv s' /\ exists xs,
    collect src (seqZ 0 (Z.of_nat n)) = Ok xs
    /\ nb s' = begins_from 0 (h <$> xs)
    /\ ne s' = ends_from 0 (h <$> xs)
    /\ buf s' = concat (h <$> xs).
Proof.
  intros Hrun Hinv Hbuf Hlb Hle Hmax.
  assert (Hfinal : laid_out n (Z.of_nat n) s').
  { revert Hrun. apply (for_range_invariant (laid_out n)); [lia | |].
    - intros k t t' _. apply laid_out_step.
    - unfold LoopInvariants.laid_out.
      split_and!; try done. exists []. split_and!; [constructor | done |].
      intros; lia. }
  destruct Hfinal as (_ & Hinv' & Hlb' & Hle' & xs & Hxs & Hbuf' & Hk).
  assert (Hlen : length xs = n).
  { apply Forall2_length in Hxs. rewrite length_seqZ in Hxs. lia. }
  split; [done |]. exists xs. split_and!; [by apply collect_Forall2 | | | done].
  - apply list_eq. intros k.
    destruct (decide (k < n)%nat) as [Hlt | Hge].
    + rewrite (proj1 (Hk k ltac:(lia))).
      rewrite lookup_begins_from by (rewrite length_fmap; lia).
      f_equal. apply wrap_in_range.
      pose proof (get_size_concat_take_le (h <$> xs) k) as Hb.
      rewrite <- Hbuf' in Hb.
      unfold Int32.in_range, Int32.min_signed, Int32.max_signed in *. lia.
    + rewrite !lookup_ge_None_2;
        [done | rewrite length_begins_from, length_fmap; lia | lia].
  - apply list_eq. intros k.
    destruct (decide (k < n)%nat) as [Hlt | Hge].
    + rewrite (proj2 (Hk k ltac:(lia))).
      rewrite lookup_ends_from by (rewrite length_fmap; lia).
      f_equal. apply wrap_in_range.
      pose proof (get_size_concat_take_le (h <$> xs) (S k)) as Hb.
      rewrite <- Hbuf' in Hb.
      unfold Int32.in_range, Int32.min_signed, Int32.max_signed in *. lia.
    + rewrite !lookup_ge_None_2;
        [done | rewrite length_ends_from, length_fmap; lia | lia].
Qed.

End LayoutLoop.

Section LoopRuns.
Import Layout.
Context {St X : Type}.
Variables (inv : St -> Prop) (src : Z -> result X).
Variable body : Z -> St -> result St.

(** A loop whose iteration [i] completes when [src i] can be read
    completes when every [src i] can. *)
Lemma for_range_runs n s xs :
  (forall i t x, 0 <= i < n -> inv t -> src i = Ok x ->
      exists t', body i t = Ok t' /\ inv t') ->
  inv s -> collect src (seqZ 0 n) = Ok xs ->
  exists s', for_range 0 n body s = Ok s' /\ inv s'.
Proof.
  intros Hstep Hs Hxs. unfold for_range.
  apply (for_from_completes inv body); [| done].
  intros k t Hk Ht. apply collect_Forall2 in Hxs.
  assert (Hlk : seqZ 0 n !! Z.to_nat k = Some k).
  { rewrite lookup_seqZ_lt by lia. f_equal. lia. }
  destruct (Forall2_lookup_l _ _ _ _ _ Hxs Hlk) as (x & _ & Hx).
  apply (Hstep k t x); [lia | done | done].
Qed.

Lemma collect_ext (f g : Z -> result X) l :
  (forall k, k ∈ l -> f k = g k) -> collect f l = collect g l.
Proof.
  induction l as [|k l IH]; intros H; [done |]. cbn [collect].
  rewrite (H k) by set_solver. rewrite IH; [done |].
  intros k' Hk'. apply H. set_solver.
Qed.

End LoopRuns.

(** ** [unpack_strings] *)

Section UnpackStringsProofs.
Import UnpackStrings Layout.

Lemma collect_read_all {A} (l xs : list A) :
  collect (read l) (seqZ 0 (get_size l)) = Ok xs -> xs = l.
Proof.
  intros H. apply collect_Forall2 in H.
  pose proof (Forall2_length _ _ _ H) as Hlen.
  unfold get_size in Hlen. rewrite length_seqZ in Hlen.
  apply list_eq. intros k.
  destruct (decide (k < length l)%nat) as [Hlt | Hge].
  - destruct (lookup_lt_is_Some_2 xs k) as [x Hx]; [lia |].
    assert (Hk : seqZ 0 (get_size l) !! k = Some (Z.of_nat k)).
    { rewrite lookup_seqZ_lt by (unfold get_size; lia). done. }
    pose proof (Forall2_lookup_lr _ _ _ _ _ _ H Hk Hx) as Hr.
    apply read_Ok in Hr as [_ Hr]. rewrite Nat2Z.id in Hr. congruence.
  - rewrite !lookup_ge_None_2; [done | lia | lia].
Qed.

Lemma unpack_one_step strs i s s' :
  offset s = get_size (output_symbols s) ->
  unpack_one strs i s = Ok s' ->
  offset s' = get_size (output_symbols s')
  /\ 0 <= i < get_size (pbegins s) /\ i < get_size (pends s)
  /\ pbegins s' = <[Z.to_nat i := Int32.wrap (get_size (output_symbols s))]>
                    (pbegins s)
  /\ pends s' = <[Z.to_nat i := Int32.wrap (get_size (output_symbols s'))]>
                  (pends s)
  /\ exists x, read strs i = Ok x
               /\ output_symbols s' = output_symbols s ++ id x.
Proof.
  intros Hoff H. unfold unpack_one in H.
  apply bind_Ok in H as (nb & Hnb & H).
  apply bind_Ok in H as (str & Hstr & H).
  apply bind_Ok in H as (ne & Hne & H).
  apply write_Ok in Hnb as [Hi ->]. apply write_Ok in Hne as [Hi' ->].
  simplify_eq. cbn [offset output_symbols pbegins pends].
  rewrite get_size_app, Hoff. split_and!; try done; try lia. eauto.
Qed.

Lemma unpack_strings_returns junk strs :
  exists out, unpack_strings junk strs = Ok out.
Proof.
  unfold unpack_strings, for_range. set (n := length strs).
  destruct (for_from_completes
              (fun t => length (pbegins t) = n /\ length (pends t) = n)
              (unpack_one strs) (Z.to_nat (get_size strs - 0)) 0
              (State (uninitialized (junk 0%nat) n)
                     (uninitialized (junk 1%nat) n) [] 0))
    as (s & -> & _); [| | by eauto].
  - intros k t Hk [Hb He]. unfold get_size in Hk. fold n in Hk.
    destruct (lookup_lt_is_Some_2 strs (Z.to_nat k)) as [str Hstr]; [lia |].
    unfold unpack_one. rewrite write_in_range by (unfold get_size; lia).
    cbn [mbind result_bind].
    rewrite (proj2 (read_Ok _ _ _) (conj (proj1 Hk) Hstr)).
    cbn [mbind result_bind]. rewrite write_in_range by (unfold get_size; lia).
    cbn [mbind result_bind]. eexists. split; [done |].
    cbn [pbegins pends]. by rewrite !length_insert.
  - cbn [pbegins pends]. by rewrite !length_uninitialized.
Qed.

(** What [unpack_strings] returns when the total length is one an
    [int32_t] offset holds. *)
Lemma unpack_strings_Ok junk strs :
  get_size (concat strs) <= Int32.max_signed ->
  unpack_strings junk strs
  = Ok (Strings (begins_from 0 strs) (ends_from 0 strs) (concat strs)).
Proof.
  intros Hmax. destruct (unpack_strings_returns junk strs) as [out Hout].
  rewrite Hout. f_equal.
  unfold unpack_strings in Hout.
  apply bind_Ok in Hout as (s & Hloop & Hout). simplify_eq.
  unfold get_size in Hloop.
  assert (Hsym : forall xs,
             collect (read strs) (seqZ 0 (get_size strs)) = Ok xs ->
             xs = strs) by apply collect_read_all.
  set (s0 := State _ _ _ _) in Hloop.
  destruct (for_range_appends
              (fun t => True) output_symbols (read strs) id
              (unpack_one strs) 0 (Z.of_nat (length strs)) s0 s)
    as (_ & xs0 & Hxs0 & Hbuf0); [| done | exact Hloop |].
  { intros k t t' _ Hb. split; [done |]. unfold unpack_one in Hb.
    apply bind_Ok in Hb as (nb & _ & Hb).
    apply bind_Ok in Hb as (str & Hstr & Hb).
    apply bind_Ok in Hb as (ne & _ & Hb). simplify_eq. eauto. }
  rewrite Z.sub_0_r in Hxs0.
  apply Hsym in Hxs0. subst xs0. cbn [s0 output_symbols app] in Hbuf0.
  destruct (layout_loop
              (fun t => offset t = get_size (output_symbols t))
              pbegins pends output_symbols (read strs) id
              (unpack_one strs) (unpack_one_step strs)
              (length strs) s0 s Hloop)
    as (_ & xs & Hxs & Hnb & Hne & Hbuf);
    [done | done | apply length_uninitialized | apply length_uninitialized
     | |].
  - rewrite Hbuf0.
    replace (flat_map id strs) with (concat strs); [done |].
    clear. induction strs; simpl; [done | by f_equal].
  - apply Hsym in Hxs. subst xs. rewrite list_fmap_id in *.
    by rewrite Hnb, Hne, Hbuf.
Qed.

(** X1: [unpack_strings] lays the strings out without gaps: the chars are
    the strings one after the other and the offsets are the running
    lengths, so that reading element [i] gives string [i] back. The total
    length is one an [int32_t] offset holds. *)
Theorem unpack_strings_layout junk strs :
  get_size (concat strs) <= Int32.max_signed ->
  exists out,
    unpack_strings junk strs = Ok out
    /\ of_strings out = layout strs
    /\ pieces (of_strings out) = Ok strs.
Proof.
  intros Hmax. eexists. split; [by apply unpack_strings_Ok |].
  split; [done |]. apply (pieces_layout strs).
Qed.

Lemma unpack_strings_layout_witness :
  exists out,
    unpack_strings Examples.no_junk [[97; 98]; [99]] = Ok out
    /\ of_strings out = layout [[97; 98]; [99]]
    /\ pieces (of_strings out) = Ok [[97; 98]; [99]].
Proof.
  apply (unpack_strings_layout Examples.no_junk [[97; 98]; [99]]).
  unfold get_size, Int32.max_signed. simpl. lia.
Defined.

End UnpackStringsProofs.

(** ** Packing, then unpacking *)

Section CodecInverse.

Lemma wrap_mod_idem z : Int32.wrap (z mod 2 ^ 32) = Int32.wrap z.
Proof.
  unfold Int32.wrap. f_equal. rewrite Zplus_mod_idemp_l. done.
Qed.

Lemma decode_encode_i32 z :
  Int32.in_range z -> decode_i32 (encode_i32 z) = z.
Proof.
  intros Hz. unfold decode_i32, encode_i32.
  replace (z mod 2 ^ 8 + 2 ^ 8 * ((z / 2 ^ 8) mod 2 ^ 8)
           + 2 ^ 16 * ((z / 2 ^ 16) mod 2 ^ 8)
           + 2 ^ 24 * ((z / 2 ^ 24) mod 2 ^ 8))
    with (z mod 2 ^ 32) by (Z.div_mod_to_equations; lia).
  rewrite wrap_mod_idem. by apply wrap_in_range.
Qed.

Lemma length_flat_map_encode zs :
  length (flat_map encode_i32 zs) = (4 * length zs)%nat.
Proof. induction zs; simpl; lia. Qed.

Lemma decode_i32s_encode n : forall zs rest,
  Forall Int32.in_range zs -> (n <= length zs)%nat ->
  decode_i32s n (flat_map encode_i32 zs ++ rest) = take n zs.
Proof.
  induction n as [|n IH]; intros zs rest Hr Hn; [done |].
  destruct zs as [|z zs]; simpl in Hn; [lia |].
  apply Forall_cons in Hr as [Hz Hr].
  cbn [decode_i32s flat_map take]. rewrite <- app_assoc.
  rewrite take_app_length' by done. rewrite drop_app_length' by done.
  rewrite decode_encode_i32 by done. f_equal. apply IH; [done | lia].
Qed.

Lemma decode_i32s_take' n : forall m bs,
  (4 * n <= m)%nat -> decode_i32s n (take m bs) = decode_i32s n bs.
Proof.
  induction n as [|n IH]; intros m bs Hm; [done |].
  cbn [decode_i32s]. rewrite take_take.
  replace (4 `min` m)%nat with 4%nat by lia. f_equal.
  rewrite skipn_firstn_comm. apply IH. lia.
Qed.

Lemma drop_flat_map_encode n zs rest :
  drop (4 * n) (flat_map encode_i32 zs ++ rest)
  = flat_map encode_i32 (drop n zs) ++ drop (4 * (n - length zs)) rest.
Proof.
  revert zs. induction n as [|n IH]; intros zs.
  - simpl. by rewrite !drop_0.
  - destruct zs as [|z zs].
    + simpl flat_map. simpl length. rewrite !app_nil_l.
      by rewrite Nat.sub_0_r.
    + cbn [flat_map length drop]. rewrite <- app_assoc.
      replace (4 * S n)%nat with (4 + 4 * n)%nat by lia.
      rewrite <- drop_drop, drop_app_length' by done.
      rewrite IH. done.
Qed.

End CodecInverse.

Section PackUnpack.
Import Packed Layout.

(** The last end of a triple, [0] when it has no elements. *)
Local Abbreviation last_end t := (default 0 (last (ends t))).

Lemma pack_bytes t :
  length (begins t) = length (ends t) ->
  get_size (ends t) <= Int32.max_signed ->
  StringTensorPack_evaluate t
  = Ok (flat_map encode_i32 (get_size (ends t) :: 0 :: ends t) ++ chars t).
Proof.
  intros Hlen Hmax. unfold StringTensorPack_evaluate.
  replace (get_size (begins t)) with (get_size (ends t))
    by (unfold get_size; lia).
  rewrite !read_range_all. cbn [mbind result_bind flat_map].
  rewrite wrap_in_range.
  - by rewrite <- !app_assoc.
  - pose proof (get_size_nonneg (ends t)).
    unfold Int32.in_range, Int32.min_signed, Int32.max_signed in *. lia.
Qed.

Lemma last_cons_default (z : Z) zs :
  drop (length zs) (z :: zs) = [default z (last zs)].
Proof.
  revert z. induction zs as [|y zs IH]; intros z; [done |].
  cbn [length drop]. rewrite IH. f_equal.
  destruct zs as [|a zs']; [done |].
  change (last (y :: a :: zs')) with (last (a :: zs')).
  destruct (last (a :: zs')) eqn:He; [done |].
  by apply last_None in He.
Qed.

(** What unpacking returns on what [StringTensorPack] packed. *)
Lemma unpack_pack_Ok t :
  length (begins t) = length (ends t) ->
  Forall Int32.in_range (ends t) ->
  4 + 4 * (get_size (ends t) + 1) <= Int32.max_signed ->
  0 <= last_end t <= get_size (chars t) ->
  (StringTensorPack_evaluate t ≫= StringTensorUnpack_evaluate)
  = Ok (Strings (take (length (ends t)) (0 :: ends t))
                (ends t)
                (take (Z.to_nat (last_end t)) (chars t))).
Proof.
  intros Hlen Hr Hmax Hlast.
  pose proof (get_size_nonneg (ends t)) as Hnn.
  unfold Int32.max_signed in Hmax.
  rewrite pack_bytes by (done || unfold Int32.max_signed; lia).
  cbn [mbind result_bind].
  set (N := get_size (ends t)) in *.
  set (packed := flat_map encode_i32 (N :: 0 :: ends t) ++ chars t).
  assert (HN : Int32.in_range N).
  { unfold Int32.in_range, Int32.min_signed, Int32.max_signed. lia. }
  assert (Hall : Forall Int32.in_range (N :: 0 :: ends t)).
  { apply Forall_cons; split; [done |]. apply Forall_cons; split; [| done].
    unfold Int32.in_range, Int32.min_signed, Int32.max_signed. lia. }
  assert (Hsize : get_size packed = 4 + 4 * (N + 1) + get_size (chars t)).
  { unfold packed. rewrite get_size_app. unfold get_size at 1.
    rewrite length_flat_map_encode. cbn [length]. unfold N, get_size. lia. }
  assert (Hload0 : load_i32 packed 0 = Ok N).
  { rewrite load_i32_Ok by lia. f_equal.
    change (Z.to_nat 0) with 0%nat. rewrite drop_0. unfold packed.
    cbn [flat_map]. rewrite <- app_assoc, take_app_length' by done.
    by apply decode_encode_i32. }
  assert (Hdrop : forall k : nat, (k <= S (length (ends t)))%nat ->
             drop (4 + 4 * k) packed
             = flat_map encode_i32 (drop k (0 :: ends t)) ++ chars t).
  { intros k Hk. unfold packed.
    change (flat_map encode_i32 (N :: 0 :: ends t))
      with (encode_i32 N ++ flat_map encode_i32 (0 :: ends t)).
    rewrite <- app_assoc.
    rewrite <- drop_drop, drop_app_length' by done.
    rewrite drop_flat_map_encode.
    replace (k - length (0%Z :: ends t))%nat with 0%nat by (simpl; lia).
    by rewrite drop_0. }
  assert (Hloadn : load_i32 packed (4 + 4 * N) = Ok (last_end t)).
  { rewrite load_i32_Ok by lia. f_equal.
    replace (Z.to_nat (4 + 4 * N)) with (4 + 4 * length (ends t))%nat
      by (unfold N, get_size; lia).
    rewrite Hdrop by lia. rewrite last_cons_default.
    cbn [flat_map]. rewrite app_nil_r, take_app_length' by done.
    apply decode_encode_i32.
    destruct (last (ends t)) as [e|] eqn:He; simpl.
    - rewrite Forall_forall in Hr. apply Hr.
      rewrite last_lookup in He. by eapply list_elem_of_lookup_2.
    - unfold Int32.in_range, Int32.min_signed, Int32.max_signed. lia. }
  rewrite (unpack_in_bounds packed N (last_end t));
    [| done | lia | unfold Int32.max_signed; lia | done | lia].
  f_equal. f_equal.
  - rewrite decode_i32s_take' by (unfold N, get_size; lia).
    replace 4%nat with (4 + 4 * 0)%nat at 1 by lia.
    rewrite Hdrop by lia. rewrite drop_0.
    rewrite decode_i32s_encode; [f_equal; unfold N, get_size; lia | |].
    + by constructor.
    + simpl. unfold N, get_size. lia.
  - rewrite decode_i32s_take' by (unfold N, get_size; lia).
    replace 8%nat with (4 + 4 * 1)%nat by lia.
    rewrite Hdrop by lia. cbn [drop]. rewrite drop_0.
    rewrite decode_i32s_encode; [| done | unfold N, get_size; lia].
    apply take_ge. unfold N, get_size. lia.
  - replace (Z.to_nat (8 + 4 * N)) with (4 + 4 * S (length (ends t)))%nat
      by (unfold N, get_size; lia).
    rewrite Hdrop by lia. cbn [drop]. rewrite drop_all. done.
Qed.

(** X2: unpacking what [StringTensorPack] packed returns the ends and the
    chars up to the last end, and, for the begins, [0] followed by the
    ends but the last: the begins that were packed are not in the buffer.
    The triple has as many begins as ends, [int32_t] ends, a header whose
    size an [int] holds and a last end inside the chars. *)
Theorem unpack_pack t :
  length (begins t) = length (ends t) ->
  Forall Int32.in_range (ends t) ->
  4 + 4 * (get_size (ends t) + 1) <= Int32.max_signed ->
  0 <= last_end t <= get_size (chars t) ->
  (StringTensorPack_evaluate t ≫= StringTensorUnpack_evaluate)
  = Ok (Strings (take (length (ends t)) (0 :: ends t))
                (ends t)
                (take (Z.to_nat (last_end t)) (chars t))).
Proof. apply unpack_pack_Ok. Qed.

Lemma unpack_pack_witness :
  (StringTensorPack_evaluate (Strings [7; 9] [2; 3] [97; 98; 99; 100])
     ≫= StringTensorUnpack_evaluate)
  = Ok (Strings [0; 2] [2; 3] [97; 98; 99]).
Proof.
  apply (unpack_pack (Strings [7; 9] [2; 3] [97; 98; 99; 100])).
  - reflexivity.
  - repeat apply Forall_cons_2; try apply Forall_nil_2;
      unfold Int32.in_range, Int32.min_signed, Int32.max_signed; lia.
  - unfold get_size, Int32.max_signed. simpl. lia.
  - unfold get_size. simpl. lia.
Defined.

Lemma begins_from_shift {A} (ps : list (list A)) start :
  take (length ps) (start :: ends_from start ps) = begins_from start ps.
Proof.
  revert start. induction ps as [|p ps IH]; intros start; [done |].
  cbn [length take ends_from begins_from]. f_equal. apply IH.
Qed.

Lemma last_ends_from {A} (ps : list (list A)) start :
  default start (last (ends_from start ps)) = start + get_size (concat ps).
Proof.
  revert start. induction ps as [|p ps IH]; intros start.
  - simpl. unfold get_size. simpl. lia.
  - cbn [ends_from concat]. rewrite get_size_app, Z.add_assoc, <- IH.
    destruct (ends_from (start + get_size p) ps) as [|a l] eqn:E; [done |].
    change (last (start + get_size p :: a :: l)) with (last (a :: l)).
    destruct (last (a :: l)) eqn:He; [done |]. by apply last_None in He.
Qed.

Lemma ends_from_in_range {A} (ps : list (list A)) start :
  0 <= start -> start + get_size (concat ps) <= Int32.max_signed ->
  Forall Int32.in_range (ends_from start ps).
Proof.
  revert start. induction ps as [|p ps IH]; intros start H0 Hmax;
    [constructor |].
  cbn [ends_from concat] in *. rewrite get_size_app in Hmax.
  pose proof (get_size_nonneg p). pose proof (get_size_nonneg (concat ps)).
  apply Forall_cons; split.
  - unfold Int32.in_range, Int32.min_signed, Int32.max_signed in *. lia.
  - apply IH; lia.
Qed.

(** A triple that lays pieces out without gaps is what unpacking its
    packed form returns. *)
Lemma unpack_pack_layout (ps : list (list Z)) :
  get_size (concat ps) <= Int32.max_signed ->
  4 + 4 * (get_size ps + 1) <= Int32.max_signed ->
  (StringTensorPack_evaluate
     (Strings (begins_from 0 ps) (ends_from 0 ps) (concat ps))
     ≫= StringTensorUnpack_evaluate)
  = Ok (Strings (begins_from 0 ps) (ends_from 0 ps) (concat ps)).
Proof.
  intros Hc Hh.
  rewrite unpack_pack_Ok; cbn [begins ends chars].
  - rewrite length_ends_from, begins_from_shift, last_ends_from.
    rewrite Z.add_0_l. unfold get_size. rewrite Nat2Z.id.
    by rewrite firstn_all.
  - by rewrite length_begins_from, length_ends_from.
  - apply ends_from_in_range; lia.
  - unfold get_size in *. by rewrite length_ends_from.
  - rewrite last_ends_from. pose proof (get_size_nonneg (concat ps)). lia.
Qed.

(** X3: strings decomposed by [unpack_strings] and packed by
    [StringTensorPack], as [translate_const] builds a string constant,
    unpack to the same triple, from which each string reads back. The
    chars and the header have sizes an [int32_t] holds. *)
Theorem packed_constant_unpacks junk (strs : list (list Z)) :
  get_size (concat strs) <= Int32.max_signed ->
  4 + 4 * (get_size strs + 1) <= Int32.max_signed ->
  exists t packed,
    UnpackStrings.unpack_strings junk strs = Ok t
    /\ StringTensorPack_evaluate t = Ok packed
    /\ StringTensorUnpack_evaluate packed = Ok t
    /\ pieces (of_strings t) = Ok strs.
Proof.
  intros Hc Hh.
  pose proof (unpack_pack_layout strs Hc Hh) as H.
  apply bind_Ok in H as (packed & Hp & Hu).
  eexists _, packed. split; [by apply unpack_strings_Ok |].
  split; [done |]. split; [done |]. apply (pieces_layout strs).
Qed.

Lemma packed_constant_unpacks_witness :
  exists t packed,
    UnpackStrings.unpack_strings Examples.no_junk [[97; 98]; [99]] = Ok t
    /\ StringTensorPack_evaluate t = Ok packed
    /\ StringTensorUnpack_evaluate packed = Ok t
    /\ pieces (of_strings t) = Ok [[97; 98]; [99]].
Proof.
  apply (packed_constant_unpacks Examples.no_junk [[97; 98]; [99]]);
    unfold get_size, Int32.max_signed; simpl; lia.
Defined.

End PackUnpack.

(** ** The sparse output of [SentencepieceTokenizer] *)

Section SparseOutput.
Import Packed SentencepieceTokenizer.
Context {float : Type}.
Variable SampleEncode : list Z -> Z -> float -> Status * list Z.
Variables (m_nbest_size : Z) (m_alpha : float).

Local Abbreviation encode_sentence :=
  (SentencepieceTokenizer.encode_sentence SampleEncode m_nbest_size m_alpha).
Local Abbreviation evaluate :=
  (SentencepieceTokenizer.evaluate SampleEncode m_nbest_size m_alpha).

(** The index pairs of row [k] with [n] tokens. *)
Local Abbreviation row_indices k n :=
  (flat_map (fun token_id => [k; token_id]) (seqZ 0 n)).

Lemma encode_sentence_inv packed h k a a' :
  encode_sentence packed h k a = Ok a' ->
  exists s ids,
    sentence packed h k = Ok s
    /\ SampleEncode s m_nbest_size m_alpha = (StatusOk, ids)
    /\ acc_indices a' = acc_indices a ++ row_indices k (get_size ids)
    /\ acc_values a' = acc_values a ++ map Int32.wrap ids
    /\ max_token_id a' = Z.max (max_token_id a) (get_size ids).
Proof.
  unfold SentencepieceTokenizer.encode_sentence. intros H.
  apply bind_Ok in H as (s & Hs & H).
  destruct (SampleEncode s m_nbest_size m_alpha) as [status ids] eqn:Henc.
  destruct status; [| discriminate]. cbn in H. simplify_eq.
  exists s, ids. cbn [acc_indices acc_values max_token_id].
  split_and!; try done. case_bool_decide; lia.
Qed.

Lemma foldr_max_snoc (l : list Z) (x : Z) :
  0 <= x -> foldr Z.max 0 (l ++ [x]) = Z.max (foldr Z.max 0 l) x.
Proof.
  intros Hx. induction l as [|a l IH]; simpl; [lia |]. rewrite IH. lia.
Qed.

Lemma encoded_batch packed h a :
  for_range 0 (size_t_of_int (batch_size h)) (encode_sentence packed h)
    (Acc [] [] 0) = Ok a ->
  exists idss,
    Forall2 (fun k ids => exists s,
               sentence packed h k = Ok s
               /\ SampleEncode s m_nbest_size m_alpha = (StatusOk, ids))
            (seqZ 0 (size_t_of_int (batch_size h))) idss
    /\ acc_values a = Int32.wrap <$> concat idss
    /\ acc_indices a
       = concat (imap (fun k ids => row_indices (Z.of_nat k) (get_size ids))
                      idss)
    /\ max_token_id a = foldr Z.max 0 (get_size <$> idss).
Proof.
  intros Hloop.
  assert (Hn : 0 <= size_t_of_int (batch_size h)).
  { unfold size_t_of_int. apply Z.mod_pos_bound. lia. }
  revert Hloop.
  apply (for_range_invariant
           (fun k a => exists idss,
              Forall2 (fun k ids => exists s,
                         sentence packed h k = Ok s
                         /\ SampleEncode s m_nbest_size m_alpha
                            = (StatusOk, ids))
                      (seqZ 0 k) idss
              /\ acc_values a = Int32.wrap <$> concat idss
              /\ acc_indices a
                 = concat (imap (fun k ids =>
                                   row_indices (Z.of_nat k) (get_size ids))
                                idss)
              /\ max_token_id a = foldr Z.max 0 (get_size <$> idss)));
    [done | |].
  - intros k t t' Hk (idss & Hall & Hv & Hi & Hm) Hbody.
    apply encode_sentence_inv in Hbody
      as (s & ids & Hs & Henc & Hi' & Hv' & Hm').
    pose proof (Forall2_length _ _ _ Hall) as Hlen.
    rewrite length_seqZ in Hlen.
    exists (idss ++ [ids]). split_and!.
    + rewrite seqZ_app by lia. apply Forall2_app; [done |].
      rewrite Z.add_0_l. change (seqZ k 1) with [k].
      constructor; [eauto | constructor].
    + rewrite Hv', Hv, concat_app, fmap_app. simpl. by rewrite app_nil_r.
    + rewrite Hi', Hi, imap_app, concat_app. simpl.
      rewrite app_nil_r, Nat.add_0_r.
      replace (Z.of_nat (length idss)) with k by lia. done.
    + rewrite Hm', Hm, fmap_app. simpl.
      rewrite foldr_max_snoc by apply get_size_nonneg. done.
  - exists []. split_and!; try done.
Qed.

(** X4: when [evaluate] completes, every sentence of the batch was
    encoded, the values are the ids of the sentences one after the other,
    the indices are the pairs (sentence, position in the sentence) of the
    values in the same order, and the dense shape is the batch size and
    the length of the longest row. *)
Theorem sparse_output packed h out :
  parse_packed_strings packed = Ok h ->
  evaluate packed = Ok out ->
  exists idss,
    Forall2 (fun k ids => exists s,
               sentence packed h k = Ok s
               /\ SampleEncode s m_nbest_size m_alpha = (StatusOk, ids))
            (seqZ 0 (size_t_of_int (batch_size h))) idss
    /\ sparse_values out = Int32.wrap <$> concat idss
    /\ sparse_indices out
       = concat (imap (fun k ids => row_indices (Z.of_nat k) (get_size ids))
                      idss)
    /\ sparse_dense_shape out
       = [batch_size h; foldr Z.max 0 (get_size <$> idss)].
Proof.
  intros Hh H. unfold SentencepieceTokenizer.evaluate in H. rewrite Hh in H.
  cbn [mbind result_bind] in H. apply bind_Ok in H as (a & Hloop & H).
  simplify_eq. cbn [sparse_values sparse_indices sparse_dense_shape].
  destruct (encoded_batch _ _ _ Hloop) as (idss & Hall & Hv & Hi & Hm).
  exists idss. by rewrite Hm.
Qed.

Lemma row_indices_lookup k (l : list Z) (n : nat) r :
  flat_map (fun token_id => [k; token_id]) l !! (2 * n)%nat = Some r ->
  r = k /\ exists c,
    l !! n = Some c
    /\ flat_map (fun token_id => [k; token_id]) l !! S (2 * n) = Some c.
Proof.
  revert n. induction l as [|x l IH]; intros n H; [done |].
  destruct n as [|n].
  - simpl in H. simplify_eq. split; [done |]. by exists x.
  - replace (2 * S n)%nat with (S (S (2 * n))) in * by lia.
    cbn [flat_map app lookup list_lookup] in *. by apply IH.
Qed.

Lemma sparse_invariant packed h a :
  for_range 0 (size_t_of_int (batch_size h)) (encode_sentence packed h)
    (Acc [] [] 0) = Ok a ->
  length (acc_indices a) = (2 * length (acc_values a))%nat
  /\ forall (n : nat) r c,
       acc_indices a !! (2 * n)%nat = Some r ->
       acc_indices a !! S (2 * n) = Some c ->
       0 <= r < size_t_of_int (batch_size h) /\ 0 <= c < max_token_id a.
Proof.
  intros Hloop.
  assert (Hn : 0 <= size_t_of_int (batch_size h)).
  { unfold size_t_of_int. apply Z.mod_pos_bound. lia. }
  revert Hloop.
  apply (for_range_invariant
           (fun k a =>
              length (acc_indices a) = (2 * length (acc_values a))%nat
              /\ forall (n : nat) r c,
                   acc_indices a !! (2 * n)%nat = Some r ->
                   acc_indices a !! S (2 * n) = Some c ->
                   0 <= r < k /\ 0 <= c < max_token_id a));
    [done | |].
  - intros k t t' Hk (Hlen & Hin) Hbody.
    apply encode_sentence_inv in Hbody
      as (s & ids & Hs & Henc & Hi' & Hv' & Hm').
    assert (Hrow : length (row_indices k (get_size ids))
                   = (2 * length ids)%nat).
    { rewrite <- (Nat2Z.id (length ids)), <- (length_seqZ 0).
      fold (get_size ids). generalize (seqZ 0 (get_size ids)).
      intros l. induction l; simpl; lia. }
    split.
    + rewrite Hi', Hv', !length_app, length_map, Hrow. lia.
    + intros n r c Hr Hc. rewrite Hi' in Hr, Hc. rewrite Hm'.
      destruct (decide (n < length (acc_values t))%nat) as [Hlt | Hge].
      * rewrite lookup_app_l in Hr by lia. rewrite lookup_app_l in Hc by lia.
        destruct (Hin n r c Hr Hc). lia.
      * rewrite lookup_app_r in Hr by lia. rewrite lookup_app_r in Hc by lia.
        rewrite Hlen in Hr, Hc.
        replace (2 * n - 2 * length (acc_values t))%nat
          with (2 * (n - length (acc_values t)))%nat in Hr by lia.
        replace (S (2 * n) - 2 * length (acc_values t))%nat
          with (S (2 * (n - length (acc_values t)))) in Hc by lia.
        apply row_indices_lookup in Hr as (-> & c' & Hc' & Hc'').
        rewrite Hc'' in Hc. simplify_eq.
        apply lookup_seqZ in Hc' as [-> Hb]. lia.
  - split; [done |]. intros n r c Hr. cbn [acc_indices] in Hr. by destruct n.
Qed.

(** X5: the sparse output is well formed: there is one index pair for
    each value, and every pair lies inside the dense shape, its row below
    the number of sentences the loop ran over and its column below the
    second dimension. *)
Theorem sparse_output_in_shape packed h out :
  parse_packed_strings packed = Ok h ->
  evaluate packed = Ok out ->
  length (sparse_indices out) = (2 * length (sparse_values out))%nat
  /\ exists rows cols,
       sparse_dense_shape out = [rows; cols]
       /\ rows = batch_size h
       /\ forall (n : nat) r c,
            sparse_indices out !! (2 * n)%nat = Some r ->
            sparse_indices out !! S (2 * n) = Some c ->
            0 <= r < size_t_of_int rows /\ 0 <= c < cols.
Proof.
  intros Hh H. unfold SentencepieceTokenizer.evaluate in H. rewrite Hh in H.
  cbn [mbind result_bind] in H. apply bind_Ok in H as (a & Hloop & H).
  simplify_eq. cbn [sparse_values sparse_indices sparse_dense_shape].
  destruct (sparse_invariant _ _ _ Hloop) as [Hlen Hin].
  split; [done |]. by eexists _, _.
Qed.

End SparseOutput.

Section SparseOutputExamples.
Import Packed SentencepieceTokenizer Examples.

Lemma sparse_output_witness :
  exists idss,
    Forall2 (fun k ids => exists s,
               sentence packed_ab_c (Header 2 4 8 16) k = Ok s
               /\ encodes_bytes s 0 tt = (StatusOk, ids))
            (seqZ 0 (size_t_of_int 2)) idss
    /\ Int32.wrap <$> [97; 98; 99] = Int32.wrap <$> concat idss
    /\ [0; 0; 0; 1; 1; 0]
       = concat (imap (fun k ids =>
                         flat_map (fun token_id => [Z.of_nat k; token_id])
                                  (seqZ 0 (get_size ids)))
                      idss)
    /\ [2; 2] = [2; foldr Z.max 0 (get_size <$> idss)].
Proof.
  apply (sparse_output encodes_bytes 0 tt packed_ab_c (Header 2 4 8 16)
           (Sparse [0; 0; 0; 1; 1; 0] [97; 98; 99] [2; 2]));
    reflexivity.
Defined.

Lemma sparse_output_in_shape_witness :
  length [0; 0; 0; 1; 1; 0] = (2 * length [97; 98; 99])%nat
  /\ exists rows cols,
       [2; 2] = [rows; cols]
       /\ rows = 2
       /\ forall (n : nat) r c,
            [0; 0; 0; 1; 1; 0] !! (2 * n)%nat = Some r ->
            [0; 0; 0; 1; 1; 0] !! S (2 * n) = Some c ->
            0 <= r < size_t_of_int rows /\ 0 <= c < cols.
Proof.
  apply (sparse_output_in_shape encodes_bytes 0 tt packed_ab_c
           (Header 2 4 8 16)
           (Sparse [0; 0; 0; 1; 1; 0] [97; 98; 99] [2; 2]));
    reflexivity.
Defined.

End SparseOutputExamples.

(** ** The normalizers *)

Section NormalizationMaps.
Import Normalization Layout.
Variable junk : nat -> nat -> Z.

Section Helper.
Variable normalizer : list Z -> list Z.

Local Abbreviation string_at inputs :=
  (piece (begins inputs) (ends inputs) (chars inputs)).

Lemma normalize_one_inv inputs i s s' :
  normalize_one normalizer inputs i s = Ok s' ->
  True /\ 0 <= i < get_size (new_begins s) /\ i < get_size (new_ends s)
  /\ new_begins s'
     = <[Z.to_nat i := Int32.wrap (get_size (buffer s))]> (new_begins s)
  /\ new_ends s'
     = <[Z.to_nat i := Int32.wrap (get_size (buffer s'))]> (new_ends s)
  /\ exists str, string_at inputs i = Ok str
                 /\ buffer s' = buffer s ++ normalizer str.
Proof.
  unfold normalize_one, piece. intros H.
  apply bind_Ok in H as (nb & Hnb & H).
  apply bind_Ok in H as (b & Hb & H).
  apply bind_Ok in H as (e & He & H).
  apply bind_Ok in H as (str & Hstr & H).
  apply bind_Ok in H as (ne & Hne & H).
  apply write_Ok in Hnb as [Hi ->]. apply write_Ok in Hne as [Hi' ->].
  simplify_eq. cbn [new_begins new_ends buffer].
  split_and!; try done; try lia.
  exists str. rewrite Hb, He. done.
Qed.

Lemma normalize_one_runs inputs i s str :
  0 <= i < get_size (new_begins s) -> i < get_size (new_ends s) ->
  string_at inputs i = Ok str ->
  exists s', normalize_one normalizer inputs i s = Ok s'
             /\ length (new_begins s') = length (new_begins s)
             /\ length (new_ends s') = length (new_ends s).
Proof.
  intros Hi Hi' Hstr. unfold piece in Hstr.
  apply bind_Ok in Hstr as (b & Hb & Hstr).
  apply bind_Ok in Hstr as (e & He & Hstr).
  unfold normalize_one. rewrite write_in_range by done.
  cbn [mbind result_bind]. rewrite Hb, He. cbn [mbind result_bind].
  rewrite Hstr. cbn [mbind result_bind].
  rewrite write_in_range by (cbn [new_ends]; lia).
  cbn [mbind result_bind]. eexists. split; [done |].
  cbn [new_begins new_ends]. by rewrite !length_insert.
Qed.

Lemma flat_map_concat_fmap {A B} (f : A -> list B) l :
  flat_map f l = concat (f <$> l).
Proof. induction l; simpl; [done | by f_equal]. Qed.

(** What the helper returns on strings that can be read. *)
Lemma normalization_helper_Ok inputs strs :
  length (begins inputs) = length (ends inputs) ->
  pieces (of_strings inputs) = Ok strs ->
  get_size (concat (normalizer <$> strs)) <= Int32.max_signed ->
  evaluate_normalization_helper junk normalizer inputs
  = Ok (Strings (begins_from 0 (normalizer <$> strs))
                (ends_from 0 (normalizer <$> strs))
                (concat (normalizer <$> strs))).
Proof.
  intros Hlen Hstrs Hmax. unfold pieces, of_strings in Hstrs.
  cbn [r_begins r_ends r_elems] in Hstrs.
  unfold evaluate_normalization_helper.
  set (n := length (begins inputs)) in *.
  set (s0 := State _ _ _).
  destruct (for_range_runs
              (fun t => length (new_begins t) = n
                        /\ length (new_ends t) = n)
              (string_at inputs) (normalize_one normalizer inputs)
              (get_size (begins inputs)) s0 strs)
    as (s & Hloop & _); [| | done |].
  { intros i t x Hi [Hb He] Hx.
    destruct (normalize_one_runs inputs i t x) as (t' & Ht' & Hb' & He');
      [unfold get_size in *; lia | unfold get_size in *; lia | done |].
    exists t'. split; [done |]. split; congruence. }
  { cbn [s0 new_begins new_ends]. rewrite !length_uninitialized.
    split; [done | by rewrite <- Hlen]. }
  rewrite Hloop. cbn [mbind result_bind].
  destruct (for_range_appends
              (fun t => True) buffer (string_at inputs) normalizer
              (normalize_one normalizer inputs) 0
              (get_size (begins inputs)) s0 s)
    as (_ & xs0 & Hxs0 & Hbuf0); [| done | exact Hloop |].
  { intros k t t' _ Hb. split; [done |].
    by apply normalize_one_inv in Hb as (_ & _ & _ & _ & _ & Hb). }
  rewrite Z.sub_0_r in Hxs0.
  assert (xs0 = strs) as -> by congruence.
  cbn [s0 buffer app] in Hbuf0. rewrite flat_map_concat_fmap in Hbuf0.
  destruct (layout_loop
              (fun t => True) new_begins new_ends buffer
              (string_at inputs) normalizer
              (normalize_one normalizer inputs)
              (fun i t t' _ => normalize_one_inv inputs i t t')
              n s0 s Hloop)
    as (_ & xs & Hxs & Hnb & Hne & Hbuf);
    [done | done | apply length_uninitialized
     | by cbn [s0 new_ends]; rewrite length_uninitialized, <- Hlen
     | by rewrite Hbuf0 |].
  change (Z.of_nat n) with (get_size (begins inputs)) in Hxs.
  assert (xs = strs) as -> by congruence. by rewrite Hnb, Hne, Hbuf.
Qed.

Lemma normalization_helper_reads inputs out :
  evaluate_normalization_helper junk normalizer inputs = Ok out ->
  exists strs, pieces (of_strings inputs) = Ok strs.
Proof.
  intros H. unfold evaluate_normalization_helper in H.
  apply bind_Ok in H as (s & Hloop & _).
  set (s0 := State _ _ _) in Hloop.
  destruct (for_range_appends
              (fun t => True) buffer (string_at inputs) normalizer
              (normalize_one normalizer inputs) 0
              (get_size (begins inputs)) s0 s)
    as (_ & xs0 & Hxs0 & _); [| done | exact Hloop |].
  { intros k t t' _ Hb. split; [done |].
    by apply normalize_one_inv in Hb as (_ & _ & _ & _ & _ & Hb). }
  rewrite Z.sub_0_r in Hxs0. by exists xs0.
Qed.

(** X6: [evaluate_normalization_helper] maps the normalizer over the
    strings: when the input strings can be read, the output is the
    normalized strings laid out one after the other without gaps, and
    when the strings cannot all be read the helper does not complete.
    The begins and ends have the same number of elements and the output
    chars a size an [int32_t] offset holds. *)
Theorem normalization_maps_strings inputs :
  length (begins inputs) = length (ends inputs) ->
  (forall strs,
      pieces (of_strings inputs) = Ok strs ->
      get_size (concat (normalizer <$> strs)) <= Int32.max_signed ->
      exists out,
        evaluate_normalization_helper junk normalizer inputs = Ok out
        /\ of_strings out = layout (normalizer <$> strs)
        /\ pieces (of_strings out) = Ok (normalizer <$> strs))
  /\ (forall out,
        evaluate_normalization_helper junk normalizer inputs = Ok out ->
        exists strs, pieces (of_strings inputs) = Ok strs).
Proof.
  intros Hlen. split.
  - intros strs Hstrs Hmax. eexists.
    split; [by apply normalization_helper_Ok |]. split; [done |].
    apply (pieces_layout (normalizer <$> strs)).
  - apply normalization_helper_reads.
Qed.

End Helper.

Section Callers.
Variable Lowercase : list Z -> list Z.
Variables NFD NFC NFKD NFKC : list Z -> list Z.
Variable Replace : list Z -> list Z -> list Z -> list Z.

(** X7: [NormalizeUnicode] applies the normalizer of its form, and only
    the four forms NFD, NFC, NFKD and NFKC select one: with any other
    form the lookup throws and nothing is output. *)
Theorem normalization_forms form inputs :
  (form = "NFD"%string ->
     NormalizeUnicode_evaluate junk NFD NFC NFKD NFKC form inputs
     = evaluate_normalization_helper junk NFD inputs)
  /\ (form = "NFC"%string ->
     NormalizeUnicode_evaluate junk NFD NFC NFKD NFKC form inputs
     = evaluate_normalization_helper junk NFC inputs)
  /\ (form = "NFKD"%string ->
     NormalizeUnicode_evaluate junk NFD NFC NFKD NFKC form inputs
     = evaluate_normalization_helper junk NFKD inputs)
  /\ (form = "NFKC"%string ->
     NormalizeUnicode_evaluate junk NFD NFC NFKD NFKC form inputs
     = evaluate_normalization_helper junk NFKC inputs)
  /\ (form <> "NFD"%string -> form <> "NFC"%string ->
      form <> "NFKD"%string -> form <> "NFKC"%string ->
      NormalizeUnicode_evaluate junk NFD NFC NFKD NFKC form inputs
      = Err OutOfBounds).
Proof.
  split_and!; try (intros ->; reflexivity).
  intros H1 H2 H3 H4. unfold NormalizeUnicode_evaluate, normalizers.
  cbn [list_to_map foldr uncurry].
  rewrite !lookup_insert_ne by done. by rewrite lookup_empty.
Qed.

Lemma strip_padding (v : list Z) :
  get_size v < 2 ^ 64 ->
  read_range (v ++ [32]) 0 (size_t_of_int (get_size (v ++ [32]) - 1))
  = Ok v.
Proof.
  intros Hv. pose proof (get_size_nonneg v).
  rewrite get_size_app. change (get_size [32]) with 1.
  replace (get_size v + 1 - 1) with (get_size v) by lia.
  rewrite size_t_of_int_nonneg by lia.
  unfold read_range. case_bool_decide as H0.
  - f_equal. symmetry. apply length_zero_iff_nil.
    unfold get_size in H0. lia.
  - rewrite bool_decide_eq_true_2
      by (rewrite get_size_app; change (get_size [32]) with 1; lia).
    f_equal. change (Z.to_nat 0) with 0%nat. rewrite drop_0.
    unfold get_size. rewrite Nat2Z.id. by rewrite take_app_length.
Qed.

(** X8: the patterns [translate_static_regex_replace] passes on, padded
    with a space by [string_attribute_to_constant], reach [Replace]
    without the space, as [RegexNormalization] drops the last byte of
    each pattern tensor; a search pattern tensor with no element makes
    it read [size_t(-1)] bytes, which are not there, and nothing is
    output. The patterns have lengths a [size_t] holds. *)
Theorem regex_patterns_unpadded pattern rewrite inputs :
  get_size pattern < 2 ^ 64 -> get_size rewrite < 2 ^ 64 ->
  RegexNormalization_evaluate junk Replace inputs
    (Translate.string_attribute_to_constant pattern)
    (Translate.string_attribute_to_constant rewrite)
  = evaluate_normalization_helper junk (Replace pattern rewrite) inputs
  /\ RegexNormalization_evaluate junk Replace inputs []
       (Translate.string_attribute_to_constant rewrite)
     = Err OutOfBounds.
Proof.
  intros Hp Hr. split; [| reflexivity].
  unfold RegexNormalization_evaluate,
    Translate.string_attribute_to_constant.
  rewrite !strip_padding by done. done.
Qed.

End Callers.
End NormalizationMaps.

Section NormalizationExamples.
Import Normalization Layout Examples.

Lemma normalization_maps_strings_witness :
  exists out,
    evaluate_normalization_helper no_junk twice strings_ab_c = Ok out
    /\ of_strings out = layout (twice <$> [[97; 98]; [99]])
    /\ pieces (of_strings out) = Ok (twice <$> [[97; 98]; [99]]).
Proof.
  apply (proj1 (normalization_maps_strings no_junk twice strings_ab_c
                  eq_refl) [[97; 98]; [99]]).
  - reflexivity.
  - unfold get_size, Int32.max_signed. simpl. lia.
Defined.

Lemma normalization_forms_witness :
  NormalizeUnicode_evaluate no_junk twice id id id "NFD" strings_ab_c
  = evaluate_normalization_helper no_junk twice strings_ab_c
  /\ NormalizeUnicode_evaluate no_junk twice id id id "nfd" strings_ab_c
     = Err OutOfBounds.
Proof.
  split.
  - apply (proj1 (normalization_forms no_junk twice id id id "NFD"
                    strings_ab_c)).
    reflexivity.
  - apply (proj2 (proj2 (proj2 (proj2
             (normalization_forms no_junk twice id id id "nfd"
                strings_ab_c)))));
      discriminate.
Defined.

Lemma regex_patterns_unpadded_witness :
  RegexNormalization_evaluate no_junk (fun _ _ => twice) strings_ab_c
    (Translate.string_attribute_to_constant [97])
    (Translate.string_attribute_to_constant [])
  = evaluate_normalization_helper no_junk twice strings_ab_c
  /\ RegexNormalization_evaluate no_junk (fun _ _ => twice) strings_ab_c []
       (Translate.string_attribute_to_constant [])
     = Err OutOfBounds.
Proof.
  apply (regex_patterns_unpadded no_junk (fun _ _ => twice) [97] []
           strings_ab_c);
    unfold get_size; simpl; lia.
Defined.

End NormalizationExamples.

(** ** The loop of [WordpieceTokenizer] and [BPETokenizer] *)

Section TokensLayout.
Import Tokens Layout.
Variable Tokenize : list Z -> list Z.

(** The ids stored so far. *)
Local Abbreviation written s := (take (Z.to_nat (offset s)) (new_elems s)).
(** The offset is inside an output of at most [INT32_MAX] elements. *)
Local Abbreviation inside s :=
  (0 <= offset s <= get_size (new_elems s)
   /\ get_size (new_elems s) <= Int32.max_signed).
Local Abbreviation word_at r :=
  (piece (rs_begins r) (rs_ends r) (rs_chars r)).
Local Abbreviation ids_of row := (Int32.wrap <$> flat_map Tokenize row).

Lemma get_size_written s : inside s -> get_size (written s) = offset s.
Proof.
  intros [H _]. unfold get_size in *. rewrite length_take. lia.
Qed.

Lemma put_token_appends id s s' :
  inside s -> put_token id s = Ok s' ->
  inside s' /\ new_begins s' = new_begins s /\ new_ends s' = new_ends s
  /\ written s' = written s ++ [Int32.wrap id].
Proof.
  intros [Ho Hm] H. unfold put_token in H.
  apply bind_Ok in H as (? & Hc & H).
  apply check_Ok_inv, bool_decide_eq_true in Hc.
  apply bind_Ok in H as (ne & Hne & H).
  apply write_Ok in Hne as [Hi ->]. simplify_eq.
  cbn [new_begins new_ends new_elems offset].
  unfold Int32.max_signed in *.
  assert (Hadd : Int32.add (offset s) 1 = offset s + 1).
  { unfold Int32.add. apply wrap_in_range.
    unfold Int32.in_range, Int32.min_signed, Int32.max_signed. lia. }
  rewrite Hadd. unfold get_size in *. rewrite length_insert.
  split_and!; try done; try lia.
  replace (Z.to_nat (offset s + 1)) with (S (Z.to_nat (offset s))) by lia.
  erewrite take_S_r by (apply list_lookup_insert_eq; lia).
  by rewrite take_insert_ge by lia.
Qed.

Lemma tokenize_word_appends r i s s' :
  inside s -> tokenize_word Tokenize r i s = Ok s' ->
  inside s' /\ new_begins s' = new_begins s /\ new_ends s' = new_ends s
  /\ exists str, word_at r i = Ok str
                 /\ written s' = written s ++ (Int32.wrap <$> Tokenize str).
Proof.
  intros Hin H. unfold tokenize_word in H.
  apply bind_Ok in H as (b & Hb & H).
  apply bind_Ok in H as (e & He & H).
  apply bind_Ok in H as (str & Hstr & H).
  destruct (for_each_appends
              (fun t => inside t /\ new_begins t = new_begins s
                        /\ new_ends t = new_ends s)
              (fun t => written t) (fun id => [Int32.wrap id])
              put_token (Tokenize str) s s')
    as ((Hin' & Hnb & Hne) & Hw); [| done | done |].
  - intros id t t' (Ht & Hnb & Hne) Hput.
    apply put_token_appends in Hput as (Ht' & -> & -> & Hw); done.
  - split; [done |]. split; [done |]. split; [done |].
    exists str. unfold piece.
    rewrite Hb, He. split; [done |]. rewrite Hw. f_equal.
Qed.

Lemma ids_of_flat_map row :
  flat_map (fun str => Int32.wrap <$> Tokenize str) row = ids_of row.
Proof.
  induction row as [|str row IH]; [done |]. cbn [flat_map].
  by rewrite fmap_app, IH.
Qed.

Lemma tokenize_row_appends r j s s' :
  inside s -> tokenize_row Tokenize r j s = Ok s' ->
  inside s' /\ 0 <= j < get_size (new_begins s) /\ j < get_size (new_ends s)
  /\ new_begins s'
     = <[Z.to_nat j := Int32.wrap (get_size (written s))]> (new_begins s)
  /\ new_ends s'
     = <[Z.to_nat j := Int32.wrap (get_size (written s'))]> (new_ends s)
  /\ exists words, row r j = Ok words
                   /\ written s' = written s ++ ids_of words.
Proof.
  intros Hin H. unfold tokenize_row in H.
  apply bind_Ok in H as (nb & Hnb & H).
  apply bind_Ok in H as (rb & Hrb & H).
  apply bind_Ok in H as (re & Hre & H).
  apply bind_Ok in H as (t & Hloop & H).
  apply bind_Ok in H as (ne & Hne & H).
  apply write_Ok in Hnb as [Hj ->]. simplify_eq.
  set (t0 := State _ _ _ _) in Hloop.
  destruct (for_range_appends
              (fun u => inside u /\ new_begins u = new_begins t0
                        /\ new_ends u = new_ends t0)
              (fun u => written u) (word_at r)
              (fun str => Int32.wrap <$> Tokenize str)
              (tokenize_word Tokenize r)
              (size_t_of_int rb) (size_t_of_int re) t0 t)
    as ((Hin' & Hb & He) & words & Hwords & Hw);
    [| done | exact Hloop |].
  { intros k u u' (Hu & Hb & He) Hword.
    apply tokenize_word_appends in Hword as (Hu' & -> & -> & Hstr);
      done. }
  apply write_Ok in Hne as [Hj' ->].
  cbn [new_begins new_ends new_elems offset t0] in *.
  assert (Hwrap : forall u, inside u ->
             Int32.wrap (get_size (written u)) = offset u).
  { intros u Hu. rewrite get_size_written by done. apply wrap_in_range.
    unfold Int32.in_range, Int32.min_signed, Int32.max_signed in *. lia. }
  rewrite (Hwrap s Hin), (Hwrap t Hin'), Hb, He in *.
  split; [done |]. split; [lia |]. split; [lia |].
  split; [done |]. split; [done |].
  exists words. unfold row. rewrite Hrb, Hre. cbn [mbind result_bind].
  split; [done |]. by rewrite Hw, ids_of_flat_map.
Qed.

(** What the loop returns, in terms of the words of the rows. *)
Lemma tokenize_rows_Ok junk r out :
  length (ragged_begins r) = length (ragged_ends r) ->
  get_size (rs_chars r) <= Int32.max_signed ->
  tokenize_rows Tokenize junk r = Ok out ->
  exists rws,
    rows r = Ok rws
    /\ out = layout ((fun words => ids_of words) <$> rws)
    /\ get_size (r_elems out) <= Int32.max_signed.
Proof.
  intros Hlen Hmax H. unfold tokenize_rows in H.
  apply bind_Ok in H as (s & Hloop & H).
  apply bind_Ok in H as (? & _ & H). simplify_eq.
  set (s0 := State _ _ _ _) in Hloop.
  assert (Hin0 : inside s0).
  { cbn [s0 offset new_elems]. unfold get_size in *.
    rewrite length_uninitialized. lia. }
  assert (Hins : inside s).
  { revert Hloop. apply (for_range_preserves (fun t => inside t)); [| done].
    intros k t t' Ht Hrow.
    by apply tokenize_row_appends in Hrow as [Ht' _]. }
  destruct (layout_loop
              (fun t => inside t) new_begins new_ends (fun t => written t)
              (row r) (fun words => ids_of words)
              (tokenize_row Tokenize r) (tokenize_row_appends r)
              (length (ragged_begins r)) s0 s Hloop)
    as (Hin & rws & Hrws & Hnb & Hne & Hbuf).
  - done.
  - done.
  - apply length_uninitialized.
  - cbn [s0 new_ends]. by rewrite length_uninitialized.
  - cbn beta. unfold get_size in *. rewrite length_take. lia.
  - exists rws. split; [done |]. cbn [r_elems].
    split; [unfold layout; by rewrite Hnb, Hne, Hbuf |].
    destruct Hins as [Ho Hm]. unfold get_size in *. rewrite length_take.
    lia.
Qed.

End TokensLayout.

(** ** The vocabulary and the merges *)

Section VocabLoop.
Import Layout.
Context {St : Type}.
Variables (voc : St -> gmap (list Z) Z) (src : Z -> result (list Z)).
Variable body : Z -> St -> result St.

(** Iteration [id] reads a token and stores [vocab[token] = int32_t(id)]. *)
Hypothesis step : forall id t t',
  body id t = Ok t' ->
  exists token, src id = Ok token
                /\ voc t' = <[token := Int32.wrap id]> (voc t).

Lemma vocab_loop n s s' :
  0 <= n -> voc s = ∅ -> for_range 0 n body s = Ok s' ->
  exists tokens,
    collect src (seqZ 0 n) = Ok tokens
    /\ (forall t, voc s' !! t = None <-> t ∉ tokens)
    /\ (forall (k : nat) t,
          tokens !! k = Some t ->
          (forall k', (k < k')%nat -> tokens !! k' <> Some t) ->
          voc s' !! t = Some (Int32.wrap (Z.of_nat k))).
Proof.
  intros Hn Hs Hloop.
  cut (exists tokens,
          Forall2 (fun i tok => src i = Ok tok) (seqZ 0 n) tokens
          /\ (forall t, voc s' !! t = None <-> t ∉ tokens)
          /\ (forall (k : nat) t,
                tokens !! k = Some t ->
                (forall k', (k < k')%nat -> tokens !! k' <> Some t) ->
                voc s' !! t = Some (Int32.wrap (Z.of_nat k)))).
  { intros (tokens & H & ?). exists tokens. by rewrite collect_Forall2. }
  revert Hloop.
  apply (for_range_invariant
           (fun k u => exists tokens,
              Forall2 (fun i tok => src i = Ok tok) (seqZ 0 k) tokens
              /\ (forall t, voc u !! t = None <-> t ∉ tokens)
              /\ (forall (j : nat) t,
                    tokens !! j = Some t ->
                    (forall j', (j < j')%nat -> tokens !! j' <> Some t) ->
                    voc u !! t = Some (Int32.wrap (Z.of_nat j)))));
    [done | |].
  - intros k u u' Hk (tokens & Hall & Hnone & Hlast) Hbody.
    apply step in Hbody as (token & Htoken & Hvoc).
    pose proof (Forall2_length _ _ _ Hall) as Hlen.
    rewrite length_seqZ in Hlen.
    exists (tokens ++ [token]). split_and!.
    + rewrite seqZ_app by lia. apply Forall2_app; [done |].
      rewrite Z.add_0_l. change (seqZ k 1) with [k].
      constructor; [done | constructor].
    + intros t. rewrite Hvoc, lookup_insert_None, Hnone.
      rewrite elem_of_app, list_elem_of_singleton. intuition congruence.
    + intros j t Hj Hlater. rewrite Hvoc.
      destruct (decide (j < length tokens)%nat) as [Hlt | Hge].
      * rewrite lookup_app_l in Hj by done.
        assert (token <> t).
        { intros ->. apply (Hlater (length tokens) Hlt).
          rewrite lookup_app_r, Nat.sub_diag by lia. done. }
        rewrite lookup_insert_ne by done. apply Hlast; [done |].
        intros j' Hj' Hk'. apply (Hlater j' Hj').
        by apply lookup_app_l_Some.
      * rewrite lookup_app_r in Hj by lia.
        destruct (j - length tokens)%nat as [|d] eqn:Hd; [| done].
        cbn in Hj. simplify_eq. rewrite lookup_insert_eq.
        do 2 f_equal. lia.
  - exists []. split_and!.
    + constructor.
    + intros t. rewrite Hs, lookup_empty. set_solver.
    + intros j t Hj. done.
Qed.

End VocabLoop.

Section Tokenizers.
Import Tokens Layout.
Variable junk : nat -> nat -> Z.

Local Abbreviation token_at vocab :=
  (piece (begins vocab) (ends vocab) (chars vocab)).

(** Token [k] of a vocabulary of at most [INT32_MAX] tokens has the id
    [k]. *)
Lemma vocab_ids (tokens : list (list Z)) (m : gmap (list Z) Z) :
  get_size tokens <= Int32.max_signed ->
  (forall (k : nat) t,
      tokens !! k = Some t ->
      (forall k', (k < k')%nat -> tokens !! k' <> Some t) ->
      m !! t = Some (Int32.wrap (Z.of_nat k))) ->
  forall (k : nat) t,
    tokens !! k = Some t ->
    (forall k', (k < k')%nat -> tokens !! k' <> Some t) ->
    m !! t = Some (Z.of_nat k).
Proof.
  intros Hmax H k t Hk Hlater. rewrite (H k t Hk Hlater). f_equal.
  apply wrap_in_range. apply lookup_lt_Some in Hk.
  unfold get_size, Int32.in_range, Int32.min_signed, Int32.max_signed in *.
  lia.
Qed.

Lemma collect_length {X B} (f : X -> result B) l ys :
  collect f l = Ok ys -> length ys = length l.
Proof.
  intros H. apply collect_Forall2 in H. symmetry.
  by eapply Forall2_length.
Qed.

Section Wordpiece.
Import WordpieceTokenizer.
Variable FastWordPiece :
  Vocab -> list Z -> Z -> list Z -> bool -> list Z -> list Z.
Variables (m_suffix_indicator : list Z) (m_max_bytes_per_word : Z).

Lemma read_vocab_inv vocab unk id acc acc' :
  read_vocab vocab unk id acc = Ok acc' ->
  exists token,
    token_at vocab id = Ok token
    /\ acc'.1 = <[token := Int32.wrap id]> acc.1
    /\ acc'.2 = if bool_decide (id = size_t_of_int unk)
                then token else acc.2.
Proof.
  unfold read_vocab, piece. intros H.
  apply bind_Ok in H as (b & Hb & H).
  apply bind_Ok in H as (e & He & H).
  apply bind_Ok in H as (token & Htoken & H). simplify_eq.
  exists token. rewrite Hb, He. done.
Qed.

(** The unknown token after the loop over the vocabulary: the token
    whose index is [unk_token_id] as a [size_t], or the empty string. *)
Lemma unk_token_loop vocab unk n acc tokens :
  0 <= n ->
  for_range 0 n (read_vocab vocab unk) (∅, []) = Ok acc ->
  collect (token_at vocab) (seqZ 0 n) = Ok tokens ->
  acc.2 = if bool_decide (size_t_of_int unk < n)
          then default [] (tokens !! Z.to_nat (size_t_of_int unk))
          else [].
Proof.
  intros Hn Hloop Htokens. apply collect_Forall2 in Htokens.
  assert (HU : 0 <= size_t_of_int unk).
  { unfold size_t_of_int. apply Z.mod_pos_bound. lia. }
  apply (for_range_invariant
           (fun k (a : Vocab * list Z) =>
              a.2 = if bool_decide (size_t_of_int unk < k)
                    then default [] (tokens !! Z.to_nat (size_t_of_int unk))
                    else [])
           (read_vocab vocab unk) 0 n (∅, []) acc Hn);
    [| | exact Hloop].
  - intros k a a' Hk Ha Hbody.
    apply read_vocab_inv in Hbody as (token & Htoken & _ & ->).
    assert (Hlk : seqZ 0 n !! Z.to_nat k = Some k).
    { rewrite lookup_seqZ_lt by lia. f_equal. lia. }
    destruct (Forall2_lookup_l _ _ _ _ _ Htokens Hlk) as (t & Ht & Hsrc).
    assert (t = token) as -> by congruence.
    repeat case_bool_decide; try lia; subst; try done.
    by rewrite Ht.
  - rewrite bool_decide_eq_false_2 by lia. done.
Qed.

(** X9: what [WordpieceTokenizer] returns. The vocabulary maps a token
    to its index, the last one for a token that occurs more than once;
    the unknown token is the token at [unk_token_id], counted from the
    end when it is negative, or empty when there is no such token; and
    the output is, row by row and without gaps, the ids that the one
    tokenizer built from them gives for the words of the row. The
    offsets of the rows have the same number of elements; the chars
    and the vocabulary have sizes an [int32_t] holds. *)
Theorem wordpiece_output r vocab input8 out :
  length (ragged_begins r) = length (ragged_ends r) ->
  get_size (rs_chars r) <= Int32.max_signed ->
  get_size (begins vocab) <= Int32.max_signed ->
  Forall Int32.in_range input8 ->
  evaluate junk FastWordPiece m_suffix_indicator m_max_bytes_per_word
    r vocab input8 = Ok out ->
  exists unk_token_id tokens m unk_token rws,
    read input8 0 = Ok unk_token_id
    /\ pieces (of_strings vocab) = Ok tokens
    /\ rows r = Ok rws
    /\ (forall t, m !! t = None <-> t ∉ tokens)
    /\ (forall (k : nat) t,
          tokens !! k = Some t ->
          (forall k', (k < k')%nat -> tokens !! k' <> Some t) ->
          m !! t = Some (Z.of_nat k))
    /\ unk_token
       = (let id := if bool_decide (unk_token_id < 0)
                    then unk_token_id + get_size tokens
                    else unk_token_id in
          if bool_decide (0 <= id)
          then default [] (tokens !! Z.to_nat id) else [])
    /\ out = layout ((fun words =>
                        Int32.wrap
                          <$> flat_map
                                (FastWordPiece m unk_token
                                   m_max_bytes_per_word
                                   m_suffix_indicator true) words)
                     <$> rws).
Proof.
  intros Hlen Hmax Hvmax Hr H. unfold evaluate in H.
  apply bind_Ok in H as (unk & Hunk & H).
  apply bind_Ok in H as ([m u] & Hloop & H).
  pose proof (get_size_nonneg (begins vocab)) as Hn.
  set (n := get_size (begins vocab)) in *.
  set (unk' := if bool_decide (unk < 0)
               then Int32.wrap (size_t_of_int unk + n) else unk) in *.
  destruct (vocab_loop (fun a : Vocab * list Z => a.1) (token_at vocab)
              (read_vocab vocab unk')
              (fun id t t' Hb =>
                 match read_vocab_inv vocab unk' id t t' Hb with
                 | ex_intro _ token (conj H1 (conj H2 _)) =>
                     ex_intro _ token (conj H1 H2)
                 end)
              n (∅, []) (m, u) Hn eq_refl Hloop)
    as (tokens & Htokens & Hnone & Hlast).
  pose proof (unk_token_loop vocab unk' n (m, u) tokens Hn Hloop Htokens)
    as Hu. cbn [snd] in Hu.
  apply tokenize_rows_Ok in H as (rws & Hrws & -> & _); [| done | done].
  assert (Hsize : get_size tokens = n).
  { apply collect_length in Htokens. rewrite length_seqZ in Htokens.
    unfold get_size. lia. }
  exists unk, tokens, m, u, rws. split_and!; try done.
  - apply (vocab_ids tokens m); [by rewrite Hsize | done].
  - assert (Hunkr : Int32.in_range unk).
    { apply read_Ok in Hunk as [_ Hunk]. rewrite Forall_forall in Hr.
      apply Hr. by eapply list_elem_of_lookup_2. }
    rewrite Hu, Hsize. cbn zeta.
    unfold Int32.in_range, Int32.min_signed, Int32.max_signed in *.
    unfold unk'. destruct (bool_decide (unk < 0)) eqn:Hneg.
    + apply bool_decide_eq_true in Hneg.
      assert (Hw : Int32.wrap (size_t_of_int unk + n) = unk + n).
      { unfold size_t_of_int.
        replace (unk mod 2 ^ 64) with (unk + 2 ^ 64)
          by (apply Z.mod_unique with (-1); lia).
        unfold Int32.wrap.
        replace (unk + 2 ^ 64 + n + 2 ^ 31)
          with (unk + n + 2 ^ 31 + 2 ^ 32 * 2 ^ 32) by lia.
        rewrite Z_mod_plus_full.
        rewrite Z.mod_small by lia. lia. }
      rewrite Hw. destruct (bool_decide (0 <= unk + n)) eqn:Hpos.
      * apply bool_decide_eq_true in Hpos.
        rewrite size_t_of_int_nonneg by lia.
        by rewrite bool_decide_eq_true_2 by lia.
      * apply bool_decide_eq_false in Hpos.
        unfold size_t_of_int.
        replace ((unk + n) mod 2 ^ 64) with (unk + n + 2 ^ 64)
          by (apply Z.mod_unique with (-1); lia).
        by rewrite bool_decide_eq_false_2 by lia.
    + apply bool_decide_eq_false in Hneg.
      rewrite size_t_of_int_nonneg by lia.
      rewrite (bool_decide_eq_true_2 (0 <= unk)) by lia.
      destruct (bool_decide (unk < n)) eqn:Hlt; [done |].
      apply bool_decide_eq_false in Hlt.
      rewrite lookup_ge_None_2; [done |].
      unfold get_size in *. lia.
Qed.

End Wordpiece.

Section BPE.
Import BPETokenizer.
Variable BPE :
  Vocab -> Merges -> Z -> list (list Z) -> list (list Z) -> list (list Z)
  -> bool -> list Z -> list Z.
Variables (m_unk_token m_suffix_indicator m_end_suffix : list Z).
Variables (m_fuse_unk : bool).

Lemma bpe_read_vocab_inv vocab id acc acc' :
  read_vocab vocab id acc = Ok acc' ->
  exists token,
    token_at vocab id = Ok token
    /\ acc' = <[token := Int32.wrap id]> acc.
Proof.
  unfold read_vocab, piece. intros H.
  apply bind_Ok in H as (b & Hb & H).
  apply bind_Ok in H as (e & He & H).
  apply bind_Ok in H as (token & Htoken & H). simplify_eq.
  exists token. rewrite Hb, He. done.
Qed.

Lemma read_merge_inv merges id acc acc' :
  read_merge merges id acc = Ok acc' ->
  True /\ exists merge,
    token_at merges id = Ok merge
    /\ acc' = acc ++ [split_merge merge].
Proof.
  unfold read_merge, piece. intros H.
  apply bind_Ok in H as (b & Hb & H).
  apply bind_Ok in H as (e & He & H).
  apply bind_Ok in H as (merge & Hmerge & H). simplify_eq.
  split; [done |]. exists merge. rewrite Hb, He. done.
Qed.

(** X10: what [BPETokenizer] returns. The vocabulary maps a token to
    its index, the last one for a token that occurs more than once; the
    merges are the merge strings, each split in two, in their order;
    and the output is, row by row and without gaps, the ids that the
    one tokenizer built from them gives for the words of the row. The
    offsets of the rows have the same number of elements; the chars
    and the vocabulary have sizes an [int32_t] holds. *)
Theorem bpe_output r vocab merges out :
  length (ragged_begins r) = length (ragged_ends r) ->
  get_size (rs_chars r) <= Int32.max_signed ->
  get_size (begins vocab) <= Int32.max_signed ->
  evaluate junk BPE m_unk_token m_suffix_indicator m_end_suffix
    m_fuse_unk r vocab merges = Ok out ->
  exists tokens m pairs rws,
    pieces (of_strings vocab) = Ok tokens
    /\ pieces (of_strings merges) = Ok pairs
    /\ rows r = Ok rws
    /\ (forall t, m !! t = None <-> t ∉ tokens)
    /\ (forall (k : nat) t,
          tokens !! k = Some t ->
          (forall k', (k < k')%nat -> tokens !! k' <> Some t) ->
          m !! t = Some (Z.of_nat k))
    /\ out = layout ((fun words =>
                        Int32.wrap
                          <$> flat_map
                                (BPE m (split_merge <$> pairs) 10000
                                   (optional m_unk_token)
                                   (optional m_suffix_indicator)
                                   (optional m_end_suffix) m_fuse_unk)
                                words)
                     <$> rws).
Proof.
  intros Hlen Hmax Hvmax H. unfold evaluate in H.
  apply bind_Ok in H as (m & Hvocab & H).
  apply bind_Ok in H as (ms & Hmerges & H).
  pose proof (get_size_nonneg (begins vocab)) as Hn.
  destruct (vocab_loop (fun a : Vocab => a) (token_at vocab)
              (read_vocab vocab) (bpe_read_vocab_inv vocab)
              (get_size (begins vocab)) ∅ m Hn eq_refl Hvocab)
    as (tokens & Htokens & Hnone & Hlast).
  destruct (for_range_appends
              (fun _ => True) (fun a : Merges => a) (token_at merges)
              (fun merge => [split_merge merge])
              (read_merge merges) 0 (get_size (begins merges)) [] ms
              (fun k t t' _ Hb => read_merge_inv merges k t t' Hb)
              I Hmerges)
    as (_ & pairs & Hpairs & Hms).
  rewrite Z.sub_0_r in Hpairs. cbn [app] in Hms.
  assert (Hms' : ms = split_merge <$> pairs).
  { rewrite Hms. clear. induction pairs; simpl; [done | by f_equal]. }
  apply tokenize_rows_Ok in H as (rws & Hrws & -> & _); [| done | done].
  assert (Hsize : get_size tokens = get_size (begins vocab)).
  { apply collect_length in Htokens. rewrite length_seqZ in Htokens.
    unfold get_size in *. lia. }
  exists tokens, m, pairs, rws. rewrite <- Hms'.
  split_and!; try done.
  apply (vocab_ids tokens m); [by rewrite Hsize | done].
Qed.

(** X11: a merge is split at its first space, which is dropped; a
    merge with no space is not split, and gives itself as both
    halves. *)
Theorem merge_split_at_first_space :
  (forall left right, 32 ∉ left ->
      split_merge (left ++ 32 :: right) = (left, right))
  /\ (forall merge, 32 ∉ merge -> split_merge merge = (merge, merge)).
Proof.
  split.
  - intros l rgt Hl. unfold split_merge.
    assert (H : list_find (fun c => c = 32) (l ++ 32 :: rgt)
                = Some (length l, 32)).
    { apply list_find_Some. split_and!.
      - by rewrite lookup_app_r, Nat.sub_diag by lia.
      - done.
      - intros j y Hj Hlt. rewrite lookup_app_l in Hj by done.
        intros ->. apply Hl. by eapply list_elem_of_lookup_2. }
    rewrite H. f_equal.
    + by rewrite take_app_length.
    + rewrite cons_middle, app_assoc.
      rewrite drop_app_length'; [done |]. rewrite length_app. simpl. lia.
  - intros merge Hm. unfold split_merge.
    assert (H : list_find (fun c => c = 32) merge = None).
    { apply list_find_None. rewrite Forall_forall. intros x Hx ->. done. }
    by rewrite H.
Qed.

End BPE.
End Tokenizers.

Section TokensFit.
Import Tokens Invariants.
Variable Tokenize : list Z -> list Z.

Lemma put_token_length id s s' :
  put_token id s = Ok s' -> length (new_elems s') = length (new_elems s).
Proof.
  unfold put_token. intros H.
  apply bind_Ok in H as (? & _ & H).
  apply bind_Ok in H as (ne & Hne & H).
  apply write_Ok in Hne as [_ ->]. simplify_eq.
  cbn [new_elems]. apply length_insert.
Qed.

Lemma tokenize_row_length r j s s' :
  tokenize_row Tokenize r j s = Ok s' ->
  length (new_elems s') = length (new_elems s).
Proof.
  unfold tokenize_row. intros H.
  apply bind_Ok in H as (nb & _ & H).
  apply bind_Ok in H as (rb & _ & H).
  apply bind_Ok in H as (re & _ & H).
  apply bind_Ok in H as (t & Hloop & H).
  apply bind_Ok in H as (ne & _ & H). simplify_eq. cbn [new_elems].
  revert Hloop.
  apply (for_range_preserves
           (fun u => length (new_elems u) = length (new_elems s)));
    [| done].
  intros k u u' Hu Hword. unfold tokenize_word in Hword.
  apply bind_Ok in Hword as (b & _ & Hword).
  apply bind_Ok in Hword as (e & _ & Hword).
  apply bind_Ok in Hword as (str & _ & Hword).
  revert Hword.
  apply (for_each_preserves
           (fun v => length (new_elems v) = length (new_elems s)));
    [| done].
  intros id v v' Hv Hput. apply put_token_length in Hput. congruence.
Qed.

Lemma tokenize_rows_fit junk r out :
  tokenize_rows Tokenize junk r = Ok out ->
  get_size (r_elems out) <= get_size (rs_chars r).
Proof.
  intros H. unfold tokenize_rows in H.
  apply bind_Ok in H as (s & Hloop & H).
  apply bind_Ok in H as (? & Hnn & H).
  apply check_Ok_inv, bool_decide_eq_true in Hnn. simplify_eq.
  cbn [r_elems]. unfold get_size. rewrite length_take.
  set (s0 := State _ _ _ _) in Hloop.
  assert (Hlen : length (new_elems s) = length (rs_chars r)).
  { revert Hloop.
    apply (for_range_preserves
             (fun t => length (new_elems t) = length (rs_chars r))).
    - intros k t t' Ht Hrow. apply tokenize_row_length in Hrow. congruence.
    - apply length_uninitialized. }
  lia.
Qed.

End TokensFit.

Section TokenizersFit.

(** X18: [WordpieceTokenizer] and [BPETokenizer] never return more ids
    than their input has chars: the output is given the size of the input
    chars, and whenever the call completes the ids fit in it. *)
Theorem tokens_fit_chars junk r out :
  (forall FastWordPiece suffix max_bytes vocab input8,
      WordpieceTokenizer.evaluate junk FastWordPiece suffix max_bytes r
        vocab input8 = Ok out ->
      get_size (r_elems out) <= get_size (rs_chars r))
  /\ (forall BPE unk suffix end_suffix fuse vocab merges,
        BPETokenizer.evaluate junk BPE unk suffix end_suffix fuse r
          vocab merges = Ok out ->
        get_size (r_elems out) <= get_size (rs_chars r)).
Proof.
  split.
  - intros FWP suffix max_bytes vocab input8 H.
    apply wordpiece_runs_tokens in H as (Tok & H).
    exact (tokenize_rows_fit Tok junk r out H).
  - intros BPE unk suffix end_suffix fuse vocab merges H.
    apply bpe_runs_tokens in H as (Tok & H).
    exact (tokenize_rows_fit Tok junk r out H).
Qed.

End TokenizersFit.

Section TokenizerExamples.
Import Tokens Layout Examples.

Lemma wordpiece_output_witness :
  exists unk_token_id tokens m unk_token rws,
    read [0] 0 = Ok unk_token_id
    /\ pieces (of_strings vocab_a) = Ok tokens
    /\ rows rows_ab_empty = Ok rws
    /\ (forall t, m !! t = None <-> t ∉ tokens)
    /\ (forall (k : nat) t,
          tokens !! k = Some t ->
          (forall k', (k < k')%nat -> tokens !! k' <> Some t) ->
          m !! t = Some (Z.of_nat k))
    /\ unk_token
       = (let id := if bool_decide (unk_token_id < 0)
                    then unk_token_id + get_size tokens
                    else unk_token_id in
          if bool_decide (0 <= id)
          then default [] (tokens !! Z.to_nat id) else [])
    /\ Ragged [0; 2] [2; 2] [1; 1]
       = layout ((fun words =>
                    Int32.wrap
                      <$> flat_map (word_length m unk_token 100 [35; 35] true)
                                   words)
                 <$> rws).
Proof.
  apply (wordpiece_output no_junk word_length [35; 35] 100 rows_ab_empty
           vocab_a [0] (Ragged [0; 2] [2; 2] [1; 1])).
  - reflexivity.
  - unfold get_size, Int32.max_signed. simpl. lia.
  - unfold get_size, Int32.max_signed. simpl. lia.
  - apply Forall_cons_2; [| apply Forall_nil_2].
    unfold Int32.in_range, Int32.min_signed, Int32.max_signed. lia.
  - reflexivity.
Defined.

Lemma bpe_output_witness :
  exists tokens m pairs rws,
    pieces (of_strings vocab_a) = Ok tokens
    /\ pieces (of_strings merges_a_b) = Ok pairs
    /\ rows rows_ab_empty = Ok rws
    /\ (forall t, m !! t = None <-> t ∉ tokens)
    /\ (forall (k : nat) t,
          tokens !! k = Some t ->
          (forall k', (k < k')%nat -> tokens !! k' <> Some t) ->
          m !! t = Some (Z.of_nat k))
    /\ Ragged [0; 2] [2; 2] [97; 98]
       = layout ((fun words =>
                    Int32.wrap
                      <$> flat_map
                            (bpe_bytes m (BPETokenizer.split_merge <$> pairs)
                               10000 (BPETokenizer.optional [])
                               (BPETokenizer.optional [])
                               (BPETokenizer.optional []) false)
                            words)
                 <$> rws).
Proof.
  apply (bpe_output no_junk bpe_bytes [] [] [] false rows_ab_empty vocab_a
           merges_a_b (Ragged [0; 2] [2; 2] [97; 98])).
  - reflexivity.
  - unfold get_size, Int32.max_signed. simpl. lia.
  - unfold get_size, Int32.max_signed. simpl. lia.
  - reflexivity.
Defined.

Lemma merge_split_at_first_space_witness :
  BPETokenizer.split_merge ([97] ++ 32 :: [98; 32; 99]) = ([97], [98; 32; 99])
  /\ BPETokenizer.split_merge [97; 98] = ([97; 98], [97; 98]).
Proof.
  split.
  - apply (proj1 merge_split_at_first_space [97] [98; 32; 99]).
    apply (bool_decide_unpack _). vm_compute. reflexivity.
  - apply (proj2 merge_split_at_first_space [97; 98]).
    apply (bool_decide_unpack _). vm_compute. reflexivity.
Defined.

Lemma tokens_fit_chars_witness :
  get_size [1; 1] <= get_size (rs_chars rows_ab_empty).
Proof.
  apply (proj1 (tokens_fit_chars no_junk rows_ab_empty
                  (Ragged [0; 2] [2; 2] [1; 1]))
           word_length [35; 35] 100 vocab_a [0]).
  reflexivity.
Defined.

End TokenizerExamples.

(** ** What [CombineSegments] returns *)

Section CombineSegmentsOutput.
Import CombineSegments Segments Layout.
Context {E I : Type}.
Variables (inputs : list (input E)) (ids : list I).

(** The offset counts the elements, and there is one id for each. *)
Local Abbreviation counted s :=
  (out_offset s = get_size (out_elems (out s))
   /\ get_size (out_ids (out s)) = get_size (out_elems (out s))).
Local Abbreviation same_offsets s t :=
  (out_elem_begins (out t) = out_elem_begins (out s)
   /\ out_elem_ends (out t) = out_elem_ends (out s)
   /\ out_id_begins (out t) = out_id_begins (out s)
   /\ out_id_ends (out t) = out_id_ends (out s)).

Lemma read_range_length {A} (t : list A) off n seg :
  0 <= n -> read_range t off n = Ok seg -> length seg = Z.to_nat n.
Proof.
  intros Hn H. unfold read_range in H. case_bool_decide as H0.
  - simplify_eq. simpl. lia.
  - case_bool_decide as Hb; [| done]. simplify_eq.
    rewrite length_take, length_drop. unfold get_size in Hb. lia.
Qed.

Lemma copy_segment_appends flat_out_size i j (s s' : @state E I) :
  counted s ->
  copy_segment inputs ids flat_out_size i j s = Ok s' ->
  counted s' /\ same_offsets s s'
  /\ exists x, segment inputs ids i j = Ok x
       /\ out_elems (out s') = out_elems (out s) ++ x.1
       /\ out_ids (out s') = out_ids (out s) ++ replicate (length x.1) x.2.
Proof.
  intros [Ho Hi] H. unfold copy_segment in H.
  apply bind_Ok in H as (x & Hx & H).
  apply bind_Ok in H as (b & Hb & H).
  apply bind_Ok in H as (e & He & H).
  apply bind_Ok in H as (seg & Hseg & H).
  apply bind_Ok in H as (? & _ & H).
  apply bind_Ok in H as (id & Hid & H). simplify_eq.
  cbn [out out_offset out_elems out_ids out_elem_begins out_elem_ends
       out_id_begins out_id_ends].
  assert (Hnn : 0 <= size_t_of_int (Int32.sub e b)).
  { unfold size_t_of_int. apply Z.mod_pos_bound. lia. }
  assert (Hlen : length seg
                 = Z.to_nat (size_t_of_int (Int32.sub e b)))
    by (by eapply read_range_length).
  split; [| split; [done |]].
  - unfold get_size in *. rewrite !length_app, length_replicate. lia.
  - exists (seg, id). unfold segment. rewrite Hx. cbn [mbind result_bind].
    rewrite Hb, He. cbn [mbind result_bind]. rewrite Hseg.
    cbn [mbind result_bind]. rewrite Hid. cbn [fst snd].
    by rewrite Hlen.
Qed.

Lemma combine_row_appends flat_out_size i (s s' : @state E I) :
  counted s ->
  combine_row inputs ids flat_out_size i s = Ok s' ->
  counted s'
  /\ 0 <= i < get_size (out_elem_begins (out s))
  /\ i < get_size (out_elem_ends (out s))
  /\ 0 <= i < get_size (out_id_begins (out s))
  /\ i < get_size (out_id_ends (out s))
  /\ out_elem_begins (out s')
     = <[Z.to_nat i := Int32.wrap (get_size (out_elems (out s)))]>
         (out_elem_begins (out s))
  /\ out_elem_ends (out s')
     = <[Z.to_nat i := Int32.wrap (get_size (out_elems (out s')))]>
         (out_elem_ends (out s))
  /\ out_id_begins (out s')
     = <[Z.to_nat i := Int32.wrap (get_size (out_ids (out s)))]>
         (out_id_begins (out s))
  /\ out_id_ends (out s')
     = <[Z.to_nat i := Int32.wrap (get_size (out_ids (out s')))]>
         (out_id_ends (out s))
  /\ exists r, Segments.row inputs ids i = Ok r
       /\ out_elems (out s') = out_elems (out s) ++ row_elems r
       /\ out_ids (out s') = out_ids (out s) ++ row_ids r.
Proof.
  intros Hc H. unfold combine_row in H.
  apply bind_Ok in H as (eb & Heb & H).
  apply bind_Ok in H as (ib & Hib & H).
  apply bind_Ok in H as (t & Hloop & H).
  apply bind_Ok in H as (ee & Hee & H).
  apply bind_Ok in H as (ie & Hie & H).
  apply write_Ok in Heb as [Hi1 ->]. apply write_Ok in Hib as [Hi2 ->].
  apply write_Ok in Hee as [Hi3 ->]. apply write_Ok in Hie as [Hi4 ->].
  simplify_eq.
  set (t0 := State _ _) in Hloop.
  assert (Hc0 : counted t0) by exact Hc.
  destruct (for_range_appends
              (fun u => counted u /\ same_offsets t0 u)
              (fun u => out_elems (out u)) (segment inputs ids i) fst
              (copy_segment inputs ids flat_out_size i)
              0 (get_size inputs) t0 t)
    as ((Hct & Hso) & r & Hr & Hel); [| done | exact Hloop |].
  { intros k u u' (Hu & Hsu) Hcopy.
    apply copy_segment_appends in Hcopy as (Hu' & Hsu' & x & Hx & He & _);
      [| done].
    split; [| by eauto].
    split; [done |].
    destruct Hsu as (A1 & A2 & A3 & A4), Hsu' as (B1 & B2 & B3 & B4).
    split_and!; congruence. }
  destruct (for_range_appends
              (fun u => counted u)
              (fun u => out_ids (out u)) (segment inputs ids i)
              (fun x => replicate (length x.1) x.2)
              (copy_segment inputs ids flat_out_size i)
              0 (get_size inputs) t0 t)
    as (_ & r' & Hr' & Hid); [| done | exact Hloop |].
  { intros k u u' Hu Hcopy.
    apply copy_segment_appends in Hcopy as (Hu' & _ & x & Hx & _ & Hi);
      [| done].
    split; [done | by eauto]. }
  assert (r' = r) as -> by congruence.
  rewrite Z.sub_0_r in Hr.
  destruct Hso as (Hb1 & He1 & Hb2 & He2).
  cbn [t0 out out_offset out_elems out_ids out_elem_begins out_elem_ends
       out_id_begins out_id_ends] in *.
  destruct Hc as [Ho Hi]. destruct Hct as [Hot Hit].
  rewrite He1 in Hi3. rewrite He2 in Hi4.
  rewrite Hb1, He1, Hb2, He2, Hi, Hit, <- Ho, <- Hot.
  split; [done |]. split; [done |]. split; [lia |]. split; [done |].
  split; [lia |]. do 4 (split; [done |]).
  exists r. done.
Qed.

Section Evaluate.
Variable junk : nat -> nat -> Z.

(** What [evaluate] returns, in terms of the segments of the rows. *)
Lemma evaluate_Ok o :
  evaluate junk inputs ids = Ok o ->
  get_size (out_elems o) <= Int32.max_signed ->
  exists rws,
    Segments.rows inputs ids (shapes inputs).2 = Ok rws
    /\ Ragged (out_elem_begins o) (out_elem_ends o) (out_elems o)
       = layout (row_elems <$> rws)
    /\ Ragged (out_id_begins o) (out_id_ends o) (out_ids o)
       = layout (row_ids <$> rws).
Proof.
  intros H Hmax. unfold evaluate in H.
  apply bind_Ok in H as (? & _ & H).
  destruct (shapes inputs) as [ps_size max_nelems] eqn:Hshapes.
  cbn [snd] in *. set (flat_out_size := estimate inputs max_nelems) in *.
  apply bind_Ok in H as (? & Hps & H).
  apply check_Ok_inv, bool_decide_eq_true in Hps. subst ps_size.
  apply bind_Ok in H as (s & Hloop & H).
  apply bind_Ok in H as (? & _ & H). simplify_eq.
  set (s0 := State _ _) in Hloop.
  assert (Hc0 : counted s0) by done.
  assert (Hcs : counted s).
  { revert Hloop.
    apply (for_range_preserves (fun t => counted t)); [| done].
    intros k t t' Ht Hrow.
    by apply combine_row_appends in Hrow as [Ht' _]. }
  destruct (Z_le_gt_dec 0 max_nelems) as [Hn | Hn].
  - rewrite <- (Z2Nat.id max_nelems) in Hloop by done.
    destruct (layout_loop
                (fun t => counted t)
                (fun t => out_elem_begins (out t))
                (fun t => out_elem_ends (out t))
                (fun t => out_elems (out t))
                (Segments.row inputs ids) row_elems
                (combine_row inputs ids flat_out_size)
                (fun i t t' Ht Hb =>
                   match combine_row_appends flat_out_size i t t' Ht Hb with
                   | conj H1 (conj H2 (conj H3 (conj _ (conj _
                       (conj H6 (conj H7 (conj _ (conj _
                          (ex_intro _ r (conj Hr (conj He _)))))))))))
                     => conj H1 (conj H2 (conj H3 (conj H6 (conj H7
                          (ex_intro _ r (conj Hr He))))))
                   end)
                (Z.to_nat max_nelems) s0 s Hloop)
      as (_ & rws & Hrws & Hnb & Hne & Hbuf);
      [done | done | apply length_uninitialized
       | apply length_uninitialized | done |].
    destruct (layout_loop
                (fun t => counted t)
                (fun t => out_id_begins (out t))
                (fun t => out_id_ends (out t))
                (fun t => out_ids (out t))
                (Segments.row inputs ids) row_ids
                (combine_row inputs ids flat_out_size)
                (fun i t t' Ht Hb =>
                   match combine_row_appends flat_out_size i t t' Ht Hb with
                   | conj H1 (conj _ (conj _ (conj H4 (conj H5
                       (conj _ (conj _ (conj H8 (conj H9
                          (ex_intro _ r (conj Hr (conj _ Hi)))))))))))
                     => conj H1 (conj H4 (conj H5 (conj H8 (conj H9
                          (ex_intro _ r (conj Hr Hi))))))
                   end)
                (Z.to_nat max_nelems) s0 s Hloop)
      as (_ & rws' & Hrws' & Hnb' & Hne' & Hbuf');
      [done | done | apply length_uninitialized
       | apply length_uninitialized | by rewrite (proj2 Hcs) |].
    assert (rws' = rws) as -> by congruence.
    rewrite Z2Nat.id in Hrws by done.
    exists rws. unfold Segments.rows, layout.
    by rewrite Hnb, Hne, Hbuf, Hnb', Hne', Hbuf'.
  - rewrite for_range_empty in Hloop by lia. simplify_eq.
    exists []. unfold Segments.rows. rewrite seqZ_nil by lia.
    cbn [out out_elem_begins out_elem_ends out_elems out_id_begins
         out_id_ends out_ids].
    replace (Z.to_nat max_nelems) with 0%nat by lia. done.
Qed.

(** X12: what [CombineSegments] returns. Row [i] of the elements is
    the segments that the inputs give to row [i], one after the other
    in the order of the inputs, an input of one row giving that row to
    every row; the ids have the same rows, with the id of its input in
    the place of each element; and the rows follow each other without
    gaps. The elements are at most [INT32_MAX]. *)
Theorem combine_segments_output o :
  evaluate junk inputs ids = Ok o ->
  get_size (out_elems o) <= Int32.max_signed ->
  exists rws,
    Segments.rows inputs ids (shapes inputs).2 = Ok rws
    /\ Ragged (out_elem_begins o) (out_elem_ends o) (out_elems o)
       = layout (row_elems <$> rws)
    /\ Ragged (out_id_begins o) (out_id_ends o) (out_ids o)
       = layout (row_ids <$> rws)
    /\ length (out_ids o) = length (out_elems o).
Proof.
  intros H Hmax.
  destruct (evaluate_Ok o H Hmax) as (rws & Hrws & He & Hi).
  exists rws. split_and!; try done.
  injection He as _ _ He. injection Hi as _ _ Hi. rewrite He, Hi.
  clear. induction rws as [|r rws IH]; [done |]. cbn [fmap list_fmap concat].
  rewrite !length_app. f_equal; [| exact IH].
  clear. unfold row_elems, row_ids.
  induction r as [|[seg id] r IH]; [done |]. cbn [flat_map fst snd].
  by rewrite !length_app, length_replicate, IH.
Qed.

End Evaluate.
End CombineSegmentsOutput.

Section CombineSegmentsOutputExamples.
Import CombineSegments Layout Examples.

Lemma combine_segments_output_witness :
  exists rws,
    Segments.rows segments [0; 1] (shapes segments).2 = Ok rws
    /\ Ragged [0] [4] [101; 5; 6; 102]
       = layout (Segments.row_elems <$> rws)
    /\ Ragged [0] [4] [0; 0; 1; 1]
       = layout (Segments.row_ids <$> rws)
    /\ length [0; 0; 1; 1] = length [101; 5; 6; 102].
Proof.
  apply (combine_segments_output segments [0; 1] no_junk
           (Outputs [0] [4] [101; 5; 6; 102] [0] [4] [0; 0; 1; 1])).
  - reflexivity.
  - unfold get_size, Int32.max_signed. simpl. lia.
Defined.

End CombineSegmentsOutputExamples.

(** ** [RegexSplit] on a string triple *)

Section RegexSplitFlat.
Import RegexSplit Splits Layout.
Variable pretokenizer : list Z -> list (Z * Z).

(** The pairs stored so far. *)
Local Abbreviation stored s :=
  (zip (take (Z.to_nat (ragged_offset s)) (new_begins s))
       (take (Z.to_nat (ragged_offset s)) (new_ends s))).
(** The offset is inside the two outputs, of at most [INT32_MAX]
    elements. *)
Local Abbreviation inside s :=
  (0 <= ragged_offset s <= get_size (new_begins s)
   /\ get_size (new_ends s) = get_size (new_begins s)
   /\ get_size (new_begins s) <= Int32.max_signed).

Lemma get_size_stored s : inside s -> get_size (stored s) = ragged_offset s.
Proof.
  intros (H & He & _). unfold get_size in *.
  rewrite length_zip_with, !length_take. lia.
Qed.

Lemma store_split_appends b offset s s' :
  inside s -> store_split b offset s = Ok s' ->
  inside s'
  /\ new_ragged_begins s' = new_ragged_begins s
  /\ new_ragged_ends s' = new_ragged_ends s
  /\ stored s' = stored s
                 ++ [(Int32.wrap (b + offset.1), Int32.wrap (b + offset.2))].
Proof.
  intros (Ho & He & Hm) H. unfold store_split in H.
  apply bind_Ok in H as (nb & Hnb & H).
  apply bind_Ok in H as (ne & Hne & H).
  apply write_Ok in Hnb as [Hi ->]. apply write_Ok in Hne as [Hi' ->].
  simplify_eq.
  cbn [new_ragged_begins new_ragged_ends new_begins new_ends ragged_offset].
  unfold Int32.max_signed in *.
  assert (Hadd : Int32.add (ragged_offset s) 1 = ragged_offset s + 1).
  { unfold Int32.add. apply wrap_in_range.
    unfold Int32.in_range, Int32.min_signed, Int32.max_signed. lia. }
  rewrite Hadd. unfold get_size in *. rewrite !length_insert.
  split; [lia |]. split; [done |]. split; [done |].
  replace (Z.to_nat (ragged_offset s + 1))
    with (S (Z.to_nat (ragged_offset s))) by lia.
  erewrite (take_S_r (<[_ := _]> (new_begins s)))
    by (apply list_lookup_insert_eq; lia).
  erewrite (take_S_r (<[_ := _]> (new_ends s)))
    by (apply list_lookup_insert_eq; lia).
  rewrite !take_insert_ge by lia.
  rewrite zip_with_app by (rewrite !length_take; lia). done.
Qed.

Lemma split_word_appends begins ends chars seq word s s' :
  inside s ->
  split_word pretokenizer begins ends chars seq word s = Ok s' ->
  inside s'
  /\ 0 <= seq < get_size (new_ragged_begins s)
  /\ new_ragged_begins s'
     = <[Z.to_nat seq := ragged_offset s]> (new_ragged_begins s)
  /\ new_ragged_ends s' = new_ragged_ends s
  /\ exists x, splits pretokenizer begins ends chars word = Ok x
               /\ stored s' = stored s ++ x.
Proof.
  intros Hin H. unfold split_word in H.
  apply bind_Ok in H as (b & Hb & H).
  apply bind_Ok in H as (e & He & H).
  apply bind_Ok in H as (str & Hstr & H).
  apply bind_Ok in H as (nrb & Hnrb & H).
  apply write_Ok in Hnrb as [Hseq ->].
  set (t0 := State _ _ _ _ _) in H.
  destruct (for_each_appends
              (fun t => inside t
                        /\ new_ragged_begins t = new_ragged_begins t0
                        /\ new_ragged_ends t = new_ragged_ends t0)
              (fun t => stored t)
              (fun offset : Z * Z =>
                 [(Int32.wrap (b + offset.1), Int32.wrap (b + offset.2))])
              (store_split b) (pretokenizer str) t0 s')
    as ((Hin' & Hrb & Hre) & Hst); [| done | done |].
  - intros o t t' (Ht & Hrb & Hre) Hstore.
    apply store_split_appends in Hstore as (Ht' & -> & -> & Hst); done.
  - split; [done |]. split; [done |]. split; [done |]. split; [done |].
    eexists. unfold splits. rewrite Hb, He. cbn [mbind result_bind].
    rewrite Hstr. cbn [mbind result_bind]. split; [done |].
    rewrite Hst. cbn [t0 ragged_offset new_begins new_ends]. f_equal.
Qed.

(** The rows [evaluate] makes of a string triple: row [i] is string
    [i]. *)
Local Abbreviation one_word_rows inputs :=
  (RaggedStrings
     (map (fun i => Int32.wrap (Z.of_nat i)) (seq 0 (length (begins inputs))))
     (map (fun i => Int32.wrap (Z.of_nat i + 1))
          (seq 0 (length (begins inputs))))
     (begins inputs) (ends inputs) (chars inputs)).

Lemma split_row_appends inputs i s s' :
  get_size (begins inputs) <= Int32.max_signed ->
  inside s ->
  split_row pretokenizer (one_word_rows inputs) i s = Ok s' ->
  inside s'
  /\ 0 <= i < get_size (new_ragged_begins s)
  /\ i < get_size (new_ragged_ends s)
  /\ new_ragged_begins s'
     = <[Z.to_nat i := Int32.wrap (get_size (stored s))]>
         (new_ragged_begins s)
  /\ new_ragged_ends s'
     = <[Z.to_nat i := Int32.wrap (get_size (stored s'))]>
         (new_ragged_ends s)
  /\ exists x,
       splits pretokenizer (begins inputs) (ends inputs) (chars inputs) i
       = Ok x
       /\ stored s' = stored s ++ id x.
Proof.
  intros Hmax Hin H. unfold split_row in H.
  cbn [ragged_begins ragged_ends rs_begins rs_ends rs_chars] in H.
  apply bind_Ok in H as (rb & Hrb & H).
  apply bind_Ok in H as (re & Hre & H).
  apply bind_Ok in H as (t & Hloop & H).
  apply bind_Ok in H as (nre & Hnre & H).
  apply write_Ok in Hnre as [Hi' ->]. simplify_eq.
  cbn [new_ragged_begins new_ragged_ends new_begins new_ends ragged_offset].
  apply read_Ok in Hrb as [Hi Hrb]. apply read_Ok in Hre as [_ Hre].
  rewrite list_lookup_fmap in Hrb, Hre.
  destruct (seq 0 (length (begins inputs)) !! Z.to_nat i) as [k|] eqn:Hk;
    [| done].
  apply lookup_seq in Hk as [-> Hlt]. cbn in Hrb, Hre. simplify_eq.
  unfold get_size, Int32.max_signed in Hmax.
  rewrite Z2Nat.id in Hloop by done.
  rewrite !wrap_in_range in Hloop
    by (unfold Int32.in_range, Int32.min_signed, Int32.max_signed; lia).
  rewrite !size_t_of_int_nonneg in Hloop by lia.
  unfold for_range in Hloop.
  replace (Z.to_nat (i + 1 - i)) with 1%nat in Hloop by lia.
  cbn [for_from] in Hloop. apply bind_Ok in Hloop as (t' & Hword & Ht).
  simplify_eq.
  apply split_word_appends in Hword
    as (Hin' & Hseq & Hnrb & Hnre & x & Hx & Hst); [| done].
  assert (Hwrap : forall u, inside u ->
             Int32.wrap (get_size (stored u)) = ragged_offset u).
  { intros u Hu. rewrite get_size_stored by done. apply wrap_in_range.
    unfold Int32.in_range, Int32.min_signed, Int32.max_signed in *. lia. }
  rewrite (Hwrap s Hin), (Hwrap t Hin'), Hnre in *.
  split; [done |]. split; [done |]. split; [lia |].
  split; [done |]. split; [done |]. by exists x.
Qed.

(** The offset stays inside the outputs. *)
Lemma split_rows_inside inputs n s s' :
  get_size (begins inputs) <= Int32.max_signed ->
  inside s ->
  for_range 0 n (split_row pretokenizer (one_word_rows inputs)) s = Ok s' ->
  inside s'.
Proof.
  intros Hmax Hin.
  apply (for_range_preserves (fun t => inside t)); [| done].
  intros k t t' Ht Hrow.
  by apply split_row_appends in Hrow as [Ht' _].
Qed.

End RegexSplitFlat.

Section RegexSplitFlatOutput.
Import RegexSplit Splits Layout.
Variable junk : nat -> nat -> Z.
Variable SplitPreTokenizer :
  list Z -> SplitMode -> bool -> list Z -> list (Z * Z).
Variables (m_behaviour : string) (m_invert : bool).

(** X13: what [RegexSplit] returns on a string triple: one row for each
    string, made of the splits that the pretokenizer of the pattern and
    of the behaviour finds in it, their offsets moved by the begin of the
    string; the rows follow each other without gaps and the chars are
    those of the input. The begins and ends have the same number of
    elements, and this number and the number of chars are ones an
    [int32_t] holds. *)
Theorem regex_split_strings inputs split_pattern out :
  length (begins inputs) = length (ends inputs) ->
  get_size (begins inputs) <= Int32.max_signed ->
  get_size (chars inputs) <= Int32.max_signed ->
  evaluate junk SplitPreTokenizer m_behaviour m_invert
    (FlatInputs inputs split_pattern) = Ok out ->
  exists mode rws,
    split_modes !! m_behaviour = Some mode
    /\ collect (splits (SplitPreTokenizer split_pattern mode m_invert)
                  (begins inputs) (ends inputs) (chars inputs))
               (seqZ 0 (get_size (begins inputs))) = Ok rws
    /\ Ragged (ragged_begins out) (ragged_ends out)
              (zip (rs_begins out) (rs_ends out))
       = layout rws
    /\ rs_chars out = chars inputs.
Proof.
  intros Hlen Hmax Hcmax H. unfold evaluate, split_rows in H.
  destruct (split_modes !! m_behaviour) as [mode|] eqn:Hmode; [| done].
  cbn [mbind result_bind] in H.
  apply bind_Ok in H as (s & Hloop & H).
  apply bind_Ok in H as (? & _ & H). simplify_eq.
  cbn [ragged_begins ragged_ends rs_begins rs_ends rs_chars] in *.
  set (pretokenizer := SplitPreTokenizer split_pattern mode m_invert) in *.
  set (s0 := State _ _ _ _ _) in Hloop.
  assert (Hin0 : 0 <= ragged_offset s0 <= get_size (new_begins s0)
                 /\ get_size (new_ends s0) = get_size (new_begins s0)
                 /\ get_size (new_begins s0) <= Int32.max_signed).
  { cbn [s0 ragged_offset new_begins new_ends]. unfold get_size in *.
    rewrite !length_uninitialized. lia. }
  pose proof (split_rows_inside pretokenizer inputs _ s0 s Hmax Hin0 Hloop)
    as Hins.
  unfold get_size in Hloop.
  destruct (layout_loop
              (fun t => 0 <= ragged_offset t <= get_size (new_begins t)
                        /\ get_size (new_ends t) = get_size (new_begins t)
                        /\ get_size (new_begins t) <= Int32.max_signed)
              new_ragged_begins new_ragged_ends
              (fun t => zip (take (Z.to_nat (ragged_offset t)) (new_begins t))
                            (take (Z.to_nat (ragged_offset t)) (new_ends t)))
              (splits pretokenizer (begins inputs) (ends inputs)
                      (chars inputs))
              id
              (split_row pretokenizer _)
              (fun i t t' Ht Hb =>
                 split_row_appends pretokenizer inputs i t t' Hmax Ht Hb)
              (length (begins inputs)) s0 s Hloop)
    as (_ & rws & Hrws & Hnb & Hne & Hbuf).
  - done.
  - done.
  - apply length_uninitialized.
  - cbn [s0 new_ragged_ends]. by rewrite length_uninitialized.
  - rewrite get_size_stored by done. lia.
  - exists mode, rws. rewrite list_fmap_id in *.
    split; [done |]. split; [done |]. split; [| done].
    unfold layout. by rewrite Hnb, Hne, Hbuf.
Qed.

End RegexSplitFlatOutput.

Section RegexSplitFlatExamples.
Import RegexSplit Splits Layout Examples.

Lemma regex_split_strings_witness :
  exists mode rws,
    split_modes !! "remove"%string = Some mode
    /\ collect (splits (no_delimiter [44] mode false)
                  (begins strings_ab_c) (ends strings_ab_c)
                  (chars strings_ab_c))
               (seqZ 0 (get_size (begins strings_ab_c))) = Ok rws
    /\ Ragged [0; 1] [1; 2] (zip [0; 2] [2; 3]) = layout rws
    /\ [97; 98; 99] = chars strings_ab_c.
Proof.
  apply (regex_split_strings no_junk no_delimiter "remove" false
           strings_ab_c [44]
           (RaggedStrings [0; 1] [1; 2] [0; 2] [2; 3] [97; 98; 99])).
  - reflexivity.
  - unfold get_size, Int32.max_signed. simpl. lia.
  - unfold get_size, Int32.max_signed. simpl. lia.
  - reflexivity.
Defined.

End RegexSplitFlatExamples.

(** ** What [BytesToChars] returns *)

Section BytesToCharsOutput.
Import BytesToChars Layout Remapped.

(** The chars stored so far. *)
Local Abbreviation stored s :=
  (take (Z.to_nat (char_pointer s)) (new_chars s)).
(** The pointer is inside an output of at most [INT32_MAX] chars. *)
Local Abbreviation inside s :=
  (0 <= char_pointer s <= get_size (new_chars s)
   /\ get_size (new_chars s) <= Int32.max_signed).
Local Abbreviation same_offsets s t :=
  (new_begins t = new_begins s /\ new_ends t = new_ends s
   /\ length (new_chars t) = length (new_chars s)).

Lemma put_byte_appends byte s s' :
  inside s -> put_byte byte s = Ok s' ->
  (inside s' /\ same_offsets s s') /\ stored s' = stored s ++ [byte].
Proof.
  intros [Ho Hm] H. unfold put_byte in H.
  apply bind_Ok in H as (nc & Hnc & H).
  apply write_Ok in Hnc as [Hi ->]. simplify_eq.
  cbn [new_begins new_ends new_chars char_pointer].
  unfold Int32.max_signed, get_size in *. rewrite length_insert.
  rewrite Z.mod_small by lia.
  split; [split; [lia | done] |].
  replace (Z.to_nat (char_pointer s + 1))
    with (S (Z.to_nat (char_pointer s))) by lia.
  erewrite take_S_r by (apply list_lookup_insert_eq; lia).
  by rewrite take_insert_ge by lia.
Qed.

Lemma flat_map_singleton {A} (l : list A) : flat_map (fun x => [x]) l = l.
Proof. induction l; simpl; [done | by f_equal]. Qed.

Lemma remap_byte_appends chars b k s s' :
  inside s -> remap_byte chars b k s = Ok s' ->
  (inside s' /\ same_offsets s s')
  /\ exists x, byte chars b k = Ok x /\ stored s' = stored s ++ id x.
Proof.
  intros Hin H. unfold remap_byte in H.
  apply bind_Ok in H as (c & Hc & H).
  apply bind_Ok in H as (bytes & Hbytes & H).
  destruct (for_each_appends
              (fun t => inside t /\ same_offsets s t)
              (fun t => stored t) (fun x => [x])
              put_byte bytes s s')
    as (Hin' & Hst); [| done | done |].
  - intros x t t' (Ht & Hb & He & Hl) Hput.
    apply put_byte_appends in Hput as ((Ht' & Hb' & He' & Hl') & Hst);
      [| done].
    split; [| done]. split; [done |]. split_and!; congruence.
  - split; [done |]. exists bytes. unfold byte. rewrite Hc.
    cbn [mbind result_bind]. split; [done |].
    by rewrite Hst, flat_map_singleton.
Qed.

Lemma remap_word_appends r i s s' :
  inside s -> remap_word r i s = Ok s' ->
  (inside s' /\ same_offsets s s')
  /\ exists x, word r i = Ok x /\ stored s' = stored s ++ concat x.
Proof.
  intros Hin H. unfold remap_word in H.
  apply bind_Ok in H as (e & He & H).
  apply bind_Ok in H as (b & Hb & H).
  destruct (for_range_appends
              (fun t => inside t /\ same_offsets s t)
              (fun t => stored t) (byte (rs_chars r) b) id
              (remap_byte (rs_chars r) b)
              0 (size_t_of_int (Int32.sub e b)) s s')
    as (Hin' & x & Hx & Hst); [| done | done |].
  - intros k t t' (Ht & Hb' & He' & Hl) Hbyte.
    apply remap_byte_appends in Hbyte
      as ((Ht' & Hb'' & He'' & Hl') & Hst); [| done].
    split; [| done]. split; [done |]. split_and!; congruence.
  - split; [done |]. exists x. unfold word. rewrite He, Hb.
    cbn [mbind result_bind]. rewrite Z.sub_0_r in Hx. split; [done |].
    rewrite Hst. done.
Qed.

Lemma remap_row_appends r j s s' :
  inside s -> remap_row r j s = Ok s' ->
  inside s'
  /\ 0 <= j < get_size (new_begins s) /\ j < get_size (new_ends s)
  /\ j < get_size (ragged_begins r)
  /\ new_begins s'
     = <[Z.to_nat j := Int32.wrap (get_size (stored s))]> (new_begins s)
  /\ new_ends s'
     = <[Z.to_nat j := Int32.wrap (get_size (stored s'))]> (new_ends s)
  /\ length (new_chars s') = length (new_chars s)
  /\ exists x, row r j = Ok x /\ stored s' = stored s ++ row_chars x.
Proof.
  intros Hin H. unfold remap_row in H.
  apply bind_Ok in H as (nb & Hnb & H).
  apply bind_Ok in H as (rb & Hrb & H).
  apply bind_Ok in H as (re & Hre & H).
  apply bind_Ok in H as (t & Hloop & H).
  apply bind_Ok in H as (ne & Hne & H).
  apply write_Ok in Hnb as [Hj ->]. simplify_eq.
  set (t0 := State _ _ _ _) in Hloop.
  destruct (for_range_appends
              (fun u => inside u /\ same_offsets t0 u)
              (fun u => stored u) (word r) (fun w => concat w)
              (remap_word r)
              (size_t_of_int rb) (size_t_of_int re) t0 t)
    as ((Hin' & Hb & He & Hl) & x & Hx & Hst); [| done | exact Hloop |].
  { intros k u u' (Hu & Hb' & He' & Hl) Hword.
    apply remap_word_appends in Hword
      as ((Hu' & Hb'' & He'' & Hl') & Hst); [| done].
    split; [| done]. split; [done |]. split_and!; congruence. }
  apply write_Ok in Hne as [Hj' ->].
  cbn [new_begins new_ends new_chars char_pointer t0] in *.
  assert (Hsize : forall u, inside u ->
             get_size (stored u) = char_pointer u).
  { intros u [Hu Hm]. unfold get_size in *. rewrite length_take. lia. }
  rewrite (Hsize s Hin), (Hsize t Hin'), Hb, He in *.
  apply read_Ok in Hrb as Hrb'. destruct Hrb' as [_ Hrb'].
  apply lookup_lt_Some in Hrb'.
  split; [done |]. split; [lia |]. split; [lia |].
  split; [unfold get_size; lia |].
  split; [done |]. split; [done |]. split; [done |].
  exists x. unfold row. rewrite Hrb, Hre. cbn [mbind result_bind].
  split; [done |]. by rewrite Hst.
Qed.

(** X14: what [BytesToChars] returns. The chars are, for each row of
    the input, the entries of the bytes of its words, one row after the
    other, followed by what was in the output, which keeps twice the size
    of the input chars; and the begins and ends, which keep the size of
    the input begins and ends, have one pair for each row, not for each
    word: the first pairs cut the chars into the rows, and the pairs
    after them are not written. The input chars are at most half of
    [INT32_MAX]. *)
Theorem bytes_to_chars_output junk r out :
  2 * get_size (rs_chars r) <= Int32.max_signed ->
  evaluate junk r = Ok out ->
  exists rws,
    rows r = Ok rws
    /\ ragged_begins out = ragged_begins r
    /\ ragged_ends out = ragged_ends r
    /\ take (length (ragged_begins r)) (rs_begins out)
       = begins_from 0 (row_chars <$> rws)
    /\ take (length (ragged_begins r)) (rs_ends out)
       = ends_from 0 (row_chars <$> rws)
    /\ take (length (concat (row_chars <$> rws))) (rs_chars out)
       = concat (row_chars <$> rws)
    /\ (forall i : nat,
          (length (ragged_begins r) <= i < length (rs_begins r))%nat ->
          rs_begins out !! i = Some (junk 2%nat i))
    /\ (forall i : nat,
          (length (ragged_begins r) <= i < length (rs_ends r))%nat ->
          rs_ends out !! i = Some (junk 3%nat i))
    /\ length (rs_chars out) = (length (rs_chars r) * 2)%nat
    /\ length (rs_begins out) = length (rs_begins r)
    /\ length (rs_ends out) = length (rs_ends r).
Proof.
  intros Hmax H. unfold evaluate in H.
  apply bind_Ok in H as (s & Hloop & H). simplify_eq.
  cbn [ragged_begins ragged_ends rs_begins rs_ends rs_chars].
  set (n := length (ragged_begins r)) in *.
  set (s0 := State _ _ _ _) in Hloop.
  assert (Hin0 : inside s0).
  { cbn [s0 char_pointer new_chars]. unfold get_size in *.
    rewrite length_uninitialized. lia. }
  (* the rows fit into the offsets, which are written below the row only *)
  assert (Hfit : (inside s /\ length (new_chars s) = length (new_chars s0))
                 /\ (n <= length (new_begins s0))%nat
                 /\ (n <= length (new_ends s0))%nat
                 /\ length (new_begins s) = length (new_begins s0)
                 /\ length (new_ends s) = length (new_ends s0)
                 /\ (forall i : nat, (n <= i)%nat ->
                       new_begins s !! i = new_begins s0 !! i
                       /\ new_ends s !! i = new_ends s0 !! i)).
  { assert (Hgoal :
      (inside s /\ length (new_chars s) = length (new_chars s0))
      /\ (Z.to_nat (get_size (ragged_begins r)) <= length (new_begins s0))%nat
      /\ (Z.to_nat (get_size (ragged_begins r)) <= length (new_ends s0))%nat
      /\ length (new_begins s) = length (new_begins s0)
      /\ length (new_ends s) = length (new_ends s0)
      /\ (forall i : nat,
            (Z.to_nat (get_size (ragged_begins r)) <= i)%nat ->
            new_begins s !! i = new_begins s0 !! i
            /\ new_ends s !! i = new_ends s0 !! i));
      [| by unfold get_size in Hgoal; rewrite Nat2Z.id in Hgoal].
    apply (for_range_invariant
             (fun k t =>
                (inside t /\ length (new_chars t) = length (new_chars s0))
                /\ (Z.to_nat k <= length (new_begins s0))%nat
                /\ (Z.to_nat k <= length (new_ends s0))%nat
                /\ length (new_begins t) = length (new_begins s0)
                /\ length (new_ends t) = length (new_ends s0)
                /\ (forall i : nat, (Z.to_nat k <= i)%nat ->
                      new_begins t !! i = new_begins s0 !! i
                      /\ new_ends t !! i = new_ends s0 !! i))
             (remap_row r) 0 (get_size (ragged_begins r)) s0 s);
      [apply get_size_nonneg | | | exact Hloop].
    - intros k t t' Hk ((Ht & Hlc) & Hkb & Hke & Hlb & Hle & Hrest) Hrow.
      apply remap_row_appends in Hrow
        as (Ht' & Hb1 & Hb2 & _ & -> & -> & Hlc' & _); [| done].
      unfold get_size in Hb1, Hb2. rewrite !length_insert.
      split; [split; [done | congruence] |].
      split; [lia |]. split; [lia |]. split; [done |]. split; [done |].
      intros i Hi. rewrite !list_lookup_insert_ne by lia.
      apply Hrest. lia.
    - split; [done |]. split; [simpl; lia |]. split; [simpl; lia |]. done. }
  destruct Hfit as ((Hins & Hlc) & Hnb0 & Hne0 & Hlb & Hle & Hrest).
  cbn [s0 new_begins new_ends new_chars] in Hnb0, Hne0, Hlb, Hle, Hlc.
  rewrite length_uninitialized in Hnb0, Hne0, Hlb, Hle, Hlc.
  unfold get_size in Hloop. fold n in Hloop.
  destruct (layout_loop
              (fun t => inside t
                        /\ length (new_begins t) = length (rs_begins r)
                        /\ length (new_ends t) = length (rs_ends r))
              (fun t => take n (new_begins t))
              (fun t => take n (new_ends t))
              (fun t => stored t)
              (row r) row_chars (remap_row r)) with (n := n) (s := s0) (s' := s)
    as (_ & rws & Hrws & Hnb & Hne & Hbuf).
  - intros i t t' (Ht & Hlb' & Hle') Hrow.
    apply remap_row_appends in Hrow
      as (Ht' & Hb1 & Hb2 & Hb3 & -> & -> & _ & x & Hx & Hst); [| done].
    unfold get_size in *. rewrite !length_insert, !length_take.
    fold n in Hb3.
    split; [done |]. split; [lia |]. split; [lia |].
    rewrite !take_insert_lt by lia. split; [done |]. split; [done |].
    by exists x.
  - exact Hloop.
  - cbn [s0 new_begins new_ends]. by rewrite !length_uninitialized.
  - done.
  - cbn [s0 new_begins]. rewrite length_take, length_uninitialized. lia.
  - cbn [s0 new_ends]. rewrite length_take, length_uninitialized. lia.
  - destruct Hins as [Ho Hm]. unfold get_size in *.
    rewrite length_take. lia.
  - exists rws. split; [done |]. split; [done |]. split; [done |].
    split; [done |]. split; [done |].
    split; [| split; [| split; [| split; [done | split; done]]]].
    + rewrite <- Hbuf, length_take.
      destruct Hins as [Ho Hm]. unfold get_size in Ho.
      rewrite Nat.min_l by lia. done.
    + intros i Hi. destruct (Hrest i) as [-> _]; [lia |].
      cbn [s0 new_begins]. apply lookup_uninitialized. lia.
    + intros i Hi. destruct (Hrest i) as [_ ->]; [lia |].
      cbn [s0 new_ends]. apply lookup_uninitialized. lia.
Qed.

End BytesToCharsOutput.

Section BytesToCharsOutputExamples.
Import BytesToChars Layout Remapped Examples.

Lemma bytes_to_chars_output_witness :
  exists rws,
    rows row_A_B = Ok rws
    /\ [0] = ragged_begins row_A_B
    /\ [2] = ragged_ends row_A_B
    /\ take (length (ragged_begins row_A_B)) [0; 0]
       = begins_from 0 (row_chars <$> rws)
    /\ take (length (ragged_begins row_A_B)) [2; 0]
       = ends_from 0 (row_chars <$> rws)
    /\ take (length (concat (row_chars <$> rws))) [65; 66; 0; 0]
       = concat (row_chars <$> rws)
    /\ (forall i : nat,
          (length (ragged_begins row_A_B) <= i
           < length (rs_begins row_A_B))%nat ->
          [0; 0] !! i = Some (no_junk 2%nat i))
    /\ (forall i : nat,
          (length (ragged_begins row_A_B) <= i
           < length (rs_ends row_A_B))%nat ->
          [2; 0] !! i = Some (no_junk 3%nat i))
    /\ length [65; 66; 0; 0] = (length (rs_chars row_A_B) * 2)%nat
    /\ length [0; 0] = length (rs_begins row_A_B)
    /\ length [2; 0] = length (rs_ends row_A_B).
Proof.
  apply (bytes_to_chars_output no_junk row_A_B
           (RaggedStrings [0] [2] [0; 0] [2; 0] [65; 66; 0; 0])).
  - unfold get_size, Int32.max_signed. simpl. lia.
  - reflexivity.
Defined.

End BytesToCharsOutputExamples.

(** ** [RaggedToDense] on rows without gaps *)

Section RaggedToDenseLayout.
Import RaggedToDense Layout.
Context {E : Type}.
Variables (default_value : E) (target_dim : nat).

(** A row cut or padded to [target_dim] elements, and its mask. *)
Local Abbreviation padded p :=
  (take target_dim p ++ replicate (target_dim - length p) default_value).
Local Abbreviation mask_of p :=
  (replicate (target_dim `min` length p) 1
   ++ replicate (target_dim - length p) 0).

Lemma layout_well_formed (ps : list (list E)) :
  get_size (concat ps) <= Int32.max_signed ->
  Spec.well_formed_ragged (layout ps).
Proof.
  intros Hmax. unfold Spec.well_formed_ragged, layout.
  cbn [r_begins r_ends r_elems].
  split; [by rewrite length_begins_from, length_ends_from |].
  intros i b e Hb He.
  assert (Hi : (i < length ps)%nat).
  { apply lookup_lt_Some in Hb. by rewrite length_begins_from in Hb. }
  rewrite lookup_begins_from in Hb by done.
  rewrite lookup_ends_from in He by done. simplify_eq.
  destruct (lookup_lt_is_Some_2 ps i Hi) as [p Hp].
  rewrite (concat_take_S ps i p Hp), get_size_app.
  pose proof (get_size_concat_take_le ps i).
  pose proof (get_size_concat_take_le ps (S i)) as HS.
  rewrite (concat_take_S ps i p Hp), get_size_app in HS.
  pose proof (get_size_nonneg p). lia.
Qed.

Lemma expected_row_layout (ps : list (list E)) i p :
  ps !! i = Some p ->
  Spec.expected_row (layout ps) default_value target_dim i = padded p
  /\ Spec.expected_mask (layout ps) target_dim i = mask_of p.
Proof.
  intros Hp. assert (Hi : (i < length ps)%nat) by (by eapply lookup_lt_Some).
  unfold Spec.expected_row, Spec.expected_mask, layout.
  cbn [r_begins r_ends r_elems].
  rewrite lookup_begins_from, lookup_ends_from by done.
  rewrite (concat_take_S ps i p Hp), get_size_app, !Z.add_0_l.
  unfold Spec.dense_row, Spec.mask_row. cbn [r_elems].
  replace (get_size (concat (take i ps)) + get_size p
           - get_size (concat (take i ps))) with (get_size p) by lia.
  replace (Z.to_nat (Z.min (get_size p) (Z.of_nat target_dim)))
    with (target_dim `min` length p)%nat by (unfold get_size; lia).
  replace (target_dim - target_dim `min` length p)%nat
    with (target_dim - length p)%nat by lia.
  split; [| done]. f_equal.
  rewrite <- (take_drop i ps) at 2. rewrite concat_app.
  unfold get_size. rewrite Nat2Z.id, drop_app_length.
  rewrite (drop_S _ _ _ Hp). cbn [concat].
  rewrite take_app_le by lia.
  destruct (decide (target_dim <= length p)%nat).
  - by rewrite (Nat.min_l target_dim) by lia.
  - rewrite Nat.min_r by lia. rewrite !take_ge by lia. done.
Qed.

Lemma flat_map_seq_lookup {A B} (f : nat -> list B) (g : A -> list B)
    (l : list A) k :
  (forall i x, l !! i = Some x -> f (k + i)%nat = g x) ->
  flat_map f (seq k (length l)) = flat_map g l.
Proof.
  revert k. induction l as [|x l IH]; intros k H; [done |].
  cbn [length seq flat_map]. f_equal.
  - rewrite <- (H 0%nat x eq_refl). f_equal. lia.
  - apply IH. intros i y Hy. rewrite <- (H (S i) y Hy). f_equal. lia.
Qed.

Lemma length_padded_rows (ps : list (list E)) :
  length (flat_map (fun p => padded p) ps) = (length ps * target_dim)%nat
  /\ length (flat_map (fun p => mask_of p) ps)
     = (length ps * target_dim)%nat.
Proof.
  induction ps as [|p ps [IH1 IH2]]; [done |]. cbn [flat_map length].
  rewrite !length_app, IH1, IH2, !length_replicate, length_take. lia.
Qed.

(** What [evaluate] returns on rows without gaps. *)
Lemma evaluate_layout (ps : list (list E)) :
  get_size (concat ps) <= Int32.max_signed ->
  evaluate (layout ps) default_value target_dim
  = Ok (flat_map (fun p => padded p) ps, flat_map (fun p => mask_of p) ps).
Proof.
  intros Hmax. pose proof (layout_well_formed ps Hmax) as Hwf.
  unfold evaluate, for_range.
  assert (Hn : length (r_begins (layout ps)) = length ps)
    by apply length_begins_from.
  replace (Z.to_nat (get_size (r_begins (layout ps)) - 0))
    with (length ps) by (unfold get_size; lia).
  change 0 with (Z.of_nat 0) at 1.
  rewrite (fill_rows (layout ps) default_value target_dim Hwf)
    by (rewrite Hn; lia).
  cbn [mbind result_bind out_elems out_mask app].
  rewrite (flat_map_seq_lookup _ (fun p => padded p) ps 0)
    by (intros i p Hp; by apply expected_row_layout).
  rewrite (flat_map_seq_lookup _ (fun p => mask_of p) ps 0)
    by (intros i p Hp; by apply expected_row_layout).
  destruct (length_padded_rows ps) as [H1 H2].
  unfold get_size. rewrite H1, H2, Hn.
  rewrite !bool_decide_eq_true_2 by lia. done.
Qed.

(** X15: on rows that follow each other without gaps, as
    [unpack_strings], the normalizers and [CombineSegments] lay them out,
    [RaggedToDense] returns each row cut to [target_dim] elements or
    padded to them with the default value, and in the mask ones for the
    elements it kept and zeros for the padding. The elements are at most
    [INT32_MAX]. *)
Theorem ragged_to_dense_pads (ps : list (list E)) :
  get_size (concat ps) <= Int32.max_signed ->
  evaluate (layout ps) default_value target_dim
  = Ok (flat_map (fun p => padded p) ps, flat_map (fun p => mask_of p) ps).
Proof. apply evaluate_layout. Qed.

(** X16: a row whose end is before its begin counts as longer than
    [target_dim]: [target_dim] elements are copied from its begin on, when
    the input has them, and all of them are marked in the mask. The
    difference of the offsets and [target_dim] are ones an [int32_t]
    holds. *)
Theorem reversed_row_unmasked (r : ragged E) (i : nat) b e s :
  r_begins r !! i = Some b -> r_ends r !! i = Some e ->
  Int32.min_signed <= e - b < 0 ->
  Z.of_nat target_dim <= Int32.max_signed ->
  0 <= b -> b + Z.of_nat target_dim <= get_size (r_elems r) ->
  fill_row r default_value (Z.of_nat target_dim) (Z.of_nat i) s
  = Ok (State (out_elems s ++ take target_dim (drop (Z.to_nat b) (r_elems r)))
              (out_mask s ++ replicate target_dim 1)).
Proof.
  intros Hb He Hneg HT Hb0 Hfit. unfold fill_row.
  rewrite (read_lookup _ _ _ Hb), (read_lookup _ _ _ He).
  cbn [mbind result_bind].
  unfold Int32.sub, Int32.min_signed, Int32.max_signed in *.
  rewrite wrap_in_range
    by (unfold Int32.in_range, Int32.min_signed, Int32.max_signed; lia).
  unfold size_t_of_int.
  replace ((e - b) mod 2 ^ 64) with (e - b + 2 ^ 64)
    by (apply Z.mod_unique with (-1); lia).
  rewrite Z.min_r by lia.
  rewrite Z.sub_diag. change (Z.to_nat 0) with 0%nat.
  cbn [replicate]. rewrite Nat2Z.id.
  assert (Hread : read_range (r_elems r) b (Z.of_nat target_dim)
                  = Ok (take target_dim (drop (Z.to_nat b) (r_elems r)))).
  { unfold read_range. case_bool_decide as H0.
    - replace target_dim with 0%nat by lia. done.
    - rewrite bool_decide_eq_true_2 by lia. by rewrite Nat2Z.id. }
  rewrite Hread. cbn [mbind result_bind]. by rewrite !app_nil_r.
Qed.

End RaggedToDenseLayout.

Section TokensThenDense.
Import Tokens Layout.
Variable Tokenize : list Z -> list Z.

Lemma flat_map_fmap {A B C} (f : A -> B) (g : B -> list C) (l : list A) :
  flat_map g (f <$> l) = flat_map (fun x => g (f x)) l.
Proof. induction l; simpl; [done | by f_equal]. Qed.

(** X17: the ids of [WordpieceTokenizer] or [BPETokenizer], passed to
    [RaggedToDense], give one dense row for each row of words: the ids of
    the tokens of its words, cut to [target_dim] or padded to it with the
    default value, and the mask of the ids that were kept. The offsets of
    the rows have the same number of elements, and the chars are at most
    [INT32_MAX]. *)
Theorem tokens_then_dense junk r out default_value (target_dim : nat) :
  length (ragged_begins r) = length (ragged_ends r) ->
  get_size (rs_chars r) <= Int32.max_signed ->
  tokenize_rows Tokenize junk r = Ok out ->
  exists rws,
    rows r = Ok rws
    /\ RaggedToDense.evaluate out default_value target_dim
       = Ok (flat_map
               (fun words =>
                  let ids := Int32.wrap <$> flat_map Tokenize words in
                  take target_dim ids
                  ++ replicate (target_dim - length ids) default_value)
               rws,
             flat_map
               (fun words =>
                  let ids := Int32.wrap <$> flat_map Tokenize words in
                  replicate (target_dim `min` length ids) 1
                  ++ replicate (target_dim - length ids) 0)
               rws).
Proof.
  intros Hlen Hmax H.
  apply tokenize_rows_Ok in H as (rws & Hrws & -> & Hsize);
    [| done | done].
  exists rws. split; [done |]. cbn [r_elems layout] in Hsize.
  rewrite (evaluate_layout default_value target_dim _ Hsize).
  by rewrite !flat_map_fmap.
Qed.

End TokensThenDense.

Section RaggedToDenseLayoutExamples.
Import RaggedToDense Layout Examples.

Lemma ragged_to_dense_pads_witness :
  evaluate (layout [[7; 8; 9]; [10; 11]]) 0 2
  = Ok ([7; 8; 10; 11], [1; 1; 1; 1]).
Proof.
  apply (ragged_to_dense_pads 0 2 [[7; 8; 9]; [10; 11]]).
  unfold get_size, Int32.max_signed. simpl. lia.
Defined.

Lemma reversed_row_unmasked_witness :
  fill_row (Ragged [2] [1] [7; 8; 9; 10]) 0 (Z.of_nat 2) (Z.of_nat 0)
    (State [] [])
  = Ok (State [9; 10] [1; 1]).
Proof.
  apply (reversed_row_unmasked 0 2 (Ragged [2] [1] [7; 8; 9; 10]) 0 2 1
           (State [] []));
    try reflexivity;
    unfold get_size, Int32.min_signed, Int32.max_signed; simpl; lia.
Defined.

Lemma tokens_then_dense_witness :
  exists rws,
    rows rows_ab_empty = Ok rws
    /\ RaggedToDense.evaluate (Ragged [0; 2] [2; 2] [97; 98]) 0 3
       = Ok (flat_map
               (fun words =>
                  let ids := Int32.wrap <$> flat_map (fun w => w) words in
                  take 3 ids ++ replicate (3 - length ids) 0)
               rws,
             flat_map
               (fun words =>
                  let ids := Int32.wrap <$> flat_map (fun w => w) words in
                  replicate (3 `min` length ids) 1
                  ++ replicate (3 - length ids) 0)
               rws).
Proof.
  apply (tokens_then_dense (fun w => w) no_junk rows_ab_empty
           (Ragged [0; 2] [2; 2] [97; 98]) 0 3).
  - reflexivity.
  - unfold get_size, Int32.max_signed. simpl. lia.
  - reflexivity.
Defined.

End RaggedToDenseLayoutExamples.
